(** * sage_vision: scene detection, keyframe selection and the pipeline

  A shallow embedding of the algorithmic core of the repository:

  - [SceneDetector.detect_scenes]   (sagevision/scene_detector/detector.py)
  - [KeyframeSelector.select] and
    [KeyframeSelector._farthest_point_sampling]
                                    (sagevision/keyframe_selector/selector.py)
  - [VideoParser.frames]            (sagevision/video_parser/parser.py)
  - [Pipeline.run]                  (sagevision/pipeline/pipeline.py)

  and of the code around it:

  - [SceneDetector._histogram] on RGB frames
                                    (sagevision/scene_detector/detector.py)
  - [KeyframeSelector.__init__], [_load] and [_compute_embeddings]
                                    (sagevision/keyframe_selector/selector.py)
  - [VisionCaptioner.caption_batch] (sagevision/vision_captioner/captioner.py)
  - [Summarizer._load] and [Summarizer.summarize]
                                    (sagevision/summarizer/summarizer.py)
  - [chunked]                       (sagevision/utils/helpers.py)
  - [main]                          (sagevision/cli/cli.py)
  - the worker thread of [SageVisionApp.run_pipeline]
                                    (sagevision/gui/gui.py)

  Conventions.  Python exceptions are values of [exn]; a call that may
  raise returns a [result].  The code is written once, over the class
  [Np.arith] of the numbers of a numpy array and their operations, and
  read in three arithmetics: [binary64], the float64 of numpy and the
  float of Python, and [binary32], the float32 of the embeddings, both
  with numpy's pairwise summation; and [exact], the rationals, without
  rounding.  A property that does not depend on the
  numbers is proved in every arithmetic; a property of the values is
  proved in the arithmetic it names.  Progress percents are binary64
  numbers.  Collaborators outside the core (the embedding model, the
  captioner, the summarizer, OpenCV) are section variables. *)

From Stdlib Require Import String Ascii List Bool Arith ZArith QArith Qminmax Lia Lqa.
From Stdlib Require Import PrimFloat PrimInt63 Floats DecimalString
Sorting.Mergesort Sorting.Sorted Sorting.Permutation.
From Stdlib Require Strings.Byte.
Import ListNotations.
Close Scope Q_scope.
Open Scope string_scope.
Open Scope list_scope.
Open Scope nat_scope.

Set Implicit Arguments.

(* ===================================================================== *)
(** ** Python values and control                                          *)
(* ===================================================================== *)

Module Py.

(** An instance of a subclass of [Exception]: class name and [str(e)]. *)
Inductive exn : Type := Exception (cls : string) (msg : string).

Definition str_exn (e : exn) : string := let 'Exception _ m := e in m.

Definition IOError (msg : string) : exn := Exception "IOError" msg.
Definition IndexError (msg : string) : exn := Exception "IndexError" msg.
Definition ValueError (msg : string) : exn := Exception "ValueError" msg.

(** The outcome of a call: a value, or a raised exception. *)
Inductive result (A : Type) : Type :=
| Ok (a : A)
| Raise (e : exn).
Arguments Ok {A} a.
Arguments Raise {A} e.

Definition rbind {A B} (r : result A) (k : A -> result B) : result B :=
  match r with
  | Ok a => k a
  | Raise e => Raise e
  end.

(** [[f(x) for x in xs]] where [f] may raise: the first exception wins. *)
Fixpoint mapM {A B} (f : A -> result B) (xs : list A) : result (list B) :=
  match xs with
  | [] => Ok []
  | x :: xs' =>
      rbind (f x) (fun y => rbind (mapM f xs') (fun ys => Ok (y :: ys)))
  end.

(** Elementwise binary operation on two numpy vectors of equal shape. *)
Fixpoint zip_with {A B C} (f : A -> B -> C) (a : list A) (b : list B)
  : list C :=
  match a, b with
  | x :: a', y :: b' => f x y :: zip_with f a' b'
  | _, _ => []
  end.

(** [l[start:stop]] for non-negative [start], [stop]. *)
Definition slice {A} (l : list A) (start stop : nat) : list A :=
  firstn (stop - start) (skipn start l).

(** [str(n)] for a non-negative int. *)
Definition str_nat (n : nat) : string :=
  NilEmpty.string_of_uint (Nat.to_uint n).

(** [enumerate(l)]. *)
Definition enumerate {A} (l : list A) : list (nat * A) :=
  combine (seq 0 (length l)) l.

(** A generator object: the suspended body of a generator function.
    Nothing of the body has run when the object is created; [list_]
    (Python's [list(gen)]) runs it to exhaustion and either collects
    every yielded item or propagates the exception the body raised. *)
Inductive generator (A : Type) : Type :=
| Gen (body : unit -> result (list A)).

Definition list_ {A} (g : generator A) : result (list A) :=
  let 'Gen body := g in body tt.

End Py.
Import Py.

Declare Scope result_scope.
Notation "x <- c ;; k" := (rbind c (fun x => k))
(at level 61, c at next level, right associativity) : result_scope.
Delimit Scope result_scope with result.

(* ===================================================================== *)
(** ** numpy arrays of floating-point numbers                             *)
(* ===================================================================== *)

Module Np.

(** The element type of a float array, with the operations the code
    applies to it: the literals [0], [1.0] and [0.5], the conversion of
    an int, the four operations, [==], [<=] and [np.isnan].  [np_sum]
    ([np.sum] of a vector) and [np_dot] ([np.dot] of a matrix and a
    vector: one dot product per row) are operations of their own, because
    numpy computes neither as a left-to-right fold.  What is proved for
    every [arith] holds whatever the rounding and the order of evaluation
    are. *)
Class arith (A : Type) : Type := mk_arith {
  zero : A;
  one : A;
  half : A;
  of_nat : nat -> A;
  add : A -> A -> A;
  sub : A -> A -> A;
  mul : A -> A -> A;
  div : A -> A -> A;
  eqb : A -> A -> bool;
  leb : A -> A -> bool;
  is_nan : A -> bool;
  np_sum : list A -> A;
  np_dot : list (list A) -> list A -> list A;
  np_dot_shape : forall m e, length (np_dot m e) = length m
}.

(** [np.minimum(a, b)] on two numbers:
    [(a <= b || npy_isnan(a)) ? a : b]. *)
Definition minimum {A} {ar : arith A} (a b : A) : A :=
  if leb a b || is_nan a then a else b.

(** [<=] orders the numbers that are not NaN: any two of them compare,
    and the comparison is transitive. *)
Record ordered {A} (ar : arith A) : Prop := {
  leb_total : forall x y : A,
    is_nan x = false -> is_nan y = false ->
    leb x y = true \/ leb y x = true;
  leb_trans : forall x y z : A,
    leb x y = true -> leb y z = true -> leb x z = true
}.

End Np.

(* ===================================================================== *)
(** ** sagevision/scene_detector/detector.py                              *)
(* ===================================================================== *)

Module SceneDetector.

(** A histogram: the concatenated per-channel bins of one frame. *)
Definition hist (num : Type) : Type := list num.

Record t (num : Type) : Type := mk {
  threshold : num;
  min_scene_len : Z
}.

(** [__init__]: [self.min_scene_len = max(1, int(min_scene_len))]. *)
Definition init {num} (threshold : num) (min_scene_len : Z) : t num :=
  {| threshold := threshold; min_scene_len := Z.max 1 min_scene_len |}.

Section Detector.
Context {num : Type} {ar : Np.arith num}.

(** [denom = (h1 + h2); denom[denom == 0] = 1.0]: [h1 + h2] is a fresh
    array, so the masked assignment does not touch [h1] or [h2]. *)
Definition denom (h1 h2 : hist num) : list num :=
  map (fun d => if Np.eqb d Np.zero then Np.one else d)
      (zip_with Np.add h1 h2).

(** [chi2 = 0.5 * np.sum(((h1 - h2) ** 2) / denom)]; numpy squares with
    one multiplication. *)
Definition chi2 (h1 h2 : hist num) : num :=
  Np.mul Np.half
    (Np.np_sum (zip_with Np.div
                  (map (fun x => Np.mul x x) (zip_with Np.sub h1 h2))
                  (denom h1 h2))).

(** One iteration of [for i in range(1, n)], on the loop state
    [(boundaries, last_boundary)]; [chi2 >= self.threshold] is
    [self.threshold <= chi2]. *)
Definition step (self : t num) (hists : list (hist num))
    (st : list nat * nat) (i : nat) : list nat * nat :=
  let '(boundaries, last_boundary) := st in
  let h1 := nth (i - 1) hists [] in
  let h2 := nth i hists [] in
  if Np.leb (threshold self) (chi2 h1 h2)
     && (min_scene_len self <=? Z.of_nat i - Z.of_nat last_boundary)%Z
  then (boundaries ++ [i], i)
  else (boundaries, last_boundary).

(** The boundary loop, given the histograms of the [n >= 1] frames. *)
Definition scan (self : t num) (hists : list (hist num)) : list nat :=
  fst (fold_left (step self hists) (seq 1 (length hists - 1)) ([0], 0)).

Section Detect.
Variable Frame : Type.
(** [self._histogram(f)], after the conversion of [f] to a PIL image: the
    32-bin density histograms of the three RGB channels, concatenated.
    It is PIL and numpy code, and raises on malformed frame data. *)
Variable _histogram : Frame -> result (hist num).

Definition detect_scenes (self : t num) (frames : list Frame)
  : result (list nat) :=
  let n := length frames in
  if n =? 0 then Ok []
  else (hists <- mapM _histogram frames ;;
        Ok (scan self hists))%result.
End Detect.

(** The distance as the specification words it.  The term of one bin:
    [(a - b)^2 / (a + b)], with [1.0] in place of a zero denominator. *)
Definition bin_term (a b : num) : num :=
  Np.div (Np.mul (Np.sub a b) (Np.sub a b))
         (if Np.eqb (Np.add a b) Np.zero then Np.one else Np.add a b).

(** The sum of the terms of all bins, added up as [np.sum] does. *)
Definition chi_square_sum (h1 h2 : hist num) : num :=
  Np.np_sum (zip_with bin_term h1 h2).

(** Half that sum. *)
Definition chi_square (h1 h2 : hist num) : num :=
  Np.mul Np.half (chi_square_sum h1 h2).

(** The test of the loop body at index [i], as the specification words
    it, against the boundary [last_boundary] recorded last. *)
Definition rule (self : t num) (hists : list (hist num))
    (i last_boundary : nat) : Prop :=
  Np.leb (threshold self)
         (chi_square (nth (i - 1) hists []) (nth i hists [])) = true /\
  (min_scene_len self <= Z.of_nat i - Z.of_nat last_boundary)%Z.

End Detector.

(** The boundary that was the last one recorded when index [i] was
    examined: the largest recorded boundary below [i]. *)
Definition last_boundary_before (bs : list nat) (i : nat) : nat :=
  last (filter (fun b => b <? i) bs) 0.

(** Consecutive boundaries [a], [b] are at least [m] frames apart. *)
Definition gap (m : Z) (a b : nat) : Prop := (Z.of_nat a + m <= Z.of_nat b)%Z.

(** The loop invariant before index [a] is examined. *)
Definition inv {num} (self : t num) (a : nat) (st : list nat * nat) : Prop :=
  hd_error (fst st) = Some 0 /\
  snd st = last (fst st) 0 /\
  Forall (fun b => b < a) (fst st) /\
  Sorted lt (fst st) /\
  Sorted (gap (min_scene_len self)) (fst st).

End SceneDetector.

(* ===================================================================== *)
(** ** sagevision/keyframe_selector/selector.py                           *)
(* ===================================================================== *)

Module KeyframeSelector.

Definition vec (A : Type) : Type := list A.
(** An [n x d] embedding matrix, one row per frame. *)
Definition matrix (A : Type) : Type := list (vec A).

Record t : Type := mk {
  n_keyframes : option Z
}.

Section Sampling.
Context {A : Type} {ar : Np.arith A}.

(** [1.0 - np.dot(embs, e)]: the cosine distance of every row to [e]. *)
Definition cos_dists (embs : matrix A) (e : vec A) : list A :=
  map (fun d => Np.sub Np.one d) (Np.np_dot embs e).

(** The scan of [np.argmax] from position [i] on, [mp] being the
    largest value seen so far and [best] its position: a value replaces
    [mp] when [!(x <= mp)], and a NaN ends the scan. *)
Fixpoint argmax_from (l : list A) (i best : nat) (mp : A) : nat :=
  match l with
  | [] => best
  | x :: l' =>
      if Np.leb x mp then argmax_from l' (S i) best mp
      else if Np.is_nan x then i
      else argmax_from l' (S i) i x
  end.

(** [np.argmax(v)]: the first maximum, or the first NaN if there is one;
    numpy raises [ValueError] on an empty array. *)
Definition argmax (v : list A) : option nat :=
  match v with
  | [] => None
  | x :: v' => Some (if Np.is_nan x then 0 else argmax_from v' 1 0 x)
  end.

(** [np.minimum(a, b)] on two vectors. *)
Definition np_minimum (a b : list A) : list A := zip_with Np.minimum a b.

(** The body of [for _ in range(1, k)], [iters] times, on the loop state
    [(selected, min_dists)]. *)
Fixpoint fps_loop (embs : matrix A) (iters : nat) (selected : list nat)
    (min_dists : list A) : result (list nat) :=
  match iters with
  | O => Ok selected
  | S iters' =>
      match argmax min_dists with
      | None => Raise (ValueError "attempt to get argmax of an empty sequence")
      | Some idx =>
          let selected := selected ++ [idx] in
          match nth_error embs idx with
          | None => Raise (IndexError "index out of bounds")
          | Some e =>
              let dists := cos_dists embs e in
              fps_loop embs iters' selected (np_minimum min_dists dists)
          end
      end
  end.

Definition _farthest_point_sampling (embs : matrix A) (k : Z)
  : result (list nat) :=
  let n := length embs in
  if (Z.of_nat n <=? k)%Z then Ok (seq 0 n)
  else
    match embs with
    | [] => Raise (IndexError "index 0 is out of bounds")
    | e0 :: _ =>
        let selected := [0] in
        let min_dists := cos_dists embs e0 in
        fps_loop embs (Z.to_nat (k - 1)) selected min_dists
    end.

End Sampling.

(** [max(1, min(5, n // max(1, n // 5)))]. *)
Definition default_k (n : Z) : Z :=
  Z.max 1 (Z.min 5 (n / Z.max 1 (n / 5))).

(** [self.n_keyframes or default]: [None] and [0] are falsy. *)
Definition requested_k (self : t) (n : Z) : Z :=
  match n_keyframes self with
  | Some k => if (k =? 0)%Z then default_k n else k
  | None => default_k n
  end.

(** [k = min(k, n)], the count handed to the sampler. *)
Definition effective_k (self : t) (n : nat) : Z :=
  Z.min (requested_k self (Z.of_nat n)) (Z.of_nat n).

Section Select.
Context {A : Type} {ar : Np.arith A}.
Variable Frame : Type.
(** [self._compute_embeddings(frames)]: the CLIP model, followed by the
    L2 normalisation of every row.  It may raise. *)
Variable _compute_embeddings : list Frame -> result (matrix A).

Definition select (self : t) (frames : list Frame) : result (list nat) :=
  let n := length frames in
  if n =? 0 then Ok []
  else
    let k := effective_k self n in
    (embs <- _compute_embeddings frames ;;
     sel <- _farthest_point_sampling embs k ;;
     Ok (NatSort.sort sel))%result.
End Select.

Section Farthest.
Context {A : Type} {ar : Np.arith A}.

(** The cosine distance between rows [j] and [s], as the sampler
    computes it: entry [j] of [1.0 - np.dot(embs, embs[s])]. *)
Definition dist (embs : matrix A) (j s : nat) : A :=
  nth j (cos_dists embs (nth s embs [])) Np.zero.

(** The minimum distance of row [j] to the rows already selected (a
    non-empty list, in selection order), taken with [np.minimum]. *)
Definition min_dist_to (embs : matrix A) (selected : list nat) (j : nat)
  : A :=
  match selected with
  | [] => Np.zero
  | s0 :: rest =>
      fold_left Np.minimum (map (dist embs j) rest) (dist embs j s0)
  end.

(** No cosine distance between two rows is NaN. *)
Definition no_nan (embs : matrix A) : Prop :=
  forall j s, j < length embs -> s < length embs ->
    Np.is_nan (dist embs j s) = false.

(** [idx] is the lowest index, among all [n] rows, whose minimum distance
    to [selected] is largest: no row has a larger one, and every row
    before [idx] has a smaller one. *)
Definition farthest (embs : matrix A) (selected : list nat) (idx : nat)
  : Prop :=
  idx < length embs /\
  (forall j, j < length embs ->
     Np.leb (min_dist_to embs selected j)
            (min_dist_to embs selected idx) = true) /\
  (forall j, j < idx ->
     Np.leb (min_dist_to embs selected idx)
            (min_dist_to embs selected j) = false).

(** The pick as the specification words it: [idx] is a not-yet-selected
    index whose minimum distance to [selected] is largest among the
    not-yet-selected ones, the lowest such index. *)
Definition farthest_unselected (embs : matrix A) (selected : list nat)
    (idx : nat) : Prop :=
  idx < length embs /\
  ~ In idx selected /\
  (forall j, j < length embs -> ~ In j selected ->
     Np.leb (min_dist_to embs selected j)
            (min_dist_to embs selected idx) = true) /\
  (forall j, j < idx -> ~ In j selected ->
     Np.leb (min_dist_to embs selected idx)
            (min_dist_to embs selected j) = false).

End Farthest.

(** The dot product of two vectors of rationals. *)
Fixpoint dot (a b : vec Q) : Q :=
  match a, b with
  | x :: a', y :: b' => (x * y + dot a' b')%Q
  | _, _ => 0%Q
  end.

(** Row [r] is a unit vector. *)
Definition unit_vector (r : vec Q) : Prop := (dot r r == 1)%Q.

(** Two rows are the same vector. *)
Definition same_row (a b : vec Q) : Prop := Forall2 Qeq a b.

(** An [n x d] matrix of pairwise distinct unit vectors. *)
Definition distinct_unit_rows (d : nat) (embs : matrix Q) : Prop :=
  Forall (fun r => length r = d /\ unit_vector r) embs /\
  forall i j, i < length embs -> j < length embs ->
    same_row (nth i embs []) (nth j embs []) -> i = j.

(** The squared Euclidean distance of two vectors. *)
Fixpoint sqdist (a b : vec Q) : Q :=
  match a, b with
  | x :: a', y :: b' => ((x - y) * (x - y) + sqdist a' b')%Q
  | _, _ => 0%Q
  end.

End KeyframeSelector.

(* ===================================================================== *)
(** ** The arithmetics: rationals, binary64 and binary32                  *)
(* ===================================================================== *)

Module Arith.

(** Arithmetic without rounding, on the rationals: no NaN, sums and dot
    products are plain folds. *)
#[global] Instance exact : Np.arith Q := {|
  Np.zero := 0%Q;
  Np.one := 1%Q;
  Np.half := (1 # 2)%Q;
  Np.of_nat := fun n => inject_Z (Z.of_nat n);
  Np.add := Qplus;
  Np.sub := Qminus;
  Np.mul := Qmult;
  Np.div := Qdiv;
  Np.eqb := Qeq_bool;
  Np.leb := Qle_bool;
  Np.is_nan := fun _ => false;
  Np.np_sum := fold_right Qplus 0%Q;
  Np.np_dot := fun m e => map (fun r => KeyframeSelector.dot r e) m;
  Np.np_dot_shape :=
    fun m e => length_map (fun r => KeyframeSelector.dot r e) m
|}.

Fixpoint int_of_pos (p : positive) : int :=
  match p with
  | xH => 1%uint63
  | xO p' => PrimInt63.add (int_of_pos p') (int_of_pos p')
  | xI p' =>
      PrimInt63.add (PrimInt63.add (int_of_pos p') (int_of_pos p')) 1%uint63
  end.

(** [float(n)] for an int below [2^53], where the conversion is exact. *)
Definition float_of_nat (n : nat) : float :=
  match N.of_nat n with
  | N0 => 0%float
  | Npos p => PrimFloat.of_uint63 (int_of_pos p)
  end.

Section Sums.
Variable T : Type.
Variable add mul : T -> T -> T.
Variable zero : T.

(** The first loop of numpy's [pairwise_sum] on 8 to 128 numbers: eight
    accumulators [r], [r[j] += a[i + j]] for every further full block of
    eight; the numbers left over are returned with [r]. *)
Fixpoint accumulate (r rest : list T) : list T * list T :=
  match rest with
  | a0 :: a1 :: a2 :: a3 :: a4 :: a5 :: a6 :: a7 :: rest' =>
      accumulate (zip_with add r [a0; a1; a2; a3; a4; a5; a6; a7]) rest'
  | _ => (r, rest)
  end.

(** [((r[0] + r[1]) + (r[2] + r[3])) + ((r[4] + r[5]) + (r[6] + r[7]))],
    then the numbers left over, one by one. *)
Definition block_sum (a : list T) : T :=
  let '(r, rest) := accumulate (firstn 8 a) (skipn 8 a) in
  match r with
  | [r0; r1; r2; r3; r4; r5; r6; r7] =>
      fold_left add rest
        (add (add (add r0 r1) (add r2 r3)) (add (add r4 r5) (add r6 r7)))
  | _ => zero
  end.

(** numpy's [pairwise_sum]: fewer than 8 numbers are added from left to
    right; up to 128 by [block_sum]; more are split in two, the first
    half's length rounded down to a multiple of 8.  [fuel] bounds the
    depth of the splitting; the length of [a] is enough. *)
Fixpoint pairwise_sum (fuel : nat) (a : list T) : T :=
  let n := length a in
  if n <? 8 then fold_left add a zero
  else if n <=? 128 then block_sum a
  else
    match fuel with
    | O => zero
    | S fuel' =>
        let n2 := n / 2 - (n / 2) mod 8 in
        add (pairwise_sum fuel' (firstn n2 a))
            (pairwise_sum fuel' (skipn n2 a))
    end.

(** [np.sum] of a contiguous float vector: the reduction starts from
    the identity [0] and adds the pairwise sum of the whole vector. *)
Definition pairwise_np_sum (a : list T) : T :=
  add zero (pairwise_sum (length a) a).

(** A dot product accumulated from left to right. *)
Definition left_dot (a b : list T) : T :=
  fold_left add (zip_with mul a b) zero.

End Sums.

(** IEEE 754 binary64, the float64 of numpy and the float of Python.
    [np.dot] is a BLAS call, whose order of accumulation numpy does not
    fix; here each row's products are added from left to right. *)
#[global] Instance binary64 : Np.arith float := {|
  Np.zero := 0%float;
  Np.one := 1%float;
  Np.half := 0.5%float;
  Np.of_nat := float_of_nat;
  Np.add := PrimFloat.add;
  Np.sub := PrimFloat.sub;
  Np.mul := PrimFloat.mul;
  Np.div := PrimFloat.div;
  Np.eqb := PrimFloat.eqb;
  Np.leb := PrimFloat.leb;
  Np.is_nan := PrimFloat.is_nan;
  Np.np_sum := pairwise_np_sum PrimFloat.add 0%float;
  Np.np_dot :=
    fun m e => map (fun r => left_dot PrimFloat.add PrimFloat.mul 0%float r e) m;
  Np.np_dot_shape :=
    fun m e =>
      length_map (fun r => left_dot PrimFloat.add PrimFloat.mul 0%float r e) m
|}.

(** IEEE 754 binary32, the float32 of numpy and of torch, in which the
    embeddings are computed: the operations of the standard at precision
    24 and maximal exponent 128, on the numbers of [spec_float].  The
    sums are numpy's as for binary64. *)
Definition float32_of_Z (m e : Z) : spec_float :=
  binary_normalize 24 128 m e false.

#[global] Instance binary32 : Np.arith spec_float := {|
  Np.zero := S754_zero false;
  Np.one := float32_of_Z 1 0;
  Np.half := float32_of_Z 1 (-1);
  Np.of_nat := fun n => float32_of_Z (Z.of_nat n) 0;
  Np.add := SFadd 24 128;
  Np.sub := SFsub 24 128;
  Np.mul := SFmul 24 128;
  Np.div := SFdiv 24 128;
  Np.eqb := SFeqb;
  Np.leb := SFleb;
  Np.is_nan := fun f => match f with S754_nan => true | _ => false end;
  Np.np_sum := pairwise_np_sum (SFadd 24 128) (S754_zero false);
  Np.np_dot :=
    fun m e =>
      map (fun r => left_dot (SFadd 24 128) (SFmul 24 128)
                      (S754_zero false) r e) m;
  Np.np_dot_shape :=
    fun m e =>
      length_map (fun r => left_dot (SFadd 24 128) (SFmul 24 128)
                             (S754_zero false) r e) m
|}.

(** The place of a number that is not NaN in the order of the floats:
    its class, from minus infinity to plus infinity, then its exponent
    and its mantissa, negated for the negative numbers. *)
Definition key (f : spec_float) : Z * Z * Z :=
  match f with
  | S754_nan => (0, 0, 0)
  | S754_zero _ => (0, 0, 0)
  | S754_infinity true => (-2, 0, 0)
  | S754_infinity false => (2, 0, 0)
  | S754_finite true m e => (-1, - e, Z.neg m)
  | S754_finite false m e => (1, e, Z.pos m)
  end%Z.

(** The lexicographic order of the keys. *)
Definition lex_le (a b : Z * Z * Z) : Prop :=
  let '(a1, a2, a3) := a in
  let '(b1, b2, b3) := b in
  (a1 < b1 \/ (a1 = b1 /\ (a2 < b2 \/ (a2 = b2 /\ a3 <= b3))))%Z.

End Arith.

(* ===================================================================== *)
(** ** sagevision/video_parser/parser.py                                  *)
(* ===================================================================== *)

Module VideoParser.

Record t : Type := mk {
  source : string;
  step : Z
}.

(** [__init__]: [self.step = max(1, int(step))]. *)
Definition init (source : string) (step : Z) : t :=
  {| source := source; step := Z.max 1 step |}.

Section Frames.
Variable Frame : Type.
(** [cv2.VideoCapture(source)]: [None] when [cap.isOpened()] is false,
    otherwise the frames that successive [cap.read()] calls decode, each
    already converted to an RGB PIL image. *)
Variable VideoCapture : string -> option (list Frame).

(** The [while True] loop: frame number [idx] is yielded when
    [idx % step == 0]. *)
Fixpoint sample (step idx : Z) (decoded : list Frame) : list Frame :=
  match decoded with
  | [] => []
  | f :: rest =>
      if (idx mod step =? 0)%Z then f :: sample step (idx + 1) rest
      else sample step (idx + 1) rest
  end.

(** The body of [frames], from its first statement on. *)
Definition frames_body (self : t) : result (list Frame) :=
  match VideoCapture (source self) with
  | None => Raise (IOError ("Failed to open video source: " ++ source self))
  | Some decoded => Ok (sample (step self) 0 decoded)
  end.

(** [frames] contains [yield]: it is a generator function.  Calling it
    runs none of its body, not even the [isOpened] check; it returns the
    generator object. *)
Definition frames (self : t) : result (generator Frame) :=
  Ok (Gen (fun _ => frames_body self)).
End Frames.

End VideoParser.

(* ===================================================================== *)
(** ** sagevision/pipeline/pipeline.py                                    *)
(* ===================================================================== *)

Module Pipeline.

(** The progress percents are Python floats, that is [binary64]
    numbers. *)
Import Arith.

(** [percent_base = i / total_scenes]. *)
Definition percent_base {A} (ar : Np.arith A) (i total_scenes : nat) : A :=
  Np.div (Np.of_nat i) (Np.of_nat total_scenes).

(** [percent_step = 1.0 / total_scenes]. *)
Definition percent_step {A} (ar : Np.arith A) (total_scenes : nat) : A :=
  Np.div Np.one (Np.of_nat total_scenes).

(** [percent_base + percent_step], the percent of a [_done] event. *)
Definition percent_done {A} (ar : Np.arith A) (i total_scenes : nat) : A :=
  Np.add (percent_base ar i total_scenes) (percent_step ar total_scenes).

Section Run.
(** The numbers of the histograms (float64 in the code) and of the
    embeddings (float32), each with its arithmetic. *)
Context {num : Type} {ar : Np.arith num}.
Context {emb : Type} {ar_emb : Np.arith emb}.
Variable Frame : Type.
(** The private state of the progress callback. *)
Variable Sink : Type.
(** The collaborators: OpenCV, the histogram code, the embedding model,
    [self.captioner.caption_batch] and [self.summarizer.summarize]. *)
Variable VideoCapture : string -> option (list Frame).
Variable _histogram : Frame -> result (SceneDetector.hist num).
Variable _compute_embeddings :
  list Frame -> result (KeyframeSelector.matrix emb).
Variable caption_batch : list Frame -> result (list string).
Variable summarize : list string -> result string.

(** What a run does that is visible from outside: every call of [_cb],
    and every call of the captioner and of the summarizer. *)
Inductive action : Type :=
| Progress (stage : string) (percent : float) (message : string)
| CaptionBatch (images : list Frame)
| Summarize (texts : list string).

(** A callable [progress_callback(stage, percent, message)]: it may
    raise, and it may update its own state. *)
Definition callback : Type :=
  Sink -> string -> float -> string -> result unit * Sink.

Record world : Type := mk_world {
  sink : Sink;
  trace : list action
}.

(** Computations of [run]: they read and extend the world and return a
    value or raise.  What was done before an exception stays done. *)
Definition M (A : Type) : Type := world -> result A * world.

Definition ret {A} (a : A) : M A := fun w => (Ok a, w).

Definition bind {A B} (c : M A) (k : A -> M B) : M B :=
  fun w =>
    match c w with
    | (Ok a, w') => k a w'
    | (Raise e, w') => (Raise e, w')
    end.

Definition lift {A} (r : result A) : M A := fun w => (r, w).

Definition log (a : action) : M unit :=
  fun w => (Ok tt, {| sink := sink w; trace := trace w ++ [a] |}).

(** [try: x = c / except Exception as e: handler(e)], followed by [k x]
    outside the [try]. *)
Definition try_except {A B} (c : M A) (handler : exn -> M B) (k : A -> M B)
  : M B :=
  fun w =>
    match c w with
    | (Ok a, w') => k a w'
    | (Raise e, w') => handler e w'
    end.

Definition call_sink (f : callback) (stage : string) (percent : float)
    (message : string) : M unit :=
  fun w =>
    let '(r, s) := f (sink w) stage percent message in
    (r, {| sink := s; trace := trace w |}).

Definition call_caption (images : list Frame) : M (list string) :=
  bind (log (CaptionBatch images)) (fun _ => lift (caption_batch images)).

Definition call_summarize (texts : list string) : M string :=
  bind (log (Summarize texts)) (fun _ => lift (summarize texts)).

Declare Scope run_scope.
Local Notation "x <- c ;; k" := (bind c (fun x => k))
  (at level 61, c at next level, right associativity) : run_scope.
Local Notation "c ;; k" := (bind c (fun _ => k))
  (at level 61, right associativity) : run_scope.
Local Open Scope run_scope.

(** The nested [_cb]; [progress_callback] is [None] when the caller gave
    nothing callable. *)
Definition _cb (progress_callback : option callback) (stage : string)
    (percent : float) (message : string) : M unit :=
  log (Progress stage percent message) ;;
  match progress_callback with
  | Some f =>
      try_except (call_sink f stage percent message)
        (fun _ => ret tt)   (* except Exception: pass *)
        (fun _ => ret tt)
  | None => ret tt
  end.

(** [scene_frames[k]]. *)
Definition getitem (scene_frames : list Frame) (k : nat) : result Frame :=
  match nth_error scene_frames k with
  | Some f => Ok f
  | None => Raise (IndexError "list index out of range")
  end.

(** [boundaries[i + 1] if (i + 1) < len(boundaries) else len(frames)]. *)
Definition scene_end (frames : list Frame) (boundaries : list nat) (i : nat)
  : nat :=
  if S i <? length boundaries then nth (S i) boundaries 0
  else length frames.

(** The body of [for i, start_idx in enumerate(boundaries)]; the loop
    state is [scene_summaries]. *)
Definition scene (progress_callback : option callback)
    (selector : KeyframeSelector.t) (frames : list Frame)
    (boundaries : list nat) (total_scenes : nat)
    (scene_summaries : list string) (entry : nat * nat) : M (list string) :=
  let '(i, start_idx) := entry in
  _cb progress_callback ("scene_" ++ str_nat i ++ "_start")
      (percent_base binary64 i total_scenes)
      ("scene " ++ str_nat i ++ " starting at frame " ++ str_nat start_idx) ;;
  let end_idx := scene_end frames boundaries i in
  let scene_frames := slice frames start_idx end_idx in
  match scene_frames with
  | [] =>
      _cb progress_callback ("scene_" ++ str_nat i ++ "_done")
          (percent_done binary64 i total_scenes) "empty scene" ;;
      ret scene_summaries   (* continue *)
  | _ :: _ =>
      let key_idxs :=
        match KeyframeSelector.select _compute_embeddings selector
                scene_frames with
        | Ok sel => sel
        | Raise _ => [0]   (* fallback: use the first frame *)
        end in
      keyframes <- lift (mapM (getitem scene_frames) key_idxs) ;;
      captions <- call_caption keyframes ;;
      scene_summary <- call_summarize captions ;;
      _cb progress_callback ("scene_" ++ str_nat i ++ "_done")
          (percent_done binary64 i total_scenes)
          ("scene " ++ str_nat i ++ " done") ;;
      ret (scene_summaries ++ [scene_summary])
  end.

Fixpoint for_each {A B} (body : B -> A -> M B) (l : list A) (acc : B)
  : M B :=
  match l with
  | [] => ret acc
  | x :: l' => acc' <- body acc x ;; for_each body l' acc'
  end.

(** Stage 3: the loop over the scenes. *)
Definition scenes (progress_callback : option callback)
    (frames : list Frame) (boundaries : list nat) : M (list string) :=
  let selector := KeyframeSelector.mk None in
  let scene_summaries := [] in
  let total_scenes := Nat.max 1 (length boundaries) in
  for_each (scene progress_callback selector frames boundaries total_scenes)
           (enumerate boundaries) scene_summaries.

(** Stage 4: the final aggregation. *)
Definition aggregation (progress_callback : option callback)
    (scene_summaries : list string) : M string :=
  _cb progress_callback "aggregation" 0%float "aggregating scene summaries" ;;
  match scene_summaries with
  | [] =>
      _cb progress_callback "aggregation" 1%float "no scenes" ;;
      ret ""
  | _ :: _ =>
      final <- call_summarize scene_summaries ;;
      _cb progress_callback "aggregation" 1%float "done" ;;
      _cb progress_callback "finished" 1%float "pipeline complete" ;;
      ret final
  end.

Definition run (video_path : string) (progress_callback : option callback)
  : M string :=
  (* 1. Parse video -> frames *)
  _cb progress_callback "parsing" 0%float "opening video" ;;
  let parser := VideoParser.init video_path 1 in
  try_except (lift (VideoParser.frames VideoCapture parser))
    (fun e =>
       _cb progress_callback "parsing" 1%float ("failed: " ++ str_exn e) ;;
       ret "[Pipeline error] failed to open video")
    (fun frames_iterator =>
  _cb progress_callback "parsing" 1%float "done" ;;
  (* 2. Scene detection *)
  _cb progress_callback "scene_detection" 0%float "collecting frames" ;;
  frames <- lift (list_ frames_iterator) ;;
  let detector := SceneDetector.init Np.half 5 in
  try_except (lift (SceneDetector.detect_scenes _histogram detector frames))
    (fun e =>
       _cb progress_callback "scene_detection" 1%float
           ("failed: " ++ str_exn e) ;;
       ret "[Pipeline error] scene detection failed")
    (fun boundaries =>
  _cb progress_callback "scene_detection" 1%float
      ("found " ++ str_nat (length boundaries) ++ " scene(s)") ;;
  (* 3. For each scene, select keyframes, caption and summarize *)
  scene_summaries <- scenes progress_callback frames boundaries ;;
  (* 4. Final aggregation *)
  aggregation progress_callback scene_summaries)).

(** The stage and the percent of every progress event of a trace, in
    order. *)
Definition progress_of (tr : list action) : list (string * float) :=
  flat_map (fun a => match a with
                     | Progress stage percent _ => [(stage, percent)]
                     | _ => []
                     end) tr.

(** Two computations agree when, from worlds with the same trace, they
    end with the same outcome and the same trace: they differ at most in
    what happened to the state of the progress sink. *)
Definition agree {A} (c1 c2 : M A) : Prop :=
  forall w1 w2 : world,
    trace w1 = trace w2 ->
    fst (c1 w1) = fst (c2 w2) /\ trace (snd (c1 w1)) = trace (snd (c2 w2)).

(** The computation returns a value from every world. *)
Definition returns {A} (c : M A) : Prop :=
  forall w : world, exists a, fst (c w) = Ok a.

(** The embedding model returns one row per frame. *)
Definition one_row_per_frame : Prop :=
  forall frames embs,
    _compute_embeddings frames = Ok embs -> length embs = length frames.

End Run.

(** The two events of scene [i], as the loop body computes them. *)
Definition scene_progress (total_scenes i : nat) : list (string * float) :=
  [(("scene_" ++ str_nat i ++ "_start")%string,
    percent_base binary64 i total_scenes);
   (("scene_" ++ str_nat i ++ "_done")%string,
    percent_done binary64 i total_scenes)].

(** The percents of scene [i] as the specification has them: the done
    percent is [(i + 1) / total_scenes], the start percent is not below
    0, the done percent not below the start percent and not above 1. *)
Definition percents_in_order (total_scenes i : nat) : Prop :=
  percent_done binary64 i total_scenes
  = percent_base binary64 (S i) total_scenes /\
  (0 <=? percent_base binary64 i total_scenes)%float = true /\
  (percent_base binary64 i total_scenes
   <=? percent_done binary64 i total_scenes)%float = true /\
  (percent_done binary64 i total_scenes <=? 1)%float = true.

End Pipeline.

(* ===================================================================== *)
(** ** A small concrete world                                             *)
(* ===================================================================== *)

Module Demo.

(** A synthetic frame painted in one colour [(r, g, b)], as the tests of
    the repository build them. *)
Definition Frame : Type := (nat * nat * nat)%type.

(** [np.histogram(channel, bins=32, range=(0, 256), density=True)] of a
    uniform channel of value [v]: all the mass, divided by the bin width
    8, in bin [v // 8]. *)
Definition channel (v : nat) : SceneDetector.hist Q :=
  map (fun b => if b =? v / 8 then (1 # 8)%Q else 0%Q) (seq 0 32).

Definition _histogram (f : Frame) : result (SceneDetector.hist Q) :=
  let '(r, g, b) := f in Ok (channel r ++ channel g ++ channel b).

Definition red : Frame := (200, 10, 10).
Definition green : Frame := (10, 200, 10).

(** The frames of [test_scene_detector_detects_boundaries]. *)
Definition two_colours : list Frame := repeat red 4 ++ repeat green 4.

(** A stand-in for the embedding model: one unit vector per dominant
    colour, so that frames of one colour have equal embeddings. *)
Definition embedding (f : Frame) : KeyframeSelector.vec Q :=
  let '(r, g, _) := f in
  if g <? r then [1; 0]%Q
  else if r <? g then [0; 1]%Q
  else [3 # 5; 4 # 5]%Q.

Definition _compute_embeddings (frames : list Frame)
  : result (KeyframeSelector.matrix Q) :=
  Ok (map embedding frames).

(** Three rows along one axis, the last two one rounding step of
    binary64 apart: as binary64 numbers, and as the rationals they are. *)
Definition close_rows64 : KeyframeSelector.matrix float :=
  [[1; 0]; [-0x1.8p+0; 0]; [-0x1.8000000000001p+0; 0]]%float.

Definition close_rows : KeyframeSelector.matrix Q :=
  [[1; 0]; [- (3 # 2); 0];
   [- ((3 # 2) + (1 # 4503599627370496)); 0]]%Q.

(** The like in binary32: [1], [-1.5] and [-(1.5 + 2^-23)]. *)
Definition close_rows32 : KeyframeSelector.matrix spec_float :=
  [[Arith.float32_of_Z 1 0; S754_zero false];
   [Arith.float32_of_Z (-3) (-1); S754_zero false];
   [Arith.float32_of_Z (-12582913) (-23); S754_zero false]].

(** The stubs of [test_pipeline_end_to_end]. *)
Definition caption_batch (images : list Frame) : result (list string) :=
  Ok (map (fun _ => "a test") images).

Definition summarize (texts : list string) : result string :=
  Ok (String.concat " | " texts).

(** A captioner whose model cannot be loaded. *)
Definition failing_caption_batch (images : list Frame)
  : result (list string) :=
  Raise (Exception "OSError" "cannot load the captioning model").

(** The file system: one video of eight frames, one video without any
    frame, and nothing else. *)
Definition VideoCapture (path : string) : option (list Frame) :=
  if String.eqb path "demo.mp4" then Some two_colours
  else if String.eqb path "empty.mp4" then Some []
  else None.

(** A progress callback that counts its calls and raises on each. *)
Definition raising_callback : Pipeline.callback nat :=
  fun calls _ _ _ => (Raise (Exception "RuntimeError" "sink closed"), S calls).

Definition w0 : Pipeline.world Frame nat :=
  {| Pipeline.sink := 0; Pipeline.trace := [] |}.

Definition run (caption : list Frame -> result (list string))
    (path : string) (cb : option (Pipeline.callback nat)) :=
  Pipeline.run VideoCapture _histogram _compute_embeddings caption summarize
    path cb w0.

End Demo.

(* ===================================================================== *)
(** ** detector.py, [_histogram]: the histogram of an RGB frame          *)
(* ===================================================================== *)

Module Rgb.

(** A pixel of an RGB image: three uint8 values. *)
Definition pixel : Type := (Byte.byte * Byte.byte * Byte.byte)%type.

(** [np.array(img.convert("RGB"))] with its two leading axes flattened:
    the pixels of a decoded frame.  A decoded frame has at least one
    pixel. *)
Record image : Type := mk_image {
  corner : pixel;
  others : list pixel
}.

Definition pixels (img : image) : list pixel := corner img :: others img.

(** [arr[..., c]]: the values of channel [c]. *)
Definition channel (c : nat) (img : image) : list nat :=
  map (fun p : pixel =>
         let '(r, g, b) := p in
         Byte.to_nat match c with 0 => r | 1 => g | _ => b end)
      (pixels img).

(** The number of values that fall into bin [b] of the 32 equal bins of
    [range=(0, 256)]: bin [b] holds the values of [[8 b, 8 b + 8)]. *)
Definition bin_count (values : list nat) (b : nat) : nat :=
  length (filter (fun v => v / 8 =? b) values).

Section Histogram.
Context {num : Type} {ar : Np.arith num}.

(** [np.histogram(values, bins=32, range=(0, 256), density=True)[0]]:
    numpy returns [n / db / n.sum()], with [n] the counts and [db = 8.0]
    the width of the bins. *)
Definition np_histogram (values : list nat) : SceneDetector.hist num :=
  let n := map (bin_count values) (seq 0 32) in
  map (fun count =>
         Np.div (Np.div (Np.of_nat count) (Np.of_nat 8))
                (Np.of_nat (list_sum n)))
      n.

(** [for c in range(3): hists.append(hist)], then
    [np.concatenate(hists)]. *)
Definition histogram_of (img : image) : SceneDetector.hist num :=
  concat (map (fun c => np_histogram (channel c img)) (seq 0 3)).

(** On an RGB image none of these steps raises. *)
Definition _histogram (img : image) : result (SceneDetector.hist num) :=
  Ok (histogram_of img).

End Histogram.

(** A frame painted in one colour. *)
Definition uniform (p : pixel) (size : nat) : image :=
  {| corner := p; others := repeat p size |}.

End Rgb.

(* ===================================================================== *)
(** ** A video of RGB frames with one hard cut                           *)
(* ===================================================================== *)

Module RgbDemo.

Definition red : Rgb.image := Rgb.uniform (Byte.xc8, Byte.x0a, Byte.x0a) 3.
Definition green : Rgb.image := Rgb.uniform (Byte.x0a, Byte.xc8, Byte.x0a) 3.

(** A frame of one black pixel, and a frame of [n1 >= 1] pixels of the
    grey 24 followed by [n2] pixels of the grey 32. *)
Definition black : Rgb.image := Rgb.uniform (Byte.x00, Byte.x00, Byte.x00) 0.
Definition greys (n1 n2 : nat) : Rgb.image :=
  {| Rgb.corner := (Byte.x18, Byte.x18, Byte.x18);
     Rgb.others := repeat (Byte.x18, Byte.x18, Byte.x18) (n1 - 1)
                   ++ repeat (Byte.x20, Byte.x20, Byte.x20) n2 |}.

(** Six red frames, then six green frames. *)
Definition cut : list Rgb.image := repeat red 6 ++ repeat green 6.

Definition VideoCapture (path : string) : option (list Rgb.image) :=
  if String.eqb path "cut.mp4" then Some cut else None.

(** A stand-in for the embedding model: one unit vector per dominant
    colour. *)
Definition embedding (img : Rgb.image) : KeyframeSelector.vec Q :=
  let '(r, g, _) := Rgb.corner img in
  if Byte.to_nat g <? Byte.to_nat r then [1; 0]%Q else [0; 1]%Q.

Definition _compute_embeddings (frames : list Rgb.image)
  : result (KeyframeSelector.matrix Q) :=
  Ok (map embedding frames).

Definition caption_batch (images : list Rgb.image) : result (list string) :=
  Ok (map (fun _ => "a frame") images).

Definition summarize (texts : list string) : result string :=
  Ok (String.concat " | " texts).

Definition w0 : Pipeline.world Rgb.image nat :=
  {| Pipeline.sink := 0; Pipeline.trace := [] |}.

(** A run on that video, the histograms being computed in the
    arithmetic [ar]. *)
Definition run {num} (ar : Np.arith num) (path : string)
    (cb : option (Pipeline.callback nat)) :=
  Pipeline.run VideoCapture (Rgb._histogram (ar := ar)) _compute_embeddings
    caption_batch summarize path cb w0.

End RgbDemo.

(* ===================================================================== *)
(** ** What a run computes                                               *)
(* ===================================================================== *)

Module Scenes.

Section Views.
Variable Frame : Type.
Variable caption_batch : list Frame -> result (list string).
Variable summarize : list string -> result string.

(** The frames of every scene, as the loop of [run] slices them:
    [frames[start_idx:end_idx]] for every [i, start_idx]. *)
Definition scene_slices (frames : list Frame) (boundaries : list nat)
  : list (list Frame) :=
  map (fun entry : nat * nat =>
         let '(i, start_idx) := entry in
         slice frames start_idx (Pipeline.scene_end frames boundaries i))
      (enumerate boundaries).

(** What the loop body computes for one scene: the keyframes, their
    captions and the scene summary. *)
Definition scene_record : Type := (list Frame * list string * string)%type.

Definition summary_of (r : scene_record) : string := snd r.

(** The record [r] is what the body computes from [scene_frames]:
    between one and five of its frames, captioned, then summarised. *)
Definition processed (scene_frames : list Frame) (r : scene_record) : Prop :=
  let '(keyframes, captions, scene_summary) := r in
  incl keyframes scene_frames /\
  1 <= length keyframes <= 5 /\
  caption_batch keyframes = Ok captions /\
  summarize captions = Ok scene_summary.

(** The collaborator calls of one scene. *)
Definition scene_calls (r : scene_record) : list (Pipeline.action Frame) :=
  let '(keyframes, captions, _) := r in
  [Pipeline.CaptionBatch keyframes; Pipeline.Summarize Frame captions].

(** The calls of the captioner and of the summarizer in a trace, in
    order. *)
Definition calls_of (tr : list (Pipeline.action Frame))
  : list (Pipeline.action Frame) :=
  filter (fun a => match a with
                   | Pipeline.Progress _ _ _ _ => false
                   | _ => true
                   end) tr.

End Views.

Arguments summary_of {Frame} r.
Arguments scene_calls {Frame} r.
Arguments calls_of {Frame} tr.

End Scenes.

(* ===================================================================== *)
(** ** sagevision/utils/helpers.py                                        *)
(* ===================================================================== *)

Module Helpers.

Section Chunked.
Variable A : Type.

(** The [for] loop of [chunked] and the statement after it; [buf] is
    the chunk being filled.  The result lists the chunks in the order
    in which the generator yields them; after a [yield], [buf] is bound
    to a new list, so the chunks do not share storage. *)
Fixpoint chunked_loop (size : Z) (buf : list A) (iterable : list A)
  : list (list A) :=
  match iterable with
  | [] =>
      match buf with
      | [] => []
      | _ :: _ => [buf]   (* if buf: yield buf *)
      end
  | item :: rest =>
      let buf := buf ++ [item] in
      if (Z.of_nat (length buf) >=? size)%Z
      then buf :: chunked_loop size [] rest
      else chunked_loop size buf rest
  end.

(** [list(chunked(iterable, size))]. *)
Definition chunked (iterable : list A) (size : Z) : list (list A) :=
  chunked_loop size [] iterable.

End Chunked.

End Helpers.

(* ===================================================================== *)
(** ** selector.py, [_compute_embeddings]                                 *)
(* ===================================================================== *)

Module Clip.
Import KeyframeSelector.

Definition NameError (msg : string) : exn := Exception "NameError" msg.

(** [range(start, stop, step)] for a positive [step]. *)
Definition range (start stop step : nat) : list nat :=
  map (fun j => start + j * step) (seq 0 ((stop - start + step - 1) / step)).

(** The number of columns of a 2-D array; an array without rows is taken
    to have none. *)
Definition width {A} (m : matrix A) : nat :=
  match m with
  | [] => 0
  | row :: _ => length row
  end.

(** [np.vstack(arrays)] of 2-D arrays. *)
Definition np_vstack {A} (arrays : list (matrix A)) : result (matrix A) :=
  match arrays with
  | [] => Raise (ValueError "need at least one array to concatenate")
  | first :: rest =>
      if forallb (fun m => width m =? width first) rest
      then Ok (concat arrays)
      else Raise (ValueError
                    "all the input array dimensions except for the concatenation axis must match exactly")
  end.

Section ComputeEmbeddings.
Context {A : Type} {ar : Np.arith A}.
Variable Frame : Type.
Variable Tensor : Type.
(** [self._load()], and what [self._using_open_clip] is after it. *)
Variable _load : result bool.
(** [isinstance(f, np.ndarray)]. *)
Variable is_ndarray : Frame -> bool.
(** [self._oc_preprocess(img).unsqueeze(0)]. *)
Variable _oc_preprocess : Frame -> result Tensor.
(** [torch.cat], the move to the device, [self._oc_model.encode_image]
    and the conversion to numpy. *)
Variable encode_image : list Tensor -> result (matrix A).
(** On one batch: [self._processor], the move to the device,
    [self._model.get_image_features] and the conversion to numpy. *)
Variable get_image_features : list Frame -> result (matrix A).
(** [np.linalg.norm] of one row. *)
Variable linalg_norm : vec A -> A.

Definition batch_size : nat := 16.

(** [frames[i : i + batch_size]] for
    [i in range(0, len(frames), batch_size)]. *)
Definition batches (frames : list Frame) : list (list Frame) :=
  map (fun i => slice frames i (i + batch_size))
      (range 0 (length frames) batch_size).

(** [f if not isinstance(f, np.ndarray) else Image.fromarray(f)], then
    the preprocessing.  The module never imports [Image]. *)
Definition preprocess_frame (f : Frame) : result Tensor :=
  if is_ndarray f then Raise (NameError "name 'Image' is not defined")
  else _oc_preprocess f.

(** [norms[norms == 0] = 1.0; embs = embs / norms]. *)
Definition l2_normalize (embs : matrix A) : matrix A :=
  map (fun row =>
         let norm := linalg_norm row in
         let norm := if Np.eqb norm Np.zero then Np.one else norm in
         map (fun x => Np.div x norm) row)
      embs.

Definition _compute_embeddings (frames : list Frame) : result (matrix A) :=
  (_using_open_clip <- _load ;;
   embs <- (if _using_open_clip : bool then
              tensors <- mapM preprocess_frame frames ;;
              encode_image tensors
            else
              batch_embeddings <- mapM get_image_features (batches frames) ;;
              np_vstack batch_embeddings) ;;
   Ok (l2_normalize embs))%result.

End ComputeEmbeddings.

End Clip.

(* ===================================================================== *)
(** ** sagevision/cli/cli.py                                              *)
(* ===================================================================== *)

Module Cli.

(** The namespace [parser.parse_args()] returns. *)
Record args : Type := mk_args {
  input : option string;
  gui : bool
}.

(** What [subprocess.run(..., capture_output=True, text=True)] returns. *)
Record completed_process : Type := mk_completed {
  returncode : Z;
  stdout : string;
  stderr : string
}.

(** How [main] ends: it returns, an [Exception] leaves it, or the
    interpreter exits ([parser.error] ends in [sys.exit(2)]). *)
Inductive outcome : Type :=
| Returned
| Raised (e : exn)
| SystemExit (code : Z).

(** Truth value of [args.input]: [None] and the empty string are
    falsy. *)
Definition truthy (s : option string) : bool :=
  match s with
  | None => false
  | Some s' => negb (String.eqb s' "")
  end.

Section Main.
Context {num : Type} {ar : Np.arith num}.
Context {emb : Type} {ar_emb : Np.arith emb}.
Variable Frame : Type.
Variable Sink : Type.
Variable VideoCapture : string -> option (list Frame).
Variable _histogram : Frame -> result (SceneDetector.hist num).
Variable _compute_embeddings :
  list Frame -> result (KeyframeSelector.matrix emb).
Variable caption_batch : list Frame -> result (list string).
Variable summarize : list string -> result string.
(** The Tcl/Tk check in a child process. *)
Variable subprocess_run : result completed_process.
(** [from sagevision.gui import launch; launch()]. *)
Variable launch : result unit.
(** [str.strip]. *)
Variable strip : string -> string.

(** The world of the pipeline that [main] creates, and the lines
    printed on the standard output. *)
Record state : Type := mk_state {
  pipeline_world : Pipeline.world Frame Sink;
  printed : list string
}.

Definition print (st : state) (line : string) : state :=
  {| pipeline_world := pipeline_world st; printed := printed st ++ [line] |}.

(** The [try] block of the [--gui] branch, with its [except Exception]
    clause. *)
Definition gui_branch (st : state) : state :=
  match subprocess_run with
  | Raise e => print st ("Failed to launch GUI: " ++ str_exn e)
  | Ok proc =>
      if negb (returncode proc =? 0)%Z then
        let st :=
          print st
            "Failed to start Tkinter GUI (tkinter initialization failed)." in
        let st :=
          if negb (String.eqb (stdout proc) "")
          then print st ("Stdout: " ++ strip (stdout proc)) else st in
        let st :=
          if negb (String.eqb (stderr proc) "")
          then print st ("Stderr: " ++ strip (stderr proc)) else st in
        print st
          "Suggested actions: ensure Tcl/Tk is installed and your Python is linked to it (see README)."
      else
        match launch with
        | Ok _ => st
        | Raise e => print st ("Failed to launch GUI: " ++ str_exn e)
        end
  end.

Definition main (a : args) (st : state) : outcome * state :=
  if gui a then (Returned, gui_branch st)
  else
    match input a with
    | Some video_path =>
        if truthy (input a) then
          (* pipeline = Pipeline(); summary = pipeline.run(args.input) *)
          match Pipeline.run VideoCapture _histogram _compute_embeddings
                  caption_batch summarize video_path None
                  (pipeline_world st) with
          | (Ok summary, w) =>
              (Returned,
               print {| pipeline_world := w; printed := printed st |} summary)
          | (Raise e, w) =>
              (Raised e, {| pipeline_world := w; printed := printed st |})
          end
        else (SystemExit 2, st)   (* parser.error(...) *)
    | None => (SystemExit 2, st)   (* parser.error(...) *)
    end.

End Main.

End Cli.

(* ===================================================================== *)
(** ** sagevision/gui/gui.py, the worker thread of [run_pipeline]        *)
(* ===================================================================== *)

Module Gui.

(** The calls that the worker thread hands to the Tk main loop. *)
Inductive ui_call : Type :=
| UpdateProgress (stage : string) (percent : float) (message : string)
| Done (res : string).

Section Worker.
Context {num : Type} {ar : Np.arith num}.
Context {emb : Type} {ar_emb : Np.arith emb}.
Variable Frame : Type.
Variable VideoCapture : string -> option (list Frame).
Variable _histogram : Frame -> result (SceneDetector.hist num).
Variable _compute_embeddings :
  list Frame -> result (KeyframeSelector.matrix emb).
Variable caption_batch : list Frame -> result (list string).
Variable summarize : list string -> result string.
(** [self.master.after(0, f, *args)] on the queue of the main loop. *)
Variable after : list ui_call -> ui_call -> result unit * list ui_call.

Definition progress_cb : Pipeline.callback (list ui_call) :=
  fun queue stage percent message =>
    after queue (UpdateProgress stage percent message).

Definition worker (path : string)
    (w : Pipeline.world Frame (list ui_call))
  : result unit * Pipeline.world Frame (list ui_call) :=
  let '(r, w') :=
    Pipeline.run VideoCapture _histogram _compute_embeddings caption_batch
      summarize path (Some progress_cb) w in
  let res :=
    match r with
    | Ok res => res
    | Raise e => ("[Error running pipeline] " ++ str_exn e)%string
    end in
  let '(scheduled, queue) := after (Pipeline.sink w') (Done res) in
  (scheduled, {| Pipeline.sink := queue; Pipeline.trace := Pipeline.trace w' |}).

(** The progress events of a trace, as calls of [_update_progress]. *)
Definition ui_of (tr : list (Pipeline.action Frame)) : list ui_call :=
  flat_map (fun a => match a with
                     | Pipeline.Progress _ stage percent message =>
                         [UpdateProgress stage percent message]
                     | _ => []
                     end) tr.

(** The queue receives the progress events the computation logs. *)
Definition tracks {A} (c : Pipeline.M Frame (list ui_call) A) : Prop :=
  forall w, exists new,
    Pipeline.trace (snd (c w)) = Pipeline.trace w ++ new /\
    Pipeline.sink (snd (c w)) = Pipeline.sink w ++ ui_of new.

End Worker.

End Gui.

(* ===================================================================== *)
(** ** sagevision/vision_captioner/captioner.py, [caption_batch]          *)
(* ===================================================================== *)

Module VisionCaptioner.

Section CaptionBatch.
Variable Image : Type.
(** [self.caption(img)]: the lazy load, the BLIP processor, the
    generation and the decoding. *)
Variable caption : Image -> result string.

(** [[self.caption(img) for img in images]]. *)
Definition caption_batch (images : list Image) : result (list string) :=
  mapM caption images.

End CaptionBatch.

End VisionCaptioner.

(* ===================================================================== *)
(** ** What a run hands to the captioner and to the summarizer           *)
(* ===================================================================== *)

Module Calls.

Section Bounds.
Variable Frame : Type.
Variable Sink : Type.

(** A captioner call on between one and five images, a summarizer call
    on at least one text. *)
Definition call_ok (a : Pipeline.action Frame) : Prop :=
  match a with
  | Pipeline.Progress _ _ _ _ => True
  | Pipeline.CaptionBatch images => 1 <= length images <= 5
  | Pipeline.Summarize _ texts => texts <> []
  end.

(** Every call the computation makes is [call_ok]. *)
Definition within_bounds {A} (c : Pipeline.M Frame Sink A) : Prop :=
  forall w, exists new,
    Pipeline.trace (snd (c w)) = Pipeline.trace w ++ new /\
    Forall call_ok new.

End Bounds.

End Calls.

(* ===================================================================== *)
(** ** selector.py, [__init__] and [_load]                                *)
(* ===================================================================== *)

Module ClipLoader.

Inductive torch_device : Type := cuda | mps | cpu.

Section Load.
(** The objects of the libraries: handles, opaque here. *)
Variable Model : Type.
Variable Processor : Type.
Variable OcModel : Type.
Variable Preprocess : Type.

Record t : Type := mk {
  model_name : string;
  device : torch_device;
  n_keyframes : option Z;
  token : option string;
  use_open_clip : bool;
  _model : option Model;
  _processor : option Processor;
  _oc_model : option OcModel;
  _oc_preprocess : option Preprocess;
  _using_open_clip : bool;
  (** Not an attribute: the warnings that [_load] has printed. *)
  printed : list string
}.

(** The machine and the libraries. *)
Variable cuda_is_available : bool.
Variable mps_is_available : bool.
(** [os.environ.get("HUGGINGFACE_HUB_TOKEN")]. *)
Variable environ_token : option string.
(** [import open_clip] and [open_clip.create_model_and_transforms(repo)],
    of whose three results the second is dropped. *)
Variable create_model_and_transforms : string -> result (OcModel * Preprocess).
Variable oc_eval : OcModel -> result unit.
Variable oc_to : OcModel -> torch_device -> result unit.
(** [from transformers import CLIPModel, CLIPProcessor]. *)
Variable import_transformers : result unit.
(** [from_pretrained(name, **load_kwargs)]; the second argument is
    [use_auth_token], when given. *)
Variable processor_from_pretrained : string -> option string -> result Processor.
Variable model_from_pretrained : string -> option string -> result Model.
Variable model_to : Model -> torch_device -> result unit.

(** Truth value of an optional string: [None] and the empty string are
    falsy. *)
Definition truthy (s : option string) : bool :=
  match s with
  | None => false
  | Some s' => negb (String.eqb s' "")
  end.

Definition _auto_device : torch_device :=
  if cuda_is_available then cuda
  else if mps_is_available then mps
  else cpu.

Definition init (model_name : string) (device : option torch_device)
    (n_keyframes : option Z) (token : option string) (use_open_clip : bool)
  : t :=
  {| model_name := model_name;
     device := match device with Some d => d | None => _auto_device end;
     n_keyframes := n_keyframes;
     token := if truthy token then token else environ_token;
     use_open_clip := use_open_clip || String.prefix "hf-hub:" model_name;
     _model := None;
     _processor := None;
     _oc_model := None;
     _oc_preprocess := None;
     _using_open_clip := false;
     printed := [] |}.

Definition set_oc (self : t) (m : OcModel) (p : Preprocess) : t :=
  {| model_name := model_name self; device := device self;
     n_keyframes := n_keyframes self; token := token self;
     use_open_clip := use_open_clip self;
     _model := _model self; _processor := _processor self;
     _oc_model := Some m; _oc_preprocess := Some p;
     _using_open_clip := _using_open_clip self; printed := printed self |}.

Definition set_using_open_clip (self : t) (b : bool) : t :=
  {| model_name := model_name self; device := device self;
     n_keyframes := n_keyframes self; token := token self;
     use_open_clip := use_open_clip self;
     _model := _model self; _processor := _processor self;
     _oc_model := _oc_model self; _oc_preprocess := _oc_preprocess self;
     _using_open_clip := b; printed := printed self |}.

Definition set_processor (self : t) (p : Processor) : t :=
  {| model_name := model_name self; device := device self;
     n_keyframes := n_keyframes self; token := token self;
     use_open_clip := use_open_clip self;
     _model := _model self; _processor := Some p;
     _oc_model := _oc_model self; _oc_preprocess := _oc_preprocess self;
     _using_open_clip := _using_open_clip self; printed := printed self |}.

Definition set_model (self : t) (m : Model) : t :=
  {| model_name := model_name self; device := device self;
     n_keyframes := n_keyframes self; token := token self;
     use_open_clip := use_open_clip self;
     _model := Some m; _processor := _processor self;
     _oc_model := _oc_model self; _oc_preprocess := _oc_preprocess self;
     _using_open_clip := _using_open_clip self; printed := printed self |}.

Definition set_device (self : t) (d : torch_device) : t :=
  {| model_name := model_name self; device := d;
     n_keyframes := n_keyframes self; token := token self;
     use_open_clip := use_open_clip self;
     _model := _model self; _processor := _processor self;
     _oc_model := _oc_model self; _oc_preprocess := _oc_preprocess self;
     _using_open_clip := _using_open_clip self; printed := printed self |}.

(** [self.model_name = fallback; self.token = None]. *)
Definition set_fallback (self : t) (fallback : string) : t :=
  {| model_name := fallback; device := device self;
     n_keyframes := n_keyframes self; token := None;
     use_open_clip := use_open_clip self;
     _model := _model self; _processor := _processor self;
     _oc_model := _oc_model self; _oc_preprocess := _oc_preprocess self;
     _using_open_clip := _using_open_clip self; printed := printed self |}.

Definition print (self : t) (line : string) : t :=
  {| model_name := model_name self; device := device self;
     n_keyframes := n_keyframes self; token := token self;
     use_open_clip := use_open_clip self;
     _model := _model self; _processor := _processor self;
     _oc_model := _oc_model self; _oc_preprocess := _oc_preprocess self;
     _using_open_clip := _using_open_clip self;
     printed := printed self ++ [line] |}.

(** The last statement of [_load]: [self._model.to(self.device)], on the
    CPU when that raises. *)
Definition move_to_device (self : t) (m : Model) : result unit * t :=
  match model_to m (device self) with
  | Ok _ => (Ok tt, self)
  | Raise _ =>
      let self := set_device self cpu in
      match model_to m (device self) with
      | Ok _ => (Ok tt, self)
      | Raise e => (Raise e, self)
      end
  end.

(** The [except] clause of the transformers path: the configured model
    could not be loaded, [e] was raised. *)
Definition load_fallback (self : t) (e : exn) : result unit * t :=
  let fallback := "openai/clip-vit-large-patch14" in
  let self :=
    print self ("Warning: failed to load '" ++ model_name self ++ "' ("
                ++ str_exn e ++ "). Falling back to '" ++ fallback ++ "'.") in
  let self := set_fallback self fallback in
  match processor_from_pretrained (model_name self) None with
  | Raise e' => (Raise e', self)
  | Ok p =>
      let self := set_processor self p in
      match model_from_pretrained (model_name self) None with
      | Raise e' => (Raise e', self)
      | Ok m => move_to_device (set_model self m) m
      end
  end.

(** [_load] from [from transformers import ...] on. *)
Definition load_transformers (self : t) : result unit * t :=
  match import_transformers with
  | Raise e => (Raise e, self)
  | Ok _ =>
      let load_kwargs := if truthy (token self) then token self else None in
      match processor_from_pretrained (model_name self) load_kwargs with
      | Raise e => load_fallback self e
      | Ok p =>
          let self := set_processor self p in
          match model_from_pretrained (model_name self) load_kwargs with
          | Raise e => load_fallback self e
          | Ok m => move_to_device (set_model self m) m
          end
      end
  end.

(** The [except] clause of the open_clip path: warn, and go on with
    transformers. *)
Definition open_clip_failed (self : t) (e : exn) : result unit * t :=
  let self :=
    print self ("Warning: open_clip unavailable or failed for '"
                ++ model_name self ++ "' (" ++ str_exn e
                ++ "); falling back to transformers CLIP.") in
  load_transformers (set_using_open_clip self false).

Definition is_some {A} (o : option A) : bool :=
  match o with Some _ => true | None => false end.

Definition _load (self : t) : result unit * t :=
  if is_some (_model self) || is_some (_oc_model self) then (Ok tt, self)
  else if use_open_clip self then
    match create_model_and_transforms (model_name self) with
    | Raise e => open_clip_failed self e
    | Ok (m, p) =>
        let self := set_oc self m p in
        match oc_eval m with
        | Raise e => open_clip_failed self e
        | Ok _ =>
            match oc_to m (device self) with
            | Ok _ => (Ok tt, set_using_open_clip self true)
            | Raise _ =>
                match oc_to m cpu with
                | Ok _ => (Ok tt, set_using_open_clip self true)
                | Raise e => open_clip_failed self e
                end
            end
        end
    end
  else load_transformers self.

(** The objects that [_compute_embeddings] uses on the path that
    [_using_open_clip] selects are there. *)
Definition usable (self : t) : bool :=
  if _using_open_clip self
  then is_some (_oc_model self) && is_some (_oc_preprocess self)
  else is_some (_model self) && is_some (_processor self).

End Load.

End ClipLoader.

(* ===================================================================== *)
(** ** sagevision/summarizer/summarizer.py                                *)
(* ===================================================================== *)

Module Summarizer.
Import ClipLoader.

(** What the summarization pipeline returns, as far as [summarize] looks
    at it: a list of dicts from strings to strings, or something that is
    not a list. *)
Inductive output : Type :=
| PyList (items : list (list (string * string)))
| PyOther.

(** [d.get(key, default)]. *)
Fixpoint get (d : list (string * string)) (key default : string) : string :=
  match d with
  | [] => default
  | (k, v) :: d' => if String.eqb k key then v else get d' key default
  end.

(** Calls of [transformers.pipeline], with the [device] argument. *)
Inductive event : Type :=
| Created (device_arg : Z)
| Failed (device_arg : Z).

Section Summarize.
Variable Pipe : Type.

Record t : Type := mk {
  model_name : string;
  max_length : Z;
  device : torch_device;
  _pipeline : option Pipe
}.

Variable cuda_is_available : bool.
Variable mps_is_available : bool.
(** [from transformers import pipeline]. *)
Variable import_transformers : result unit.
(** [pipeline("summarization", model=model_name, device=device_arg)]. *)
Variable pipeline : string -> Z -> result Pipe.
(** [self._pipeline(joined, max_length=..., truncation=True)]. *)
Variable call : Pipe -> string -> Z -> result output.

Definition init (model_name : string) (device : option torch_device)
    (max_length : Z) : t :=
  {| model_name := model_name;
     max_length := max_length;
     device := match device with
               | Some d => d
               | None => _auto_device cuda_is_available mps_is_available
               end;
     _pipeline := None |}.

(** The state of the summarizer and the calls of [pipeline] so far. *)
Definition world : Type := (t * list event)%type.

Definition _load (w : world) : result unit * world :=
  let '(self, log) := w in
  match _pipeline self with
  | Some _ => (Ok tt, w)
  | None =>
      match import_transformers with
      | Raise e => (Raise e, w)
      | Ok _ =>
          let device_arg :=
            match device self with cuda => 0%Z | _ => (-1)%Z end in
          match pipeline (model_name self) device_arg with
          | Ok p =>
              (Ok tt,
               ({| model_name := model_name self;
                   max_length := max_length self;
                   device := device self; _pipeline := Some p |},
                log ++ [Created device_arg]))
          | Raise _ =>
              (* Fallback to CPU pipeline *)
              let log := log ++ [Failed device_arg] in
              match pipeline (model_name self) (-1)%Z with
              | Ok p =>
                  (Ok tt,
                   ({| model_name := model_name self;
                       max_length := max_length self;
                       device := cpu; _pipeline := Some p |},
                    log ++ [Created (-1)%Z]))
              | Raise e =>
                  (Raise e,
                   ({| model_name := model_name self;
                       max_length := max_length self;
                       device := cpu; _pipeline := None |},
                    log ++ [Failed (-1)%Z]))
              end
          end
      end
  end.

Definition newline : string := String (Ascii.ascii_of_nat 10) EmptyString.

Definition summarize (texts : list string) (w : world)
  : result string * world :=
  match texts with
  | [] => (Ok "", w)
  | _ :: _ =>
      match _load w with
      | (Raise e, w') => (Raise e, w')
      | (Ok _, w') =>
          let joined := String.concat newline texts in
          match _pipeline (fst w') with
          | None =>
              (Raise (Exception "TypeError"
                        "'NoneType' object is not callable"), w')
          | Some p =>
              match call p joined (max_length (fst w')) with
              | Raise e => (Raise e, w')
              | Ok (PyList (first :: _)) =>
                  (Ok (get first "summary_text" ""), w')
              | Ok _ => (Ok "", w')
              end
          end
      end
  end.

(** A caller that summarises one list after the other and goes on when
    a call raises. *)
Fixpoint summarize_all (inputs : list (list string)) (w : world) : world :=
  match inputs with
  | [] => w
  | texts :: inputs' => summarize_all inputs' (snd (summarize texts w))
  end.

(** The number of pipelines created. *)
Definition created (log : list event) : nat :=
  length (filter (fun ev => match ev with
                            | Created _ => true
                            | Failed _ => false
                            end) log).

(** The pipeline is there exactly when it was created once. *)
Definition loaded_once (w : world) : Prop :=
  created (snd w) = if is_some (_pipeline (fst w)) then 1 else 0.

End Summarize.

End Summarizer.

(* ===================================================================== *)
(** * Properties                                                          *)
(* ===================================================================== *)

(** ** Lists and results *)

Module ListFacts.

Lemma mapM_length A B (f : A -> result B) (xs : list A) :
  forall ys, mapM f xs = Ok ys -> length ys = length xs.
Proof.
  induction xs as [|x xs IH]; simpl; intros ys H.
  - inversion H; reflexivity.
  - destruct (f x) as [y|e]; simpl in H; [|discriminate].
    destruct (mapM f xs) as [ys'|e]; simpl in H; [|discriminate].
    inversion H; subst; simpl. f_equal. now apply IH.
Qed.

Lemma Forall_last A (P : A -> Prop) (l : list A) (d : A) :
  Forall P l -> l <> [] -> P (last l d).
Proof.
  induction 1 as [|x l Hx Hl IH]; intros Hne; [congruence|].
  destruct l as [|y l]; [exact Hx|].
  change (P (last (y :: l) d)). apply IH. discriminate.
Qed.

Lemma Sorted_snoc A (R : A -> A -> Prop) (l : list A) (x d : A) :
  Sorted R l -> (l <> [] -> R (last l d) x) -> Sorted R (l ++ [x]).
Proof.
  induction l as [|a l IH]; simpl; intros Hs Hl.
  - constructor; constructor.
  - inversion Hs as [|? ? Hs' Hhd]; subst.
    constructor.
    + apply IH; [assumption|].
      intros Hne. destruct l; [congruence|]. apply Hl. discriminate.
    + destruct l as [|b l]; simpl.
      * constructor. apply Hl. discriminate.
      * inversion Hhd; subst. now constructor.
Qed.

Lemma filter_below_app (a : nat) (bs rest : list nat) :
  Forall (fun b => b < a) bs -> Forall (fun b => a <= b) rest ->
  filter (fun b => b <? a) (bs ++ rest) = bs.
Proof.
  intros Hbs Hrest. rewrite filter_app.
  assert (E1 : filter (fun b => b <? a) bs = bs).
  { induction Hbs as [|b bs Hb _ IH]; simpl; [reflexivity|].
    apply Nat.ltb_lt in Hb. now rewrite Hb, IH. }
  assert (E2 : filter (fun b => b <? a) rest = []).
  { induction Hrest as [|b rest Hb _ IH]; simpl; [reflexivity|].
    apply Nat.ltb_ge in Hb. now rewrite Hb. }
  now rewrite E1, E2, app_nil_r.
Qed.

Lemma length_zip_with A B C (f : A -> B -> C) (a : list A) :
  forall b, length (zip_with f a b) = Nat.min (length a) (length b).
Proof.
  induction a as [|x a IH]; intros [|y b]; simpl; auto.
Qed.

Lemma nth_zip_with A B C (f : A -> B -> C) (da : A) (db : B) (dc : C)
    (a : list A) :
  forall b j, j < length a -> j < length b ->
    nth j (zip_with f a b) dc = f (nth j a da) (nth j b db).
Proof.
  induction a as [|x a IH]; intros [|y b] [|j]; simpl; intros Ha Hb;
    try lia; auto.
  apply IH; lia.
Qed.

Lemma nth_map_in A B (f : A -> B) (da : A) (db : B) (l : list A) (j : nat) :
  j < length l -> nth j (map f l) db = f (nth j l da).
Proof.
  intros Hj. rewrite (nth_indep _ db (f da)) by (now rewrite length_map).
  apply map_nth.
Qed.

(** A sorted list is determined by its elements. *)
Lemma sorted_perm_eq (l1 : list nat) :
  forall l2, StronglySorted le l1 -> StronglySorted le l2 ->
    Permutation l1 l2 -> l1 = l2.
Proof.
  induction l1 as [|x l1 IH]; intros l2 H1 H2 Hp.
  - apply Permutation_nil in Hp. now subst.
  - destruct l2 as [|y l2].
    + apply Permutation_sym, Permutation_nil in Hp. discriminate.
    + inversion H1 as [|? ? H1' Hx]; subst.
      inversion H2 as [|? ? H2' Hy]; subst.
      assert (Hxy : x = y).
      { assert (In x (y :: l2)) as [->|Hin]
          by (eapply Permutation_in; [exact Hp|now left]); [reflexivity|].
        assert (In y (x :: l1)) as [->|Hin']
          by (eapply Permutation_in;
              [apply Permutation_sym; exact Hp|now left]); [reflexivity|].
        rewrite Forall_forall in Hx, Hy.
        apply Hx in Hin'. apply Hy in Hin. lia. }
      subst y. f_equal. apply IH; auto.
      now apply Permutation_cons_inv in Hp.
Qed.

Lemma In_firstn A (l : list A) :
  forall t x, In x (firstn t l) -> In x l.
Proof.
  induction l as [|a l IH]; intros [|t] x; simpl; try tauto.
  intros [->|H]; eauto.
Qed.

Lemma firstn_snoc A (d : A) (l : list A) :
  forall t, t < length l -> firstn (S t) l = firstn t l ++ [nth t l d].
Proof.
  induction l as [|a l IH]; intros [|t] Ht; simpl in *; try lia; auto.
  f_equal. apply IH. lia.
Qed.

Lemma NoDup_snoc A (l : list A) (x : A) :
  NoDup l -> ~ In x l -> NoDup (l ++ [x]).
Proof.
  intros Hl Hx. apply NoDup_app; auto.
  - constructor; [intros []|constructor].
  - intros a Ha [->|[]]. contradiction.
Qed.

End ListFacts.

(** ** Scene detection *)

Module SceneDetectorFacts.
Import SceneDetector ListFacts.

Section AnyArithmetic.
Context {num : Type} {ar : Np.arith num}.

Lemma chi2_terms (h1 : hist num) :
  forall h2,
    zip_with Np.div (map (fun x => Np.mul x x) (zip_with Np.sub h1 h2))
      (denom h1 h2)
    = zip_with bin_term h1 h2.
Proof.
  unfold denom.
  induction h1 as [|a h1 IH]; intros [|b h2]; simpl; try reflexivity.
  f_equal. apply IH.
Qed.

(** The vectorised distance of the code is the sum the specification
    writes bin by bin. *)
Lemma chi2_chi_square (h1 h2 : hist num) : chi2 h1 h2 = chi_square h1 h2.
Proof.
  unfold chi2, chi_square, chi_square_sum. now rewrite chi2_terms.
Qed.

(** The test of [step] is the [rule]. *)
Lemma rule_test (self : t num) (hists : list (hist num))
    (i last_boundary : nat) :
  Np.leb (threshold self) (chi2 (nth (i - 1) hists []) (nth i hists []))
  && (min_scene_len self <=? Z.of_nat i - Z.of_nat last_boundary)%Z = true
  <-> rule self hists i last_boundary.
Proof.
  unfold rule. rewrite andb_true_iff, Z.leb_le, chi2_chi_square.
  reflexivity.
Qed.

Lemma inv_init (self : t num) : inv self 1 ([0], 0).
Proof.
  unfold inv; simpl. repeat split; repeat constructor.
Qed.

Lemma step_inv (self : t num) (hists : list (hist num)) (a : nat)
    (st : list nat * nat) :
  inv self a st -> inv self (S a) (step self hists st a).
Proof.
  destruct st as [bs lastb]. unfold inv; simpl.
  intros (Hhd & Hlast & Hlt & Hinc & Hgap).
  assert (Hne : bs <> []) by (intros ->; discriminate).
  destruct (Np.leb _ _ && _) eqn:Htest; simpl.
  - apply rule_test in Htest. destruct Htest as [_ Hfar].
    assert (Hl : last bs 0 < a) by (apply Forall_last; assumption).
    repeat split.
    + destruct bs; [congruence|exact Hhd].
    + now rewrite last_last.
    + apply Forall_app; split.
      * eapply Forall_impl; [|exact Hlt]. simpl; lia.
      * repeat constructor.
    + apply Sorted_snoc with (d := 0); auto.
    + apply Sorted_snoc with (d := 0); auto.
      intros _. unfold gap. subst lastb. lia.
  - repeat split; auto.
    eapply Forall_impl; [|exact Hlt]. simpl; lia.
Qed.

(** What the loop over [a, a + m) adds to the boundaries, and why. *)
Lemma fold_step_spec (self : t num) (hists : list (hist num)) (m : nat) :
  forall a st,
    inv self a st ->
    let res := fold_left (step self hists) (seq a m) st in
    inv self (a + m) res /\
    exists added,
      fst res = fst st ++ added /\
      Forall (fun b => a <= b) added /\
      forall i, a <= i < a + m ->
        (In i (fst res) <-> rule self hists i (last_boundary_before (fst res) i)).
Proof.
  induction m as [|m IH]; intros a st Hinv; simpl.
  - split; [now rewrite Nat.add_0_r|].
    exists []. rewrite app_nil_r. split; [reflexivity|].
    split; [constructor|]. intros i Hi. lia.
  - pose proof (step_inv hists Hinv) as Hinv1.
    destruct (IH (S a) _ Hinv1) as (Hres & added & Hfst & Hge & Hmem).
    split; [now rewrite <- Nat.add_succ_comm|].
    destruct st as [bs lastb].
    destruct Hinv as (Hhd & Hlast & Hlt & _ & _); simpl in Hhd, Hlast, Hlt.
    assert (Hge' : Forall (fun b => a <= b) added).
    { eapply Forall_impl; [|exact Hge]. simpl; lia. }
    remember (fold_left (step self hists) (seq (S a) m)
                (step self hists (bs, lastb) a)) as res eqn:Eres.
    clear Eres Hinv1 Hres IH. simpl fst at 2.
    unfold step in Hfst.
    destruct (Np.leb _ _ && _) eqn:Htest; simpl in Hfst.
    + exists ([a] ++ added). rewrite Hfst, <- app_assoc.
      split; [reflexivity|]. split; [constructor; [lia|exact Hge']|].
      intros i Hi. destruct (Nat.eq_dec i a) as [->|Hia].
      * unfold last_boundary_before.
        rewrite filter_below_app
          by first [assumption | constructor; [lia|exact Hge']].
        rewrite <- Hlast. apply rule_test in Htest.
        split; [intros _; exact Htest|intros _].
        apply in_or_app. right. now left.
      * rewrite app_assoc, <- Hfst. apply Hmem. lia.
    + exists added. rewrite Hfst.
      split; [reflexivity|]. split; [exact Hge'|].
      intros i Hi. destruct (Nat.eq_dec i a) as [->|Hia].
      * unfold last_boundary_before.
        rewrite filter_below_app by assumption.
        rewrite <- Hlast, <- rule_test, Htest.
        split; [|discriminate]. intros Hin. exfalso.
        apply in_app_or in Hin. destruct Hin as [Hin|Hin].
        -- rewrite Forall_forall in Hlt. apply Hlt in Hin. lia.
        -- rewrite Forall_forall in Hge. apply Hge in Hin. lia.
      * rewrite <- Hfst. apply Hmem. lia.
Qed.

Lemma scan_spec (self : t num) (hists : list (hist num)) :
  hists <> [] ->
  let bs := scan self hists in
  hd_error bs = Some 0 /\
  Forall (fun b => b < length hists) bs /\
  Sorted lt bs /\
  Sorted (gap (min_scene_len self)) bs /\
  forall i, 1 <= i < length hists ->
    (In i bs <-> rule self hists i (last_boundary_before bs i)).
Proof.
  intros Hne. unfold scan.
  assert (Hn : 1 + (length hists - 1) = length hists).
  { destruct hists; [congruence|simpl; lia]. }
  destruct (fold_step_spec hists (length hists - 1) (inv_init self))
    as ((Hhd & _ & Hlt & Hinc & Hgap) & added & _ & _ & Hmem).
  rewrite Hn in Hlt, Hmem. cbv zeta. auto.
Qed.

Lemma detect_scenes_scan (Frame : Type)
    (_histogram : Frame -> result (hist num))
    (self : t num) (frames : list Frame) (hists : list (hist num)) :
  frames <> [] -> mapM _histogram frames = Ok hists ->
  detect_scenes _histogram self frames = Ok (scan self hists)
  /\ hists <> [] /\ length hists = length frames.
Proof.
  intros Hne Hh. pose proof (mapM_length _ _ Hh) as Hlen.
  unfold detect_scenes. destruct frames as [|f frames]; [congruence|].
  change (length (f :: frames) =? 0) with false. cbv iota.
  rewrite Hh. simpl. repeat split; auto.
  intros ->. discriminate.
Qed.

(** [__init__] clamps the debounce to at least one frame. *)
Lemma init_min_scene_len (threshold : num) (m : Z) :
  (1 <= min_scene_len (init threshold m))%Z.
Proof. unfold init; simpl. lia. Qed.

(** C4.  For an empty frame sequence [detect_scenes] returns the empty
    list.  For a non-empty one (whose histograms can be computed) it
    returns a boundary list that starts with 0, is strictly increasing,
    has consecutive boundaries at least [min_scene_len] frames apart, and
    only holds frame indices.  This holds in every arithmetic. *)
Theorem detect_scenes_boundaries (Frame : Type)
    (_histogram : Frame -> result (hist num)) (self : t num)
    (frames : list Frame) (hists : list (hist num)) :
  mapM _histogram frames = Ok hists ->
  exists bs,
    detect_scenes _histogram self frames = Ok bs /\
    (frames = [] -> bs = []) /\
    (frames <> [] ->
       hd_error bs = Some 0 /\
       Sorted lt bs /\
       Sorted (gap (min_scene_len self)) bs /\
       Forall (fun b => b < length frames) bs).
Proof.
  intros Hh. destruct frames as [|f frames].
  - exists []. split; [reflexivity|]. split; [reflexivity|congruence].
  - assert (Hne : f :: frames <> []) by discriminate.
    destruct (detect_scenes_scan _ self Hne Hh) as (Hd & Hhne & Hlen).
    exists (scan self hists). split; [exact Hd|]. split; [congruence|].
    intros _. destruct (scan_spec self Hhne) as (H0 & Hlt & Hinc & Hgap & _).
    rewrite Hlen in Hlt. auto.
Qed.

(** C5.  Given the histograms of the frames, boundary 0 is always
    recorded, and an index [i >= 1] is recorded exactly when it is a frame
    index, the chi-square distance between the histograms of frames
    [i - 1] and [i] is at least the threshold, and [i] is at least
    [min_scene_len] past the boundary recorded last.  The distance is
    half the [np.sum] of the terms [(a - b)^2 / (a + b)] of the bins, with
    [1.0] for a zero denominator, every operation being the one of the
    arithmetic of the histograms: in the code, binary64 with numpy's
    pairwise summation. *)
Theorem detect_scenes_rule (Frame : Type)
    (_histogram : Frame -> result (hist num)) (self : t num)
    (frames : list Frame) (hists : list (hist num)) :
  frames <> [] ->
  mapM _histogram frames = Ok hists ->
  exists bs,
    detect_scenes _histogram self frames = Ok bs /\
    In 0 bs /\
    forall i, 1 <= i ->
      (In i bs <->
       i < length frames /\ rule self hists i (last_boundary_before bs i)).
Proof.
  intros Hne Hh.
  destruct (detect_scenes_scan _ self Hne Hh) as (Hd & Hhne & Hlen).
  exists (scan self hists). split; [exact Hd|].
  destruct (scan_spec self Hhne) as (H0 & Hlt & _ & _ & Hmem).
  rewrite Hlen in Hlt, Hmem. split.
  - destruct (scan self hists); [discriminate|].
    injection H0 as ->. now left.
  - intros i Hi. destruct (Nat.lt_ge_cases i (length frames)) as [Hin|Hout].
    + rewrite (Hmem i) by lia. tauto.
    + split; [|intros [? _]; lia].
      intros Hb. rewrite Forall_forall in Hlt. apply Hlt in Hb. lia.
Qed.

End AnyArithmetic.

Import Arith.

(** The run of [test_scene_detector_detects_boundaries]. *)
Lemma detect_scenes_boundaries_witness :
  exists bs,
    detect_scenes Demo._histogram (init (1 # 10)%Q 1) Demo.two_colours
      = Ok bs /\
    (Demo.two_colours = [] -> bs = []) /\
    (Demo.two_colours <> [] ->
       hd_error bs = Some 0 /\
       Sorted lt bs /\
       Sorted (gap (min_scene_len (init (1 # 10)%Q 1))) bs /\
       Forall (fun b => b < length Demo.two_colours) bs).
Proof.
  apply (@detect_scenes_boundaries Q exact Demo.Frame Demo._histogram
           (init (1 # 10)%Q 1) Demo.two_colours
           (repeat (Demo.channel 200 ++ Demo.channel 10 ++ Demo.channel 10) 4
            ++ repeat (Demo.channel 10 ++ Demo.channel 200 ++ Demo.channel 10) 4)).
  reflexivity.
Defined.

(** A red frame followed by a green one, in binary64. *)
Lemma detect_scenes_rule_witness :
  exists bs,
    detect_scenes (Rgb._histogram (ar := binary64)) (init 0.25%float 1)
      [RgbDemo.red; RgbDemo.green] = Ok bs /\
    In 0 bs /\
    forall i, 1 <= i ->
      (In i bs <->
       i < 2 /\
       rule (init 0.25%float 1)
         [Rgb.histogram_of RgbDemo.red; Rgb.histogram_of RgbDemo.green]
         i (last_boundary_before bs i)).
Proof.
  apply (@detect_scenes_rule float binary64 Rgb.image
           (Rgb._histogram (ar := binary64)) (init 0.25%float 1)
           [RgbDemo.red; RgbDemo.green]).
  - discriminate.
  - reflexivity.
Defined.

(** The boundaries of the two-colour test are exactly 0 and 4. *)
Example detect_two_colours :
  detect_scenes Demo._histogram (init (1 # 10)%Q 1) Demo.two_colours
  = Ok [0; 4].
Proof. vm_compute. reflexivity. Qed.

(** The same cut on RGB frames, in binary64: the distance of a red and a
    green frame is [0.25], and the boundaries are 0 and 6. *)
Example detect_cut_binary64 :
  chi2 (Rgb.histogram_of (ar := binary64) RgbDemo.red)
       (Rgb.histogram_of RgbDemo.green) = 0.25%float /\
  detect_scenes (Rgb._histogram (ar := binary64)) (init 0.25%float 1)
    RgbDemo.cut = Ok [0; 6].
Proof. split; vm_compute; reflexivity. Qed.

(** Rounding and the order of the summation are observable.  A black
    frame and a frame of two greys are at distance [3/8] without
    rounding; in binary64 the distance is just below [0.375] with five
    and two pixels of the greys and just above with seven and two, so
    that at threshold [0.375] the first pair is no boundary. *)
Example rounding_decides_boundary :
  (chi2 (Rgb.histogram_of (ar := exact) RgbDemo.black)
        (Rgb.histogram_of (RgbDemo.greys 5 2)) == 3 # 8)%Q /\
  chi2 (Rgb.histogram_of (ar := binary64) RgbDemo.black)
       (Rgb.histogram_of (RgbDemo.greys 5 2)) = 0x1.7ffffffffffffp-2%float /\
  chi2 (Rgb.histogram_of (ar := binary64) RgbDemo.black)
       (Rgb.histogram_of (RgbDemo.greys 7 2)) = 0x1.8000000000001p-2%float /\
  detect_scenes (Rgb._histogram (ar := binary64)) (init 0.375%float 1)
    [RgbDemo.black; RgbDemo.greys 5 2] = Ok [0] /\
  detect_scenes (Rgb._histogram (ar := exact)) (init (3 # 8)%Q 1)
    [RgbDemo.black; RgbDemo.greys 5 2] = Ok [0; 1].
Proof. repeat split; vm_compute; reflexivity. Qed.

(** The guard on the denominator matters in binary64: the bins that are
    empty in both histograms would contribute [0 / 0], a NaN. *)
Example zero_denominator_guard :
  PrimFloat.is_nan (0 / 0)%float = true /\
  bin_term (ar := binary64) 0%float 0%float = 0%float.
Proof. split; vm_compute; reflexivity. Qed.

End SceneDetectorFacts.

(** ** The two arithmetics *)

Module ArithFacts.
Import Arith.

(** *** The rationals *)

Lemma exact_ordered : Np.ordered exact.
Proof.
  split; simpl.
  - intros x y _ _. rewrite !Qle_bool_iff.
    destruct (Qlt_le_dec x y) as [H|H]; [left; now apply Qlt_le_weak|now right].
  - intros x y z. rewrite !Qle_bool_iff. apply Qle_trans.
Qed.

(** *** binary64 *)

(** The fuel of [pairwise_sum] never runs out: any amount of at least
    the length of the vector gives the same sum. *)
Lemma pairwise_sum_fuel (T : Type) (add : T -> T -> T) (zero : T)
    (fuel : nat) :
  forall fuel' a,
    length a <= fuel -> length a <= fuel' ->
    pairwise_sum add zero fuel a = pairwise_sum add zero fuel' a.
Proof.
  induction fuel as [|fuel IH]; intros fuel' a Hf Hf'.
  - destruct a; [|simpl in Hf; lia]. destruct fuel'; reflexivity.
  - destruct fuel' as [|fuel'].
    + destruct a; [|simpl in Hf'; lia]. reflexivity.
    + cbn [pairwise_sum].
      destruct (Nat.ltb_spec (length a) 8) as [|H8]; [reflexivity|].
      destruct (Nat.leb_spec (length a) 128) as [|H128]; [reflexivity|].
      pose proof (Nat.div_mod_eq (length a) 2) as Hdiv.
      pose proof (Nat.mod_upper_bound (length a) 2 ltac:(lia)) as Hm2.
      pose proof (Nat.mod_upper_bound (length a / 2) 8 ltac:(lia)) as Hm8.
      f_equal; apply IH; rewrite ?length_firstn, ?length_skipn; lia.
Qed.

Lemma SFleb_key (f1 f2 : spec_float) :
  f1 <> S754_nan -> f2 <> S754_nan ->
  (SFleb f1 f2 = true <-> lex_le (key f1) (key f2)).
Proof.
  intros H1 H2. unfold SFleb.
  destruct f1 as [s1|s1| |s1 m1 e1], f2 as [s2|s2| |s2 m2 e2];
    try congruence; try destruct s1; try destruct s2; simpl;
    try change (Pos.compare_cont Eq m1 m2) with (m1 ?= m2)%positive;
    try destruct (Z.compare_spec e1 e2);
    try destruct (Pos.compare_spec m1 m2);
    simpl; split; intros; try discriminate; try reflexivity; lia.
Qed.

Lemma SFleb_not_nan (f1 f2 : spec_float) :
  SFleb f1 f2 = true ->
  f1 <> S754_nan /\ f2 <> S754_nan.
Proof.
  destruct f1, f2; try discriminate; split; discriminate.
Qed.

Lemma is_nan_false (x : float) :
  PrimFloat.is_nan x = false -> Prim2SF x <> S754_nan.
Proof.
  unfold PrimFloat.is_nan. rewrite FloatAxioms.eqb_spec. intros H E.
  rewrite E in H. discriminate.
Qed.

(** [<=] on binary64 numbers is total on those that are not NaN, and
    transitive. *)
Lemma binary64_ordered : Np.ordered binary64.
Proof.
  split; simpl.
  - intros x y Hx Hy. apply is_nan_false in Hx, Hy.
    rewrite !FloatAxioms.leb_spec, !SFleb_key by assumption.
    destruct (key (Prim2SF x)) as [[a1 a2] a3],
             (key (Prim2SF y)) as [[b1 b2] b3]. simpl. lia.
  - intros x y z. rewrite !FloatAxioms.leb_spec. intros Hxy Hyz.
    destruct (SFleb_not_nan _ _ Hxy) as [Hx Hy].
    destruct (SFleb_not_nan _ _ Hyz) as [_ Hz].
    rewrite SFleb_key in * by assumption.
    destruct (key (Prim2SF x)) as [[a1 a2] a3],
             (key (Prim2SF y)) as [[b1 b2] b3],
             (key (Prim2SF z)) as [[c1 c2] c3]. simpl in *. lia.
Qed.

(** So is [<=] on binary32 numbers. *)
Lemma binary32_ordered : Np.ordered binary32.
Proof.
  split; simpl.
  - intros x y Hx Hy.
    assert (Hx' : x <> S754_nan) by (intros ->; discriminate).
    assert (Hy' : y <> S754_nan) by (intros ->; discriminate).
    rewrite !SFleb_key by assumption.
    destruct (key x) as [[a1 a2] a3], (key y) as [[b1 b2] b3]. simpl. lia.
  - intros x y z Hxy Hyz.
    destruct (SFleb_not_nan _ _ Hxy) as [Hx Hy].
    destruct (SFleb_not_nan _ _ Hyz) as [_ Hz].
    rewrite SFleb_key in * by assumption.
    destruct (key x) as [[a1 a2] a3], (key y) as [[b1 b2] b3],
             (key z) as [[c1 c2] c3]. simpl in *. lia.
Qed.

(** [0.1] and [1 / 3] in binary32, and the sum of ten times [0.1]. *)
Example binary32_values :
  Np.div (Np.one (arith := binary32)) (Np.of_nat 10)
  = S754_finite false 13421773 (-27) /\
  Np.div (Np.one (arith := binary32)) (Np.of_nat 3)
  = S754_finite false 11184811 (-25) /\
  Np.np_sum (repeat (Np.div (Np.one (arith := binary32)) (Np.of_nat 10)) 10)
  = S754_finite false 8388608 (-23).
Proof. repeat split; vm_compute; reflexivity. Qed.

End ArithFacts.

(** ** Keyframe selection *)

Module KeyframeSelectorFacts.
Import KeyframeSelector ListFacts Arith.

(** *** [list.sort()] on indices *)

Lemma Sorted_weaken A (R1 R2 : A -> A -> Prop) (l : list A) :
  (forall x y, R1 x y -> R2 x y) -> Sorted R1 l -> Sorted R2 l.
Proof.
  intros HR. induction 1 as [|x l _ IH Hhd]; constructor; auto.
  destruct Hhd; constructor; auto.
Qed.

Lemma NatOrder_leb_le (x : nat) : forall y, NatOrder.leb x y = true -> x <= y.
Proof.
  induction x as [|x IH]; intros [|y]; simpl; intros H;
    try lia; try discriminate.
  apply IH in H. lia.
Qed.

(** Sorted, and the same indices. *)
Lemma sort_sorted (l : list nat) : Sorted le (NatSort.sort l).
Proof.
  eapply Sorted_weaken; [|apply NatSort.Sorted_sort].
  intros x y H. apply NatOrder_leb_le. exact H.
Qed.

Lemma seq_strongly_sorted (n : nat) : forall a, StronglySorted le (seq a n).
Proof.
  induction n as [|n IH]; intros a; simpl; constructor; auto.
  apply Forall_forall. intros x Hx. apply in_seq in Hx. lia.
Qed.

Lemma sort_seq (n : nat) : NatSort.sort (seq 0 n) = seq 0 n.
Proof.
  symmetry. apply sorted_perm_eq.
  - apply seq_strongly_sorted.
  - apply Sorted_StronglySorted; [intros x y z; apply Nat.le_trans|].
    apply sort_sorted.
  - apply NatSort.Permuted_sort.
Qed.

(** *** The count handed to the sampler *)

Lemma default_k_bounds (n : Z) : (1 <= default_k n <= 5)%Z.
Proof. unfold default_k. lia. Qed.

Lemma effective_k_configured (k : Z) (n : nat) :
  (1 <= k)%Z -> effective_k (mk (Some k)) n = Z.min k (Z.of_nat n).
Proof.
  intros Hk. unfold effective_k, requested_k. simpl.
  destruct (Z.eqb_spec k 0); [lia|reflexivity].
Qed.

Section AnyArithmetic.
Context {A : Type} {ar : Np.arith A}.

(** *** [np.argmax] *)

Lemma argmax_from_range (l : list A) :
  forall i best mp, best < i -> argmax_from l i best mp < i + length l.
Proof.
  induction l as [|x l IH]; intros i best mp Hb; simpl.
  - lia.
  - destruct (Np.leb x mp).
    + specialize (IH (S i) best mp). lia.
    + destruct (Np.is_nan x); [lia|]. specialize (IH (S i) i x). lia.
Qed.

(** [np.argmax] of a non-empty vector is one of its positions. *)
Lemma argmax_range (v : list A) :
  v <> [] -> exists idx, argmax v = Some idx /\ idx < length v.
Proof.
  destruct v as [|x v]; [congruence|intros _]. simpl.
  eexists. split; [reflexivity|].
  destruct (Np.is_nan x); [lia|].
  pose proof (@argmax_from_range v 1 0 x). lia.
Qed.

Section Ordered.
Hypothesis Hord : Np.ordered ar.

Lemma leb_refl (x : A) : Np.is_nan x = false -> Np.leb x x = true.
Proof. intros Hx. now destruct (Np.leb_total Hord x x Hx Hx). Qed.

(** [argmax_from], started after the prefix [pre] has been scanned with
    [best] its first maximum, ends on the first maximum of the list. *)
Lemma argmax_from_spec (l : list A) :
  forall pre best mp,
    best < length pre ->
    mp = nth best pre Np.zero ->
    Forall (fun x => Np.is_nan x = false) (pre ++ l) ->
    (forall j, j < length pre -> Np.leb (nth j pre Np.zero) mp = true) ->
    (forall j, j < best -> Np.leb mp (nth j pre Np.zero) = false) ->
    argmax_from l (length pre) best mp < length (pre ++ l) /\
    (forall j, j < length (pre ++ l) ->
       Np.leb (nth j (pre ++ l) Np.zero)
              (nth (argmax_from l (length pre) best mp) (pre ++ l) Np.zero)
       = true) /\
    (forall j, j < argmax_from l (length pre) best mp ->
       Np.leb (nth (argmax_from l (length pre) best mp) (pre ++ l) Np.zero)
              (nth j (pre ++ l) Np.zero)
       = false).
Proof.
  induction l as [|x l IH]; intros pre best mp Hb Hv Hnan Hmax Hfirst.
  - simpl. rewrite app_nil_r. rewrite <- Hv. auto.
  - assert (Hlen : length (pre ++ [x]) = S (length pre))
      by (rewrite length_app; simpl; lia).
    assert (Happ : pre ++ x :: l = (pre ++ [x]) ++ l)
      by (now rewrite <- app_assoc).
    assert (Hx : Np.is_nan x = false).
    { rewrite Forall_forall in Hnan. apply Hnan.
      apply in_or_app. right. now left. }
    assert (Hmp : Np.is_nan mp = false).
    { rewrite Forall_forall in Hnan. apply Hnan. subst mp.
      apply in_or_app. left. now apply nth_In. }
    simpl argmax_from. rewrite Happ in *. rewrite <- Hlen.
    destruct (Np.leb x mp) eqn:Hle.
    + apply IH.
      * lia.
      * now rewrite app_nth1.
      * exact Hnan.
      * intros j Hj. destruct (Nat.eq_dec j (length pre)) as [->|Hne].
        -- now rewrite nth_middle.
        -- rewrite app_nth1 by lia. apply Hmax; lia.
      * intros j Hj. rewrite app_nth1 by lia. now apply Hfirst.
    + rewrite Hx.
      assert (Hlt : Np.leb mp x = true).
      { destruct (Np.leb_total Hord mp x Hmp Hx) as [H|H];
          [exact H|congruence]. }
      apply IH.
      * lia.
      * now rewrite nth_middle.
      * exact Hnan.
      * intros j Hj. destruct (Nat.eq_dec j (length pre)) as [->|Hne].
        -- rewrite nth_middle. now apply leb_refl.
        -- rewrite app_nth1 by lia.
           eapply (Np.leb_trans Hord); [apply Hmax; lia|exact Hlt].
      * intros j Hj. rewrite app_nth1 by lia.
        destruct (Np.leb x (nth j pre Np.zero)) eqn:E; [|reflexivity].
        rewrite <- Hle. symmetry.
        eapply (Np.leb_trans Hord); [exact E|apply Hmax; lia].
Qed.

(** [np.argmax] of numbers without a NaN: the lowest index that holds
    the largest entry. *)
Lemma argmax_spec (v : list A) (idx : nat) :
  Forall (fun x => Np.is_nan x = false) v ->
  argmax v = Some idx ->
  idx < length v /\
  (forall j, j < length v ->
     Np.leb (nth j v Np.zero) (nth idx v Np.zero) = true) /\
  (forall j, j < idx ->
     Np.leb (nth idx v Np.zero) (nth j v Np.zero) = false).
Proof.
  destruct v as [|x v]; [discriminate|]. intros Hnan. simpl.
  assert (Hx : Np.is_nan x = false) by now inversion Hnan.
  rewrite Hx. intros [= <-].
  apply (@argmax_from_spec v [x] 0 x); simpl; auto.
  - intros j Hj. replace j with 0 by lia. now apply leb_refl.
  - intros j Hj. lia.
Qed.

End Ordered.

(** *** The sampling loop *)

Lemma length_cos_dists (embs : matrix A) (e : vec A) :
  length (cos_dists embs e) = length embs.
Proof. unfold cos_dists. now rewrite length_map, Np.np_dot_shape. Qed.

(** Selecting one more row takes the pointwise minimum with its
    distances. *)
Lemma min_dist_to_snoc (embs : matrix A) (selected : list nat)
    (idx j : nat) :
  selected <> [] ->
  min_dist_to embs (selected ++ [idx]) j
  = Np.minimum (min_dist_to embs selected j) (dist embs j idx).
Proof.
  destruct selected as [|s0 rest]; [congruence|intros _].
  simpl. now rewrite map_app, fold_left_app.
Qed.

(** The vector of the minimum distances of all rows to [selected]. *)
Lemma min_dists_step (embs : matrix A) (selected : list nat) (idx : nat) :
  selected <> [] ->
  np_minimum (map (min_dist_to embs selected) (seq 0 (length embs)))
             (cos_dists embs (nth idx embs []))
  = map (min_dist_to embs (selected ++ [idx])) (seq 0 (length embs)).
Proof.
  intros Hsel. unfold np_minimum.
  apply (nth_ext _ _ Np.zero Np.zero).
  - rewrite length_zip_with, length_cos_dists, !length_map, length_seq. lia.
  - intros j Hj.
    rewrite length_zip_with, length_cos_dists, length_map, length_seq in Hj.
    rewrite (nth_zip_with Np.minimum Np.zero Np.zero)
      by (rewrite ?length_cos_dists, ?length_map, ?length_seq; lia).
    rewrite !(nth_map_in _ 0 Np.zero) by (rewrite length_seq; lia).
    rewrite seq_nth by lia. simpl.
    now rewrite min_dist_to_snoc.
Qed.

(** The sampling loop: it never raises, it runs [iters] times, and every
    pick is the [np.argmax] of the minimum distances to the rows selected
    before. *)
Lemma fps_loop_spec (embs : matrix A) (iters : nat) :
  forall selected,
    selected <> [] ->
    embs <> [] ->
    exists picks,
      fps_loop embs iters selected
        (map (min_dist_to embs selected) (seq 0 (length embs)))
      = Ok (selected ++ picks) /\
      length picks = iters /\
      Forall (fun i => i < length embs) picks /\
      forall t, t < iters ->
        argmax (map (min_dist_to embs (selected ++ firstn t picks))
                    (seq 0 (length embs)))
        = Some (nth t picks 0).
Proof.
  induction iters as [|iters IH]; intros selected Hsel Hne.
  - exists []. simpl. rewrite app_nil_r.
    split; [reflexivity|]. split; [reflexivity|].
    split; [constructor|]. intros t Ht. lia.
  - destruct (@argmax_range
                (map (min_dist_to embs selected) (seq 0 (length embs))))
      as (idx & Harg & Hidx).
    { destruct embs; [congruence|discriminate]. }
    rewrite length_map, length_seq in Hidx.
    simpl. rewrite Harg.
    rewrite (nth_error_nth' embs [] Hidx).
    rewrite min_dists_step by assumption.
    destruct (IH (selected ++ [idx])) as (picks & Hrun & Hpl & Hrange & Hfar).
    + intros H. apply app_eq_nil in H. destruct H; discriminate.
    + exact Hne.
    + exists (idx :: picks). rewrite Hrun, <- app_assoc. simpl.
      split; [reflexivity|]. split; [now rewrite Hpl|].
      split; [now constructor|].
      intros [|t] Ht; simpl.
      * now rewrite app_nil_r.
      * specialize (Hfar t (proj2 (Nat.succ_lt_mono _ _) Ht)).
        now rewrite <- app_assoc in Hfar.
Qed.

(** The distances to row 0, with which the sampler starts. *)
Lemma min_dists_init (embs : matrix A) :
  cos_dists embs (nth 0 embs [])
  = map (min_dist_to embs [0]) (seq 0 (length embs)).
Proof.
  apply (nth_ext _ _ Np.zero Np.zero).
  - now rewrite length_cos_dists, length_map, length_seq.
  - intros j Hj. rewrite length_cos_dists in Hj.
    rewrite (nth_map_in _ 0 Np.zero) by (rewrite length_seq; lia).
    rewrite seq_nth by lia. reflexivity.
Qed.

(** The sampler on [n > k] rows, [n >= 1]: it starts from row 0 and
    picks [max(0, k - 1)] further rows. *)
Lemma farthest_point_sampling_spec (embs : matrix A) (k : Z) :
  embs <> [] ->
  (k < Z.of_nat (length embs))%Z ->
  exists picks,
    _farthest_point_sampling embs k = Ok (0 :: picks) /\
    length picks = Z.to_nat (k - 1) /\
    Forall (fun i => i < length embs) picks /\
    forall t, t < Z.to_nat (k - 1) ->
      argmax (map (min_dist_to embs (0 :: firstn t picks))
                  (seq 0 (length embs)))
      = Some (nth t picks 0).
Proof.
  intros Hne Hk. unfold _farthest_point_sampling.
  destruct (Z.leb_spec (Z.of_nat (length embs)) k) as [Hge|_]; [lia|].
  destruct embs as [|e0 embs'] eqn:E; [congruence|]. rewrite <- E in *.
  replace e0 with (nth 0 embs []) by (now rewrite E).
  rewrite min_dists_init.
  apply (@fps_loop_spec embs (Z.to_nat (k - 1)) [0]).
  - discriminate.
  - exact Hne.
Qed.

(** With [k >= n] the sampler returns every index. *)
Lemma farthest_point_sampling_all (embs : matrix A) (k : Z) :
  (Z.of_nat (length embs) <= k)%Z ->
  _farthest_point_sampling embs k = Ok (seq 0 (length embs)).
Proof.
  intros Hk. unfold _farthest_point_sampling.
  destruct (Z.leb_spec (Z.of_nat (length embs)) k); [reflexivity|lia].
Qed.

(** What the sampler returns on [n >= 1] rows, whatever [k] is. *)
Lemma farthest_point_sampling_result (embs : matrix A) (k : Z) :
  embs <> [] ->
  exists sel,
    _farthest_point_sampling embs k = Ok sel /\
    Z.of_nat (length sel) = Z.max 1 (Z.min k (Z.of_nat (length embs))) /\
    Forall (fun i => i < length embs) sel /\
    ((Z.of_nat (length embs) <= k)%Z -> sel = seq 0 (length embs)).
Proof.
  intros Hne.
  assert (Hn : 1 <= length embs) by (destruct embs; [congruence|simpl; lia]).
  destruct (Z_lt_le_dec k (Z.of_nat (length embs))) as [Hlt|Hge].
  - destruct (farthest_point_sampling_spec Hne Hlt)
      as (picks & Hrun & Hlen & Hrange & _).
    exists (0 :: picks). split; [exact Hrun|]. split; [simpl length; lia|].
    split; [|lia]. constructor; [lia|exact Hrange].
  - exists (seq 0 (length embs)).
    split; [now apply farthest_point_sampling_all|].
    split; [rewrite length_seq; lia|]. split; [|reflexivity].
    apply Forall_forall. intros i Hi. apply in_seq in Hi. lia.
Qed.

(** *** Minimum distances *)

Lemma minimum_cases (x y : A) : Np.minimum x y = x \/ Np.minimum x y = y.
Proof. unfold Np.minimum. destruct (Np.leb x y || Np.is_nan x); auto. Qed.

Lemma fold_minimum_attained (l : list A) :
  forall init,
    fold_left Np.minimum l init = init \/ In (fold_left Np.minimum l init) l.
Proof.
  induction l as [|x l IH]; intros init; simpl; auto.
  destruct (IH (Np.minimum init x)) as [E|Hin]; [|auto].
  rewrite E. destruct (minimum_cases init x) as [->| ->]; auto.
Qed.

(** The minimum distance is the distance to one of the selected rows. *)
Lemma min_dist_to_attained (embs : matrix A) (selected : list nat)
    (j : nat) :
  selected <> [] ->
  exists s, In s selected /\ min_dist_to embs selected j = dist embs j s.
Proof.
  destruct selected as [|s0 rest]; [congruence|intros _]. simpl.
  destruct (fold_minimum_attained (map (dist embs j) rest) (dist embs j s0))
    as [E|Hin].
  - exists s0. auto.
  - apply in_map_iff in Hin. destruct Hin as (s & E & Hs).
    exists s. split; [now right|now rewrite E].
Qed.

(** The pick of a round is the farthest row, when the distances are
    ordered and none is NaN. *)
Lemma argmax_farthest (embs : matrix A) (selected : list nat) (idx : nat) :
  Np.ordered ar -> no_nan embs ->
  selected <> [] ->
  Forall (fun s => s < length embs) selected ->
  argmax (map (min_dist_to embs selected) (seq 0 (length embs))) = Some idx ->
  farthest embs selected idx.
Proof.
  intros Hord Hnan Hsel Hrange Harg.
  assert (Hall : Forall (fun x => Np.is_nan x = false)
                   (map (min_dist_to embs selected) (seq 0 (length embs)))).
  { apply Forall_forall. intros x Hx. apply in_map_iff in Hx.
    destruct Hx as (j & <- & Hj). apply in_seq in Hj.
    destruct (@min_dist_to_attained embs selected j Hsel) as (s & Hs & ->).
    apply Hnan; [lia|]. rewrite Forall_forall in Hrange. now apply Hrange. }
  destruct (argmax_spec Hord Hall Harg) as (Hidx & Hmax & Hfirst).
  rewrite length_map, length_seq in Hidx, Hmax.
  assert (Hnth : forall j, j < length embs ->
            nth j (map (min_dist_to embs selected) (seq 0 (length embs)))
                Np.zero
            = min_dist_to embs selected j).
  { intros j Hj.
    rewrite (nth_map_in _ 0 Np.zero) by (rewrite length_seq; lia).
    now rewrite seq_nth by lia. }
  split; [exact Hidx|]. split.
  - intros j Hj. rewrite <- !Hnth by assumption. now apply Hmax.
  - intros j Hj. rewrite <- !Hnth by lia. now apply Hfirst.
Qed.

Lemma farthest_unselected_of (embs : matrix A) (selected : list nat)
    (idx : nat) :
  farthest embs selected idx -> ~ In idx selected ->
  farthest_unselected embs selected idx.
Proof.
  intros (Hidx & Hmax & Hfirst) Hnew. unfold farthest_unselected. auto.
Qed.

(** The picks of the sampler are the farthest rows, round after
    round. *)
Lemma sampling_farthest (embs : matrix A) (k : Z) :
  Np.ordered ar -> no_nan embs ->
  (1 <= k < Z.of_nat (length embs))%Z ->
  exists picks,
    _farthest_point_sampling embs k = Ok (0 :: picks) /\
    length picks = Z.to_nat (k - 1) /\
    forall t, t < length picks ->
      farthest embs (0 :: firstn t picks) (nth t picks 0).
Proof.
  intros Hord Hnan [Hk Hlt].
  assert (Hene : embs <> []) by (intros ->; simpl in Hlt; lia).
  destruct (farthest_point_sampling_spec Hene Hlt)
    as (picks & Hrun & Hpl & Hrange & Harg).
  exists picks. split; [exact Hrun|]. split; [exact Hpl|].
  intros t Ht. apply argmax_farthest; try assumption.
  - discriminate.
  - constructor; [lia|]. apply Forall_forall. intros s Hs.
    rewrite Forall_forall in Hrange. apply Hrange.
    eapply In_firstn; exact Hs.
  - apply Harg. lia.
Qed.

(** *** [select] *)

(** [select] on a non-empty scene whose embeddings are computed, one row
    per frame. *)
Lemma select_result (Frame : Type)
    (_compute_embeddings : list Frame -> result (matrix A)) (self : t)
    (frames : list Frame) (embs : matrix A) :
  frames <> [] ->
  _compute_embeddings frames = Ok embs ->
  length embs = length frames ->
  exists sel,
    _farthest_point_sampling embs (effective_k self (length frames)) = Ok sel /\
    select _compute_embeddings self frames = Ok (NatSort.sort sel) /\
    Z.of_nat (length (NatSort.sort sel))
    = Z.max 1 (effective_k self (length frames)) /\
    Forall (fun i => i < length frames) (NatSort.sort sel) /\
    ((Z.of_nat (length frames) <= effective_k self (length frames))%Z ->
     NatSort.sort sel = seq 0 (length frames)).
Proof.
  intros Hne Hemb Hlen.
  assert (Hene : embs <> []).
  { intros ->. destruct frames; [congruence|discriminate]. }
  destruct (farthest_point_sampling_result
              (effective_k self (length frames)) Hene)
    as (sel & Hrun & Hl & Hrange & Hall).
  rewrite Hlen in Hl, Hrange, Hall.
  exists sel. split; [exact Hrun|]. split.
  { unfold select. cbv zeta.
    destruct (Nat.eqb_spec (length frames) 0) as [H0|_].
    - destruct frames; [congruence|discriminate].
    - rewrite Hemb. simpl rbind. rewrite Hrun. reflexivity. }
  pose proof (NatSort.Permuted_sort sel) as Hperm.
  split; [|split].
  - rewrite <- (Permutation_length Hperm), Hl.
    unfold effective_k. lia.
  - eapply Permutation_Forall; [exact Hperm|exact Hrange].
  - intros Hk. rewrite (Hall Hk). apply sort_seq.
Qed.

(** With a configured count [k >= 1]. *)
Lemma select_configured (Frame : Type)
    (_compute_embeddings : list Frame -> result (matrix A)) (k : Z)
    (frames : list Frame) (embs : matrix A) :
  (1 <= k)%Z ->
  _compute_embeddings frames = Ok embs ->
  length embs = length frames ->
  exists sel,
    select _compute_embeddings (mk (Some k)) frames = Ok sel /\
    Z.of_nat (length sel) = Z.min k (Z.of_nat (length frames)) /\
    Sorted le sel /\
    Forall (fun i => i < length frames) sel /\
    ((Z.of_nat (length frames) <= k)%Z -> sel = seq 0 (length frames)).
Proof.
  intros Hk Hemb Hlen.
  destruct frames as [|f frames].
  - exists []. simpl. repeat split; try constructor. lia.
  - assert (Hne : f :: frames <> []) by discriminate.
    remember (f :: frames) as fs eqn:Efs.
    destruct (select_result _ (mk (Some k)) Hne Hemb Hlen)
      as (sel & Hrun & Hsel & Hl & Hrange & Hall).
    rewrite effective_k_configured in Hrun, Hl, Hall by assumption.
    assert (Hn : 1 <= length fs) by (subst fs; simpl; lia).
    exists (NatSort.sort sel). split; [exact Hsel|].
    split; [lia|]. split; [apply sort_sorted|]. split; [exact Hrange|].
    intros Hge; apply Hall; lia.
Qed.

End AnyArithmetic.

(** *** Rationals: unit vectors at distance zero are equal *)

Lemma sqdist_expand (a : vec Q) :
  forall b, length a = length b ->
    (sqdist a b == dot a a + dot b b - 2 * dot a b)%Q.
Proof.
  induction a as [|x a IH]; intros [|y b] Hl; simpl in *; try discriminate.
  - ring.
  - rewrite IH by lia. ring.
Qed.

Lemma square_nonneg (z : Q) : (0 <= z * z)%Q.
Proof.
  destruct (Qlt_le_dec z 0) as [Hneg|Hpos].
  - setoid_replace (z * z)%Q with ((- z) * (- z))%Q by ring.
    apply Qmult_le_0_compat; lra.
  - now apply Qmult_le_0_compat.
Qed.

Lemma sqdist_nonneg (a : vec Q) : forall b, (0 <= sqdist a b)%Q.
Proof.
  induction a as [|x a IH]; intros [|y b]; simpl; try apply Qle_refl.
  specialize (IH b). pose proof (square_nonneg (x - y)). lra.
Qed.

Lemma sqdist_zero (a : vec Q) :
  forall b, length a = length b -> (sqdist a b <= 0)%Q -> same_row a b.
Proof.
  induction a as [|x a IH]; intros [|y b] Hl Hz; simpl in *; try discriminate.
  - constructor.
  - pose proof (sqdist_nonneg a b) as Hr.
    pose proof (square_nonneg (x - y)) as Hs.
    assert (Hsq : ((x - y) * (x - y) == 0)%Q) by lra.
    constructor.
    + apply Qmult_integral in Hsq. destruct Hsq; lra.
    + apply IH; [lia|lra].
Qed.

(** Cauchy-Schwarz on unit vectors, with its case of equality. *)
Lemma unit_distance (a b : vec Q) :
  length a = length b -> unit_vector a -> unit_vector b ->
  (0 <= 1 - dot a b)%Q /\ ((1 - dot a b <= 0)%Q -> same_row a b).
Proof.
  unfold unit_vector. intros Hl Ha Hb.
  pose proof (sqdist_expand a b Hl) as He.
  pose proof (sqdist_nonneg a b) as Hn.
  split; [lra|]. intros Hz. apply sqdist_zero; [exact Hl|lra].
Qed.

(** Without rounding the distance of two rows is one minus their dot
    product. *)
Lemma dist_exact (embs : matrix Q) (j s : nat) :
  j < length embs ->
  dist embs j s = (1 - dot (nth j embs []) (nth s embs []))%Q.
Proof.
  intros Hj. unfold dist, cos_dists. simpl.
  rewrite (nth_map_in _ 0%Q 0%Q) by (now rewrite length_map).
  now rewrite (nth_map_in _ [] 0%Q).
Qed.

Lemma no_nan_exact (embs : matrix Q) : no_nan embs.
Proof. intros j s _ _. reflexivity. Qed.

Lemma minimum_exact (x y : Q) : Np.minimum x y = Qmin x y.
Proof.
  unfold Np.minimum, Qmin, GenericMinMax.gmin. simpl.
  rewrite orb_false_r. unfold Qle_bool, Qcompare.
  destruct (Z.compare_spec (Qnum x * QDen y) (Qnum y * QDen x)) as [E|E|E];
    destruct (Z.leb_spec (Qnum x * QDen y) (Qnum y * QDen x));
    try reflexivity; lia.
Qed.

Lemma fold_min_le (l : list Q) :
  forall init,
    (fold_left Np.minimum l init <= init)%Q /\
    forall x, In x l -> (fold_left Np.minimum l init <= x)%Q.
Proof.
  induction l as [|x l IH]; intros init; simpl.
  - split; [apply Qle_refl|intros ? []].
  - destruct (IH (Np.minimum init x)) as [H1 H2]. split.
    + eapply Qle_trans; [exact H1|].
      rewrite minimum_exact. apply Q.le_min_l.
    + intros y [<-|Hy]; [|now apply H2].
      eapply Qle_trans; [exact H1|].
      rewrite minimum_exact. apply Q.le_min_r.
Qed.

Lemma min_dist_to_le (embs : matrix Q) (selected : list nat) (j s : nat) :
  In s selected -> (min_dist_to embs selected j <= dist embs j s)%Q.
Proof.
  destruct selected as [|s0 rest]; [intros []|]. simpl.
  destruct (fold_min_le (map (dist embs j) rest) (dist embs j s0))
    as [H1 H2].
  intros [<-|Hs]; [exact H1|]. apply H2. now apply in_map.
Qed.

Lemma distinct_unit_rows_nth (d : nat) (embs : matrix Q) (i : nat) :
  distinct_unit_rows d embs -> i < length embs ->
  length (nth i embs []) = d /\ unit_vector (nth i embs []).
Proof.
  intros [Hrows _] Hi. rewrite Forall_forall in Hrows.
  apply Hrows. now apply nth_In.
Qed.

(** Among pairwise distinct unit vectors a pick of the sampler is never
    a row selected before, as long as some row is left. *)
Lemma farthest_not_selected (d : nat) (embs : matrix Q)
    (selected : list nat) (idx : nat) :
  distinct_unit_rows d embs ->
  selected <> [] ->
  Forall (fun s => s < length embs) selected ->
  length selected < length embs ->
  farthest embs selected idx ->
  ~ In idx selected.
Proof.
  intros Hd Hne Hrange Hlen (Hidx & Hmax & _) Hin.
  destruct (distinct_unit_rows_nth Hd Hidx) as [Hli Hui].
  assert (Hzero : (min_dist_to embs selected idx <= 0)%Q).
  { eapply Qle_trans; [apply (@min_dist_to_le embs selected idx idx Hin)|].
    rewrite dist_exact by assumption. unfold unit_vector in Hui. lra. }
  assert (Hincl : incl (seq 0 (length embs)) selected).
  { intros j Hj. apply in_seq in Hj. destruct Hj as [_ Hj]. simpl in Hj.
    destruct (@min_dist_to_attained _ _ embs selected j Hne) as (s & Hs & E).
    assert (Hsn : s < length embs)
      by (rewrite Forall_forall in Hrange; now apply Hrange).
    destruct (distinct_unit_rows_nth Hd Hj) as [Hlj Huj].
    destruct (distinct_unit_rows_nth Hd Hsn) as [Hls Hus].
    destruct (@unit_distance (nth j embs []) (nth s embs [])) as [_ Hsame];
      try assumption; [congruence|].
    assert (Hjs : j = s).
    { apply (proj2 Hd); try assumption. apply Hsame.
      rewrite <- dist_exact by assumption. rewrite <- E.
      eapply Qle_trans; [|exact Hzero].
      apply Qle_bool_iff. apply (Hmax j Hj). }
    now subst. }
  pose proof (NoDup_incl_length (seq_NoDup _ _) Hincl) as Hle.
  rewrite length_seq in Hle. lia.
Qed.

(** Hence the sampler never repeats an index on such a matrix. *)
Lemma sampling_prefix_NoDup (d : nat) (embs : matrix Q) (picks : list nat) :
  distinct_unit_rows d embs ->
  S (length picks) < length embs ->
  (forall t, t < length picks ->
     farthest embs (0 :: firstn t picks) (nth t picks 0)) ->
  forall t, t <= length picks ->
    NoDup (0 :: firstn t picks) /\
    (t < length picks -> ~ In (nth t picks 0) (0 :: firstn t picks)).
Proof.
  intros Hd Hlen Hfar.
  assert (Hrange : Forall (fun s => s < length embs) picks).
  { apply Forall_forall. intros i Hi.
    destruct (In_nth _ _ 0 Hi) as (t & Ht & <-). now destruct (Hfar t Ht). }
  assert (Hnew : forall t, t < length picks ->
            ~ In (nth t picks 0) (0 :: firstn t picks)).
  { intros t Ht. eapply farthest_not_selected; eauto.
    - discriminate.
    - constructor; [lia|]. apply Forall_forall. intros s Hs.
      rewrite Forall_forall in Hrange. apply Hrange.
      eapply In_firstn; exact Hs.
    - simpl. rewrite length_firstn. lia. }
  intros u. induction u as [|u IH]; intros Hu.
  - split; [|apply Hnew]. simpl. constructor; [intros []|constructor].
  - split; [|apply Hnew].
    destruct IH as [Hnd _]; [lia|].
    rewrite (firstn_snoc 0) by lia.
    change (NoDup ((0 :: firstn u picks) ++ [nth u picks 0])).
    apply NoDup_snoc; [exact Hnd|]. apply Hnew. lia.
Qed.

(** The picks on pairwise distinct unit vectors, without rounding. *)
Lemma sampling_distinct (d : nat) (embs : matrix Q) (k : Z) :
  distinct_unit_rows d embs ->
  (1 <= k < Z.of_nat (length embs))%Z ->
  exists picks,
    _farthest_point_sampling embs k = Ok (0 :: picks) /\
    length picks = Z.to_nat (k - 1) /\
    forall t, t <= length picks ->
      NoDup (0 :: firstn t picks) /\
      (t < length picks ->
       farthest_unselected embs (0 :: firstn t picks) (nth t picks 0)).
Proof.
  intros Hd Hk.
  destruct (sampling_farthest ArithFacts.exact_ordered (no_nan_exact embs) Hk)
    as (picks & Hrun & Hpl & Hfar).
  exists picks. split; [exact Hrun|]. split; [exact Hpl|].
  intros t Ht.
  destruct (@sampling_prefix_NoDup d embs picks Hd ltac:(lia) Hfar t Ht)
    as [Hnd Hnew].
  split; [exact Hnd|]. intros Hlt.
  apply farthest_unselected_of; [now apply Hfar|now apply Hnew].
Qed.

(** C3 (amended).  With a configured count [k >= 1], [select] on [n]
    frames, given an [n]-row embedding matrix, returns exactly
    [min(k, n)] indices, in ascending order (repetitions allowed), each
    within [[0, n)]; when [k >= n] they are [0 .. n-1] in order, and on
    no frame at all the selection is empty: this holds in every
    arithmetic.  Without rounding, the indices are pairwise distinct
    when the rows are pairwise distinct unit vectors. *)
Theorem select_indices (Frame : Type) (k : Z) :
  (forall (A : Type) (ar : Np.arith A)
     (_compute_embeddings : list Frame -> result (matrix A)),
     select _compute_embeddings (mk (Some k)) [] = Ok [] /\
     forall frames embs,
       (1 <= k)%Z ->
       _compute_embeddings frames = Ok embs ->
       length embs = length frames ->
       exists sel,
         select _compute_embeddings (mk (Some k)) frames = Ok sel /\
         Z.of_nat (length sel) = Z.min k (Z.of_nat (length frames)) /\
         Sorted le sel /\
         Forall (fun i => i < length frames) sel /\
         ((Z.of_nat (length frames) <= k)%Z ->
          sel = seq 0 (length frames))) /\
  (forall (_compute_embeddings : list Frame -> result (matrix Q)),
     select _compute_embeddings (mk (Some k)) [] = Ok [] /\
     forall frames embs,
       (1 <= k)%Z ->
       _compute_embeddings frames = Ok embs ->
       length embs = length frames ->
       exists sel,
         select _compute_embeddings (mk (Some k)) frames = Ok sel /\
         Z.of_nat (length sel) = Z.min k (Z.of_nat (length frames)) /\
         Sorted le sel /\
         Forall (fun i => i < length frames) sel /\
         ((Z.of_nat (length frames) <= k)%Z ->
          sel = seq 0 (length frames)) /\
         (forall d, distinct_unit_rows d embs -> NoDup sel)).
Proof.
  split.
  - intros A ar _compute_embeddings. split; [reflexivity|].
    intros frames embs. apply select_configured.
  - intros _compute_embeddings. split; [reflexivity|].
    intros frames embs Hk Hemb Hlen.
    destruct (@select_configured _ _ _ _compute_embeddings k frames embs
                Hk Hemb Hlen)
      as (sel & Hsel & Hl & Hsorted & Hrange & Hall).
    exists sel. repeat (split; [assumption|]).
    intros d Hd.
    destruct frames as [|f frames].
    { simpl in Hsel. injection Hsel as <-. constructor. }
    assert (Hne : f :: frames <> []) by discriminate.
    remember (f :: frames) as fs eqn:Efs.
    destruct (select_result _ (mk (Some k)) Hne Hemb Hlen)
      as (picked & Hrun & Hsel' & _).
    rewrite Hsel in Hsel'. injection Hsel' as ->.
    rewrite effective_k_configured in Hrun by assumption.
    eapply Permutation_NoDup; [apply NatSort.Permuted_sort|].
    destruct (Z_lt_le_dec k (Z.of_nat (length embs))) as [Hlt|Hge].
    + rewrite Z.min_l in Hrun by lia.
      destruct (@sampling_distinct d embs k Hd ltac:(lia))
        as (picks & Hrun' & Hpl & Hnd).
      rewrite Hrun in Hrun'. injection Hrun' as ->.
      destruct (Hnd (length picks) (le_n _)) as [H _].
      now rewrite firstn_all in H.
    + rewrite Z.min_r in Hrun by lia.
      rewrite (@farthest_point_sampling_all _ _ embs (Z.of_nat (length fs)))
        in Hrun by lia.
      injection Hrun as <-. apply seq_NoDup.
Qed.

Lemma select_indices_witness :
  exists sel,
    select Demo._compute_embeddings (mk (Some 2%Z))
      [Demo.red; Demo.green; Demo.red] = Ok sel /\
    Z.of_nat (length sel) = 2%Z /\ Sorted le sel.
Proof.
  destruct (proj2 (proj2 (select_indices Demo.Frame 2)
                     Demo._compute_embeddings)
              [Demo.red; Demo.green; Demo.red]
              (map Demo.embedding [Demo.red; Demo.green; Demo.red]))
    as (sel & Hrun & Hlen & Hsorted & _).
  - lia.
  - reflexivity.
  - reflexivity.
  - exists sel. auto.
Defined.

(** C3, as stated, fails: three frames with the same unit embedding and
    [k = 2] select index 0 twice. *)
Lemma select_repeats_index :
  Forall unit_vector
    (map Demo.embedding [Demo.red; Demo.red; Demo.red]) /\
  select Demo._compute_embeddings (mk (Some 2%Z))
    [Demo.red; Demo.red; Demo.red] = Ok [0; 0] /\
  ~ NoDup [0; 0].
Proof.
  split; [|split].
  - repeat (constructor; [reflexivity|]). constructor.
  - vm_compute. reflexivity.
  - intros H. inversion H as [|? ? Hnotin _]; subst.
    apply Hnotin. now left.
Qed.

(** C6 (amended).  On [n > k >= 1] rows the sampler returns [k] picks:
    index 0 first, then, round after round, the lowest index, among all
    [n] rows, whose minimum cosine distance to the rows picked so far is
    largest; that minimum is the pointwise [np.minimum] over the picks,
    and the distances are those the code computes,
    [1.0 - np.dot(embs, embs[s])].  This holds in every arithmetic whose
    [<=] orders the numbers that are not NaN (the rationals, binary64,
    binary32), when no distance is NaN.  Without rounding, when the rows are
    pairwise distinct unit vectors, every pick is a not-yet-selected
    index. *)
Theorem farthest_point_sampling_picks :
  (forall (A : Type) (ar : Np.arith A) (embs : matrix A) (k : Z),
     Np.ordered ar -> no_nan embs ->
     (1 <= k < Z.of_nat (length embs))%Z ->
     exists sel,
       _farthest_point_sampling embs k = Ok sel /\
       Z.of_nat (length sel) = k /\
       hd_error sel = Some 0 /\
       forall r, 1 <= r < length sel ->
         farthest embs (firstn r sel) (nth r sel 0)) /\
  (forall (embs : matrix Q) (k : Z) (d : nat),
     distinct_unit_rows d embs ->
     (1 <= k < Z.of_nat (length embs))%Z ->
     exists sel,
       _farthest_point_sampling embs k = Ok sel /\
       Z.of_nat (length sel) = k /\
       hd_error sel = Some 0 /\
       forall r, 1 <= r < length sel ->
         farthest_unselected embs (firstn r sel) (nth r sel 0)).
Proof.
  split.
  - intros A ar embs k Hord Hnan Hk.
    destruct (sampling_farthest Hord Hnan Hk) as (picks & Hrun & Hpl & Hfar).
    exists (0 :: picks). split; [exact Hrun|].
    split; [simpl length; lia|]. split; [reflexivity|].
    intros [|r] Hr; [lia|]. simpl in *. apply Hfar. lia.
  - intros embs k d Hd Hk.
    destruct (sampling_distinct Hd Hk) as (picks & Hrun & Hpl & Hnew).
    exists (0 :: picks). split; [exact Hrun|].
    split; [simpl length; lia|]. split; [reflexivity|].
    intros [|r] Hr; [lia|]. simpl in *.
    apply (Hnew r); lia.
Qed.

(** Three rows along one axis in binary64, the last two one rounding
    step apart: the distances to row 0 of rows 1 and 2 round to the same
    number, and the pick is row 1. *)
Lemma farthest_point_sampling_picks_witness :
  exists sel,
    _farthest_point_sampling Demo.close_rows64 2 = Ok sel /\
    hd_error sel = Some 0 /\
    farthest Demo.close_rows64 (firstn 1 sel) (nth 1 sel 0).
Proof.
  destruct (proj1 farthest_point_sampling_picks float binary64
              Demo.close_rows64 2%Z ArithFacts.binary64_ordered)
    as (sel & Hrun & Hlen & Hhd & Hfar).
  - intros j s Hj Hs. simpl in Hj, Hs.
    destruct j as [|[|[|j]]]; try lia;
      destruct s as [|[|[|s]]]; try lia; vm_compute; reflexivity.
  - simpl. lia.
  - exists sel. split; [exact Hrun|]. split; [exact Hhd|].
    apply Hfar. lia.
Defined.

(** C6, as stated, fails: on three equal unit rows the second pick is
    index 0 again, an index that is already selected. *)
Lemma sampling_picks_selected_row :
  _farthest_point_sampling
    (map Demo.embedding [Demo.red; Demo.red; Demo.red]) 2 = Ok [0; 0] /\
  ~ farthest_unselected
      (map Demo.embedding [Demo.red; Demo.red; Demo.red])
      (firstn 1 [0; 0]) (nth 1 [0; 0] 0).
Proof.
  split.
  - vm_compute. reflexivity.
  - intros (_ & Hnew & _). apply Hnew. simpl. now left.
Qed.




(** Four unit vectors in opposite directions, [k = 2]: index 0 and the
    row with the smallest dot product to row 0. *)
Example sample_opposite_directions :
  _farthest_point_sampling [[1; 0]; [0; 1]; [-1; 0]; [0; -1]]%Q 2
  = Ok [0; 2].
Proof. vm_compute. reflexivity. Qed.

(** Rounding is observable in the picks: on the same three rows the
    sampler picks row 1 in binary64 and row 2 without rounding; so it
    does in binary32 on rows one rounding step of binary32 apart. *)
Example rounding_decides_pick :
  _farthest_point_sampling Demo.close_rows64 2 = Ok [0; 1] /\
  _farthest_point_sampling Demo.close_rows 2 = Ok [0; 2] /\
  _farthest_point_sampling Demo.close_rows32 2 = Ok [0; 1].
Proof. repeat split; vm_compute; reflexivity. Qed.

End KeyframeSelectorFacts.

(** ** The pipeline *)

Module PipelineFacts.
Import Pipeline ListFacts Arith.

Section Facts.
Context {num : Type} {ar : Np.arith num}.
Context {emb : Type} {ar_emb : Np.arith emb}.
Variable Frame : Type.
Variable Sink : Type.
Variable VideoCapture : string -> option (list Frame).
Variable _histogram : Frame -> result (SceneDetector.hist num).
Variable _compute_embeddings :
  list Frame -> result (KeyframeSelector.matrix emb).
Variable caption_batch : list Frame -> result (list string).
Variable summarize : list string -> result string.

Local Abbreviation world := (Pipeline.world Frame Sink).
Local Abbreviation M := (Pipeline.M Frame Sink).
Local Abbreviation callback := (Pipeline.callback Sink).
Local Abbreviation agree := (@Pipeline.agree Frame Sink _).
Local Abbreviation returns := (@Pipeline.returns Frame Sink _).
Local Abbreviation one_row_per_frame :=
  (Pipeline.one_row_per_frame _compute_embeddings).

Lemma agree_ret A (a : A) : agree (ret a) (ret a).
Proof. intros w1 w2 H. simpl. auto. Qed.

Lemma agree_lift A (r : result A) : agree (lift r) (lift r).
Proof. intros w1 w2 H. simpl. auto. Qed.

Lemma agree_log (a : action Frame) : agree (log a) (log a).
Proof. intros w1 w2 H. simpl. now rewrite H. Qed.

Lemma agree_bind A B (c1 c2 : M A) (k1 k2 : A -> M B) :
  agree c1 c2 -> (forall a, agree (k1 a) (k2 a)) ->
  agree (bind c1 k1) (bind c2 k2).
Proof.
  intros Hc Hk w1 w2 H. unfold bind.
  destruct (Hc w1 w2 H) as [Hr Ht].
  destruct (c1 w1) as [[a1|e1] w1'], (c2 w2) as [[a2|e2] w2'];
    simpl in Hr, Ht; try discriminate.
  - injection Hr as ->. now apply Hk.
  - injection Hr as ->. simpl. auto.
Qed.

Lemma agree_try_except A B (c1 c2 : M A) (h1 h2 : exn -> M B)
    (k1 k2 : A -> M B) :
  agree c1 c2 ->
  (forall e, agree (h1 e) (h2 e)) ->
  (forall a, agree (k1 a) (k2 a)) ->
  agree (try_except c1 h1 k1) (try_except c2 h2 k2).
Proof.
  intros Hc Hh Hk w1 w2 H. unfold try_except.
  destruct (Hc w1 w2 H) as [Hr Ht].
  destruct (c1 w1) as [[a1|e1] w1'], (c2 w2) as [[a2|e2] w2'];
    simpl in Hr, Ht; try discriminate.
  - injection Hr as ->. now apply Hk.
  - injection Hr as ->. now apply Hh.
Qed.

(** [_cb] returns normally whatever the callback does, and adds exactly
    one event to the trace. *)
Lemma cb_spec (progress_callback : option callback) (stage : string)
    (percent : float) (message : string) (w : world) :
  fst (_cb progress_callback stage percent message w) = Ok tt /\
  trace (snd (_cb progress_callback stage percent message w))
  = trace w ++ [Progress Frame stage percent message].
Proof.
  unfold _cb, bind, log, try_except, call_sink, ret.
  destruct progress_callback as [f|]; simpl; [|auto].
  destruct (f (sink w) stage percent message) as [[[]|e] s]; simpl; auto.
Qed.

(** An exception of the callback never leaves [_cb]. *)
Theorem cb_swallows_errors (f : callback) (stage : string) (percent : float)
    (message : string) (w : world) :
  fst (_cb (Some f) stage percent message w) = Ok tt.
Proof.
  unfold _cb, bind, log, try_except, call_sink, ret. simpl.
  destruct (f (sink w) stage percent message) as [[[]|e] s]; reflexivity.
Qed.

(** The outcome and the trace of [_cb] do not depend on the callback. *)
Lemma agree_cb (cb1 cb2 : option callback) (stage : string)
    (percent : float) (message : string) :
  agree (_cb cb1 stage percent message) (_cb cb2 stage percent message).
Proof.
  intros w1 w2 H.
  destruct (cb_spec cb1 stage percent message w1) as [-> ->].
  destruct (cb_spec cb2 stage percent message w2) as [-> ->].
  now rewrite H.
Qed.

Lemma agree_for_each A B (body1 body2 : B -> A -> M B) (l : list A) :
  (forall acc x, agree (body1 acc x) (body2 acc x)) ->
  forall acc, agree (for_each body1 l acc) (for_each body2 l acc).
Proof.
  intros Hb. induction l as [|x l IH]; intros acc; simpl.
  - apply agree_ret.
  - apply agree_bind; [apply Hb|exact IH].
Qed.

Lemma agree_call_caption (images : list Frame) :
  agree (call_caption (Sink := Sink) caption_batch images)
        (call_caption caption_batch images).
Proof.
  unfold call_caption. apply agree_bind; [apply agree_log|].
  intros _. apply agree_lift.
Qed.

Lemma agree_call_summarize (texts : list string) :
  agree (call_summarize (Frame := Frame) (Sink := Sink) summarize texts)
        (call_summarize summarize texts).
Proof.
  unfold call_summarize. apply agree_bind; [apply agree_log|].
  intros _. apply agree_lift.
Qed.

Lemma agree_scene (cb1 cb2 : option callback)
    (selector : KeyframeSelector.t) (frames : list Frame)
    (boundaries : list nat) (total_scenes : nat)
    (scene_summaries : list string) (entry : nat * nat) :
  agree (scene _compute_embeddings caption_batch summarize cb1 selector
           frames boundaries total_scenes scene_summaries entry)
        (scene _compute_embeddings caption_batch summarize cb2 selector
           frames boundaries total_scenes scene_summaries entry).
Proof.
  destruct entry as [i start_idx]. unfold scene.
  apply agree_bind; [apply agree_cb|intros _].
  destruct (slice frames start_idx _) as [|f rest].
  - apply agree_bind; [apply agree_cb|intros _; apply agree_ret].
  - apply agree_bind; [apply agree_lift|intros keyframes].
    apply agree_bind; [apply agree_call_caption|intros captions].
    apply agree_bind; [apply agree_call_summarize|intros scene_summary].
    apply agree_bind; [apply agree_cb|intros _; apply agree_ret].
Qed.

Lemma agree_scenes (cb1 cb2 : option callback) (frames : list Frame)
    (boundaries : list nat) :
  agree (scenes _compute_embeddings caption_batch summarize cb1
           frames boundaries)
        (scenes _compute_embeddings caption_batch summarize cb2
           frames boundaries).
Proof.
  unfold scenes. apply agree_for_each. intros acc x. apply agree_scene.
Qed.

Lemma agree_aggregation (cb1 cb2 : option callback)
    (scene_summaries : list string) :
  agree (aggregation (Frame := Frame) summarize cb1 scene_summaries)
        (aggregation summarize cb2 scene_summaries).
Proof.
  unfold aggregation. apply agree_bind; [apply agree_cb|intros _].
  destruct scene_summaries as [|s rest].
  - apply agree_bind; [apply agree_cb|intros _; apply agree_ret].
  - apply agree_bind; [apply agree_call_summarize|intros final].
    apply agree_bind; [apply agree_cb|intros _].
    apply agree_bind; [apply agree_cb|intros _; apply agree_ret].
Qed.

Lemma agree_run (cb1 cb2 : option callback) (video_path : string) :
  agree (run VideoCapture _histogram _compute_embeddings caption_batch
           summarize video_path cb1)
        (run VideoCapture _histogram _compute_embeddings caption_batch
           summarize video_path cb2).
Proof.
  unfold run. apply agree_bind; [apply agree_cb|intros _].
  apply agree_try_except; [apply agree_lift| |].
  - intros e. apply agree_bind; [apply agree_cb|intros _; apply agree_ret].
  - intros frames_iterator.
    apply agree_bind; [apply agree_cb|intros _].
    apply agree_bind; [apply agree_cb|intros _].
    apply agree_bind; [apply agree_lift|intros frames].
    apply agree_try_except; [apply agree_lift| |].
    + intros e.
      apply agree_bind; [apply agree_cb|intros _; apply agree_ret].
    + intros boundaries.
      apply agree_bind; [apply agree_cb|intros _].
      apply agree_bind; [apply agree_scenes|intros scene_summaries].
      apply agree_aggregation.
Qed.

(** C9.  Whatever the progress callback does, also when it raises on
    every call, [run] ends as it does without a callback: with the same
    returned string (or the same exception), after the same calls of the
    collaborators and the same progress events. *)
Theorem run_ignores_callback (progress_callback : callback)
    (video_path : string) (w : world) :
  fst (run VideoCapture _histogram _compute_embeddings caption_batch
         summarize video_path (Some progress_callback) w)
  = fst (run VideoCapture _histogram _compute_embeddings caption_batch
           summarize video_path None w)
  /\
  trace (snd (run VideoCapture _histogram _compute_embeddings caption_batch
                summarize video_path (Some progress_callback) w))
  = trace (snd (run VideoCapture _histogram _compute_embeddings
                  caption_batch summarize video_path None w)).
Proof.
  pose proof (agree_run (Some progress_callback) None video_path) as H.
  apply H. reflexivity.
Qed.

Local Abbreviation run' :=
  (run VideoCapture _histogram _compute_embeddings caption_batch summarize).

(** [step = 1] keeps every decoded frame. *)
Lemma sample_every_frame (decoded : list Frame) :
  forall idx, VideoParser.sample 1 idx decoded = decoded.
Proof.
  induction decoded as [|f decoded IH]; intros idx; simpl; [reflexivity|].
  rewrite Z.mod_1_r. simpl. now rewrite IH.
Qed.

(** Calling the generator function [frames] never raises. *)
Lemma frames_call_returns (parser : VideoParser.t) :
  exists g, VideoParser.frames VideoCapture parser = Ok g.
Proof. unfold VideoParser.frames. eauto. Qed.

(** C1 (what the code does).  When the video cannot be opened, [run]
    reports the parsing stage as done, starts the scene-detection stage,
    and then the [IOError] of the frame generator, raised inside
    [list(frames_iterator)], leaves [run]: no error string is returned
    and no failure event is emitted. *)
Theorem run_unopenable_video_raises (progress_callback : option callback)
    (video_path : string) (w : world) :
  VideoCapture video_path = None ->
  fst (run' video_path progress_callback w)
  = Raise (IOError ("Failed to open video source: " ++ video_path)) /\
  trace (snd (run' video_path progress_callback w))
  = trace w ++ [Progress Frame "parsing" 0%float "opening video";
                Progress Frame "parsing" 1%float "done";
                Progress Frame "scene_detection" 0%float "collecting frames"].
Proof.
  intros Hopen.
  destruct (agree_run progress_callback None video_path w w eq_refl)
    as [-> ->].
  unfold run, bind, try_except, lift, _cb, log, ret, VideoParser.frames,
    list_, VideoParser.frames_body. simpl.
  rewrite Hopen. simpl. rewrite <- !app_assoc. auto.
Qed.

(** C8.  The aggregation stage on no scene summary emits its two events
    and returns the empty string without calling the summarizer; a video
    without frames takes this path: [run] returns the empty string after
    the six early progress events, and calls neither the captioner nor
    the summarizer. *)
Theorem run_without_scene_summaries (progress_callback : option callback)
    (video_path : string) (w : world) :
  VideoCapture video_path = Some [] ->
  (fst (aggregation summarize progress_callback [] w) = Ok "" /\
   trace (snd (aggregation summarize progress_callback [] w))
   = trace w ++ [Progress Frame "aggregation" 0%float
                   "aggregating scene summaries";
                 Progress Frame "aggregation" 1%float "no scenes"]) /\
  fst (run' video_path progress_callback w) = Ok "" /\
  trace (snd (run' video_path progress_callback w))
  = trace w ++ [Progress Frame "parsing" 0%float "opening video";
                Progress Frame "parsing" 1%float "done";
                Progress Frame "scene_detection" 0%float "collecting frames";
                Progress Frame "scene_detection" 1%float "found 0 scene(s)";
                Progress Frame "aggregation" 0%float
                  "aggregating scene summaries";
                Progress Frame "aggregation" 1%float "no scenes"].
Proof.
  intros Hopen. split.
  - destruct (agree_aggregation progress_callback None [] w w eq_refl)
      as [-> ->].
    unfold aggregation, bind, _cb, log, ret. simpl.
    rewrite <- !app_assoc. auto.
  - destruct (agree_run progress_callback None video_path w w eq_refl)
      as [-> ->].
    unfold run, bind, try_except, lift, _cb, log, ret, VideoParser.frames,
      list_, VideoParser.frames_body. simpl.
    rewrite Hopen. simpl. rewrite <- !app_assoc. auto.
Qed.

(** *** Runs that return *)

Lemma returns_ret A (a : A) : returns (ret a).
Proof. intros w. exists a. reflexivity. Qed.

Lemma returns_bind A B (c : M A) (k : A -> M B) :
  returns c -> (forall a, returns (k a)) -> returns (bind c k).
Proof.
  intros Hc Hk w. unfold bind. destruct (Hc w) as [a Ha].
  destruct (c w) as [[a'|e] w']; simpl in Ha; [|discriminate].
  apply Hk.
Qed.

Lemma returns_cb (progress_callback : option callback) (stage : string)
    (percent : float) (message : string) :
  returns (_cb progress_callback stage percent message).
Proof.
  intros w. exists tt. apply cb_spec.
Qed.

Lemma returns_for_each A B (body : B -> A -> M B) (l : list A) :
  (forall acc x, returns (body acc x)) ->
  forall acc, returns (for_each body l acc).
Proof.
  intros Hb. induction l as [|x l IH]; intros acc; simpl.
  - apply returns_ret.
  - apply returns_bind; [apply Hb|exact IH].
Qed.

Lemma mapM_getitem (scene_frames : list Frame) (key_idxs : list nat) :
  Forall (fun k => k < length scene_frames) key_idxs ->
  exists keyframes, mapM (getitem scene_frames) key_idxs = Ok keyframes.
Proof.
  induction 1 as [|k key_idxs Hk _ [keyframes IH]]; simpl; [eauto|].
  unfold getitem at 1.
  destruct (nth_error scene_frames k) as [f|] eqn:E.
  - simpl. rewrite IH. simpl. eauto.
  - apply nth_error_None in E. lia.
Qed.

(** The indices [select] returns index the scene. *)
Lemma select_in_range (selector : KeyframeSelector.t)
    (scene_frames : list Frame) (sel : list nat) :
  one_row_per_frame ->
  KeyframeSelector.select _compute_embeddings selector scene_frames = Ok sel ->
  Forall (fun k => k < length scene_frames) sel.
Proof.
  intros Hrows Hsel. destruct scene_frames as [|f rest].
  - unfold KeyframeSelector.select in Hsel. simpl in Hsel.
    injection Hsel as <-. constructor.
  - assert (Hne : f :: rest <> []) by discriminate.
    destruct (_compute_embeddings (f :: rest)) as [embs|e] eqn:Hemb.
    + destruct (KeyframeSelectorFacts.select_result _ selector Hne Hemb
                  (Hrows _ _ Hemb)) as (sel0 & _ & Hrun & _ & Hrange & _).
      rewrite Hrun in Hsel. now injection Hsel as <-.
    + unfold KeyframeSelector.select in Hsel.
      change (length (f :: rest) =? 0) with false in Hsel.
      cbv iota zeta in Hsel. rewrite Hemb in Hsel. discriminate.
Qed.

Section Total.
Hypothesis Hrows : one_row_per_frame.
Hypothesis Hcaption :
  forall images, exists captions, caption_batch images = Ok captions.
Hypothesis Hsummarize :
  forall texts, exists summary, summarize texts = Ok summary.

Lemma returns_call_caption (images : list Frame) :
  returns (call_caption (Sink := Sink) caption_batch images).
Proof.
  intros w. destruct (Hcaption images) as [captions E].
  exists captions. unfold call_caption, bind, log, lift. simpl. exact E.
Qed.

Lemma returns_call_summarize (texts : list string) :
  returns (call_summarize (Frame := Frame) (Sink := Sink) summarize texts).
Proof.
  intros w. destruct (Hsummarize texts) as [summary E].
  exists summary. unfold call_summarize, bind, log, lift. simpl. exact E.
Qed.

Lemma returns_scene (progress_callback : option callback)
    (selector : KeyframeSelector.t) (frames : list Frame)
    (boundaries : list nat) (total_scenes : nat)
    (scene_summaries : list string) (entry : nat * nat) :
  returns (scene _compute_embeddings caption_batch summarize
             progress_callback selector frames boundaries total_scenes
             scene_summaries entry).
Proof.
  destruct entry as [i start_idx]. unfold scene.
  apply returns_bind; [apply returns_cb|intros _].
  destruct (slice frames start_idx _) as [|f rest] eqn:Eslice.
  - apply returns_bind; [apply returns_cb|intros _; apply returns_ret].
  - assert (Hkeys : exists keyframes,
              mapM (getitem (f :: rest))
                (match KeyframeSelector.select _compute_embeddings selector
                         (f :: rest) with
                 | Ok sel => sel
                 | Raise _ => [0]
                 end) = Ok keyframes).
    { apply mapM_getitem.
      destruct (KeyframeSelector.select _ _ _) as [sel|e] eqn:Hsel.
      - eapply select_in_range; eauto.
      - constructor; [simpl; lia|constructor]. }
    destruct Hkeys as [keyframes Hkeys]. rewrite Hkeys.
    apply returns_bind; [intros w; exists keyframes; reflexivity|].
    intros keyframes'.
    apply returns_bind; [apply returns_call_caption|intros captions].
    apply returns_bind; [apply returns_call_summarize|intros scene_summary].
    apply returns_bind; [apply returns_cb|intros _; apply returns_ret].
Qed.

Lemma returns_aggregation (progress_callback : option callback)
    (scene_summaries : list string) :
  returns (aggregation (Frame := Frame) summarize progress_callback
             scene_summaries).
Proof.
  unfold aggregation. apply returns_bind; [apply returns_cb|intros _].
  destruct scene_summaries as [|s rest].
  - apply returns_bind; [apply returns_cb|intros _; apply returns_ret].
  - apply returns_bind; [apply returns_call_summarize|intros final].
    apply returns_bind; [apply returns_cb|intros _].
    apply returns_bind; [apply returns_cb|intros _; apply returns_ret].
Qed.

Lemma returns_run (progress_callback : option callback)
    (video_path : string) (decoded : list Frame) :
  VideoCapture video_path = Some decoded ->
  returns (run' video_path progress_callback).
Proof.
  intros Hopen. unfold run.
  apply returns_bind; [apply returns_cb|intros _].
  unfold VideoParser.frames, VideoParser.frames_body. simpl.
  rewrite Hopen. intros w. unfold try_except at 1. simpl. revert w.
  apply returns_bind; [apply returns_cb|intros _].
  apply returns_bind; [apply returns_cb|intros _].
  apply returns_bind; [intros w; eexists; reflexivity|intros frames].
  intros w. unfold try_except, lift.
  destruct (SceneDetector.detect_scenes _ _ _) as [boundaries|e]; revert w.
  - apply returns_bind; [apply returns_cb|intros _].
    apply returns_bind; [|intros; apply returns_aggregation].
    unfold scenes. apply returns_for_each. intros acc x.
    apply returns_scene.
  - apply returns_bind; [apply returns_cb|intros _; apply returns_ret].
Qed.

End Total.

(** A scene whose keyframe selection raises is summarised from its
    first frame. *)
Lemma scene_selection_fallback (progress_callback : option callback)
    (selector : KeyframeSelector.t) (frames : list Frame)
    (boundaries : list nat) (total_scenes : nat)
    (scene_summaries : list string) (i start_idx : nat)
    (f : Frame) (rest : list Frame) (e : exn)
    (captions : list string) (summary : string) (w : world) :
  slice frames start_idx (scene_end frames boundaries i) = f :: rest ->
  KeyframeSelector.select _compute_embeddings selector (f :: rest) = Raise e ->
  caption_batch [f] = Ok captions ->
  summarize captions = Ok summary ->
  fst (scene _compute_embeddings caption_batch summarize progress_callback
         selector frames boundaries total_scenes scene_summaries
         (i, start_idx) w)
  = Ok (scene_summaries ++ [summary]).
Proof.
  intros Hslice Hsel Hcap Hsum.
  destruct (agree_scene progress_callback None selector frames boundaries
              total_scenes scene_summaries (i, start_idx) w w eq_refl)
    as [-> _].
  unfold scene, bind, _cb, log, ret, lift, call_caption, call_summarize.
  simpl. rewrite Hslice, Hsel. simpl. rewrite Hcap. simpl.
  rewrite Hsum. reflexivity.
Qed.


(** *** Progress of the scene stage *)

Lemma progress_of_app (tr1 tr2 : list (action Frame)) :
  progress_of (tr1 ++ tr2) = progress_of tr1 ++ progress_of tr2.
Proof. apply flat_map_app. Qed.

(** One scene without a callback: both events when the body completes,
    the start event alone when the captioner, the summarizer or the
    keyframe lookup raises. *)
Lemma scene_progress_none (selector : KeyframeSelector.t)
    (frames : list Frame) (boundaries : list nat) (total_scenes : nat)
    (scene_summaries : list string) (i start_idx : nat) (w : world) :
  exists new,
    trace (snd (scene _compute_embeddings caption_batch summarize None
                  selector frames boundaries total_scenes scene_summaries
                  (i, start_idx) w))
    = trace w ++ new /\
    match fst (scene _compute_embeddings caption_batch summarize None
                 selector frames boundaries total_scenes scene_summaries
                 (i, start_idx) w) with
    | Ok _ => progress_of new = scene_progress total_scenes i
    | Raise _ =>
        exists done, scene_progress total_scenes i = progress_of new ++ [done]
    end.
Proof.
  unfold scene, bind, _cb, log, ret, lift, call_caption, call_summarize.
  simpl.
  destruct (slice frames start_idx _) as [|f rest]; simpl.
  - eexists. rewrite <- !app_assoc. split; reflexivity.
  - destruct (mapM _ _) as [keyframes|e]; simpl.
    + destruct (caption_batch keyframes) as [captions|e]; simpl.
      * destruct (summarize captions) as [summary|e]; simpl.
        -- eexists. rewrite <- !app_assoc. split; reflexivity.
        -- eexists. rewrite <- !app_assoc. split; [reflexivity|].
           eexists. reflexivity.
      * eexists. rewrite <- !app_assoc. split; [reflexivity|].
        eexists. reflexivity.
    + eexists. split; [reflexivity|]. eexists. reflexivity.
Qed.

Lemma scenes_progress_none (selector : KeyframeSelector.t)
    (frames : list Frame) (boundaries : list nat) (total_scenes : nat)
    (starts : list nat) :
  forall (a : nat) (scene_summaries : list string) (w : world),
  exists new,
    trace (snd (for_each
                  (scene _compute_embeddings caption_batch summarize None
                     selector frames boundaries total_scenes)
                  (combine (seq a (length starts)) starts)
                  scene_summaries w))
    = trace w ++ new /\
    (exists rest,
       flat_map (scene_progress total_scenes) (seq a (length starts))
       = progress_of new ++ rest) /\
    (forall l,
       fst (for_each
              (scene _compute_embeddings caption_batch summarize None
                 selector frames boundaries total_scenes)
              (combine (seq a (length starts)) starts)
              scene_summaries w) = Ok l ->
       progress_of new
       = flat_map (scene_progress total_scenes) (seq a (length starts))).
Proof.
  induction starts as [|start_idx starts IH]; intros a acc w.
  - exists []. simpl. rewrite app_nil_r. split; [reflexivity|].
    split; [exists []; reflexivity|reflexivity].
  - cbn [length seq combine for_each flat_map]. unfold bind.
    destruct (scene_progress_none selector frames boundaries total_scenes
                acc a start_idx w) as (new1 & Ht1 & Hp1).
    destruct (scene _ _ _ _ _ _ _ _ _ _ w) as [[acc'|e] w1];
      simpl in Ht1, Hp1; cbv beta iota.
    + destruct (IH (S a) acc' w1) as (new2 & Ht2 & [rest Hpre] & Hall).
      exists (new1 ++ new2). rewrite Ht2, Ht1, <- app_assoc.
      split; [reflexivity|]. rewrite progress_of_app, Hp1. split.
      * exists rest. now rewrite Hpre, <- app_assoc.
      * intros l Hl. now rewrite (Hall l Hl).
    + destruct Hp1 as [done Hp1]. exists new1. cbn [fst snd].
      split; [exact Ht1|]. split; [|discriminate].
      eexists. rewrite Hp1, <- app_assoc. reflexivity.
Qed.

(** The scene stage on boundary list [B], with any callback: it emits,
    scene after scene, a start event that carries [i / total_scenes] and,
    when the scene completes, a done event that carries
    [i / total_scenes + 1.0 / total_scenes], both computed in binary64,
    with [total_scenes = max(1, len(B))]; nothing else is reported, and
    every scene reports both when the stage completes. *)
Lemma scenes_progress (progress_callback : option callback)
    (frames : list Frame) (boundaries : list nat) (w : world) :
  exists new,
    trace (snd (scenes _compute_embeddings caption_batch summarize
                  progress_callback frames boundaries w))
    = trace w ++ new /\
    (exists rest,
       flat_map (scene_progress (Nat.max 1 (length boundaries)))
         (seq 0 (length boundaries))
       = progress_of new ++ rest) /\
    (forall l,
       fst (scenes _compute_embeddings caption_batch summarize
              progress_callback frames boundaries w) = Ok l ->
       progress_of new
       = flat_map (scene_progress (Nat.max 1 (length boundaries)))
           (seq 0 (length boundaries))).
Proof.
  destruct (agree_scenes progress_callback None frames boundaries w w
              eq_refl) as [-> ->].
  unfold scenes, enumerate.
  apply scenes_progress_none.
Qed.

End Facts.

Lemma demo_one_row_per_frame : one_row_per_frame Demo._compute_embeddings.
Proof.
  intros frames embs H. unfold Demo._compute_embeddings in H.
  injection H as <-. apply length_map.
Qed.



Lemma run_unopenable_video_raises_witness :
  fst (Demo.run Demo.caption_batch "missing.mp4" (Some Demo.raising_callback))
  = Raise (IOError "Failed to open video source: missing.mp4").
Proof.
  apply (@run_unopenable_video_raises Q exact Q exact Demo.Frame nat Demo.VideoCapture
           Demo._histogram Demo._compute_embeddings Demo.caption_batch
           Demo.summarize (Some Demo.raising_callback) "missing.mp4"
           Demo.w0 eq_refl).
Defined.

Lemma run_without_scene_summaries_witness :
  fst (Demo.run Demo.caption_batch "empty.mp4" (Some Demo.raising_callback))
  = Ok "".
Proof.
  apply (@run_without_scene_summaries Q exact Q exact Demo.Frame nat Demo.VideoCapture
           Demo._histogram Demo._compute_embeddings Demo.caption_batch
           Demo.summarize (Some Demo.raising_callback) "empty.mp4"
           Demo.w0 eq_refl).
Defined.

(** The end-to-end test: eight frames, one scene, five keyframes. *)
Example run_demo :
  fst (Demo.run Demo.caption_batch "demo.mp4" (Some Demo.raising_callback))
  = Ok "a test | a test | a test | a test | a test".
Proof. vm_compute. reflexivity. Qed.

End PipelineFacts.

(** ** The video parser *)

Module VideoParserFacts.
Import VideoParser.

Section Sampling.
Variable Frame : Type.
Variable VideoCapture : string -> option (list Frame).

Lemma succ_mod (a step : Z) :
  (0 < step)%Z ->
  ((a + 1) mod step
   = if a mod step + 1 =? step then 0 else a mod step + 1)%Z.
Proof.
  intros Hs. pose proof (Z.mod_pos_bound a step Hs) as Hb.
  pose proof (Z.div_mod a step ltac:(lia)) as Ha.
  destruct (Z.eqb_spec (a mod step + 1) step) as [E|E]; symmetry.
  - apply Z.mod_unique with (q := (a / step + 1)%Z); [lia|nia].
  - apply Z.mod_unique with (q := (a / step)%Z); [lia|nia].
Qed.

Lemma opp_mod (a step : Z) :
  (0 < step)%Z ->
  ((- a) mod step = if a mod step =? 0 then 0 else step - a mod step)%Z.
Proof.
  intros Hs. destruct (Z.eqb_spec (a mod step) 0) as [E|E].
  - apply Z.mod_opp_l_z; [lia|exact E].
  - apply Z.mod_opp_l_nz; [lia|exact E].
Qed.

(** The frame yielded in position [k], counted from frame number [idx]
    of the stream. *)
Lemma sample_nth_error (step : Z) (decoded : list Frame) :
  (0 < step)%Z ->
  forall idx k,
    nth_error (sample step idx decoded) k
    = nth_error decoded (Z.to_nat ((- idx) mod step) + k * Z.to_nat step).
Proof.
  intros Hs. induction decoded as [|f rest IH]; intros idx k.
  - simpl. now rewrite !nth_error_nil.
  - pose proof (Z.mod_pos_bound idx step Hs) as Hb.
    pose proof (opp_mod idx Hs) as E0.
    pose proof (opp_mod (idx + 1) Hs) as E1.
    rewrite (succ_mod idx Hs) in E1.
    simpl sample. destruct (Z.eqb_spec (idx mod step) 0) as [Hz|Hnz].
    + rewrite E0. destruct k as [|k]; [reflexivity|].
      simpl nth_error at 1. rewrite IH, E1.
      destruct (Z.eqb_spec (idx mod step + 1) step) as [E|E].
      * simpl (0 =? 0)%Z. cbv iota.
        replace (Z.to_nat step) with 1 by lia.
        replace (Z.to_nat 0 + S k * 1) with (S (Z.to_nat 0 + k * 1)) by lia.
        reflexivity.
      * destruct (Z.eqb_spec (idx mod step + 1) 0) as [E'|E']; [lia|].
        replace (Z.to_nat 0 + S k * Z.to_nat step)
          with (S (Z.to_nat (step - (idx mod step + 1))
                   + k * Z.to_nat step)) by lia.
        reflexivity.
    + rewrite IH, E1, E0.
      destruct (Z.eqb_spec (idx mod step + 1) step) as [E|E].
      * simpl (0 =? 0)%Z. cbv iota.
        replace (Z.to_nat (step - idx mod step) + k * Z.to_nat step)
          with (S (Z.to_nat 0 + k * Z.to_nat step)) by lia.
        reflexivity.
      * destruct (Z.eqb_spec (idx mod step + 1) 0) as [E'|E']; [lia|].
        replace (Z.to_nat (step - idx mod step) + k * Z.to_nat step)
          with (S (Z.to_nat (step - (idx mod step + 1))
                   + k * Z.to_nat step)) by lia.
        reflexivity.
Qed.

(** [frames] with sampling step [step] (clamped to at least 1): when the
    video opens, iterating the generator yields frame numbers
    [0, step, 2 * step, ...] of the stream, in order, and nothing else:
    [ceil(n / step)] frames out of [n]. *)
Theorem frames_yields_every_step (source : string) (step : Z)
    (decoded : list Frame) :
  VideoCapture source = Some decoded ->
  exists g fs,
    frames VideoCapture (init source step) = Ok g /\
    list_ g = Ok fs /\
    (forall k,
       nth_error fs k = nth_error decoded (k * Z.to_nat (Z.max 1 step))) /\
    length fs
    = (length decoded + Z.to_nat (Z.max 1 step) - 1)
      / Z.to_nat (Z.max 1 step).
Proof.
  intros Hopen. unfold frames, init. simpl.
  eexists. eexists. split; [reflexivity|].
  unfold frames_body. simpl. rewrite Hopen. split; [reflexivity|].
  set (s := Z.max 1 step). assert (Hs : (0 < s)%Z) by lia.
  assert (Hnth : forall k,
            nth_error (sample s 0 decoded) k
            = nth_error decoded (k * Z.to_nat s)).
  { intros k. rewrite (sample_nth_error decoded Hs 0 k).
    simpl Z.opp. now rewrite Z.mod_0_l by lia. }
  split; [exact Hnth|].
  set (n := Z.to_nat s) in *. assert (Hn : 1 <= n) by lia.
  set (c := (length decoded + n - 1) / n).
  assert (Hc1 : length decoded <= c * n).
  { unfold c. pose proof (Nat.div_mod_eq (length decoded + n - 1) n).
    pose proof (Nat.mod_upper_bound (length decoded + n - 1) n). nia. }
  assert (Hc2 : c = 0 \/ (c - 1) * n < length decoded).
  { unfold c. pose proof (Nat.div_mod_eq (length decoded + n - 1) n).
    pose proof (Nat.mod_upper_bound (length decoded + n - 1) n).
    destruct ((length decoded + n - 1) / n); [now left|right]. nia. }
  apply Nat.le_antisymm.
  - apply nth_error_None. rewrite Hnth. now apply nth_error_None.
  - destruct Hc2 as [->|Hlt]; [lia|].
    assert (Hsome : nth_error (sample s 0 decoded) (c - 1) <> None)
      by (rewrite Hnth; now apply nth_error_Some).
    apply nth_error_Some in Hsome. lia.
Qed.

End Sampling.

Lemma frames_yields_every_step_witness :
  exists g fs,
    frames Demo.VideoCapture (init "demo.mp4" 3) = Ok g /\
    list_ g = Ok fs /\
    length fs = 3.
Proof.
  destruct (@frames_yields_every_step Demo.Frame Demo.VideoCapture
              "demo.mp4" 3 Demo.two_colours eq_refl)
    as (g & fs & Hg & Hl & _ & Hlen).
  exists g, fs. auto.
Defined.

End VideoParserFacts.

(** ** The histogram of an RGB frame *)

Module RgbFacts.
Import SceneDetector Rgb ListFacts Arith.

(** The facts of this module are about histograms computed without
    rounding. *)

Lemma np_sum_cons (x : Q) (v : list Q) :
  Np.np_sum (x :: v) = (x + Np.np_sum v)%Q.
Proof. reflexivity. Qed.

Lemma np_sum_app (a b : list Q) :
  (Np.np_sum (a ++ b) == Np.np_sum a + Np.np_sum b)%Q.
Proof.
  induction a as [|x a IH]; [simpl; ring|].
  cbn [app]. rewrite !np_sum_cons, IH. ring.
Qed.

Lemma np_sum_nonneg (v : list Q) :
  Forall (fun x => (0 <= x)%Q) v -> (0 <= Np.np_sum v)%Q.
Proof.
  induction 1 as [|x v Hx _ IH]; [apply Qle_refl|].
  rewrite np_sum_cons. lra.
Qed.

Lemma bin_count_cons (v : nat) (values : list nat) (b : nat) :
  bin_count (v :: values) b
  = (if v / 8 =? b then 1 else 0) + bin_count values b.
Proof.
  unfold bin_count. cbn [filter]. destruct (v / 8 =? b); reflexivity.
Qed.

Lemma indicator_sum (q n : nat) :
  forall a,
    list_sum (map (fun b => if q =? b then 1 else 0) (seq a n))
    = if (a <=? q) && (q <? a + n) then 1 else 0.
Proof.
  assert (Hcons : forall x l, list_sum (x :: l) = x + list_sum l)
    by reflexivity.
  induction n as [|n IH]; intros a; cbn [seq map].
  - destruct (Nat.leb_spec a q), (Nat.ltb_spec q (a + 0)); simpl; lia.
  - rewrite Hcons, IH.
    destruct (Nat.eqb_spec q a), (Nat.leb_spec a q),
      (Nat.ltb_spec q (a + S n)), (Nat.leb_spec (S a) q),
      (Nat.ltb_spec q (S a + n)); simpl; lia.
Qed.

Lemma list_sum_map_add (f g : nat -> nat) (l : list nat) :
  list_sum (map (fun b => f b + g b) l)
  = list_sum (map f l) + list_sum (map g l).
Proof.
  induction l as [|x l IH]; simpl; [reflexivity|]. rewrite IH. lia.
Qed.

(** Every value below [8 m] is counted in exactly one of the first [m]
    bins. *)
Lemma bin_counts_total (values : list nat) (m : nat) :
  Forall (fun v => v < 8 * m) values ->
  list_sum (map (bin_count values) (seq 0 m)) = length values.
Proof.
  induction 1 as [|v values Hv _ IH]; cbn [length].
  - unfold bin_count. cbn [filter length].
    induction (seq 0 m); simpl; auto.
  - rewrite <- IH.
    rewrite (map_ext _ _ (bin_count_cons v values)), list_sum_map_add,
      indicator_sum.
    assert (Hb : v / 8 < m) by (apply Nat.Div0.div_lt_upper_bound; lia).
    destruct (Nat.leb_spec 0 (v / 8)), (Nat.ltb_spec (v / 8) (0 + m));
      simpl; lia.
Qed.

Lemma channel_values (c : nat) (img : image) :
  Forall (fun v => v < 8 * 32) (channel c img) /\
  length (channel c img) = S (length (others img)).
Proof.
  unfold channel, pixels. split; [|now rewrite length_map].
  apply Forall_forall. intros v Hv. apply in_map_iff in Hv.
  destruct Hv as ([[r g] b] & <- & _).
  pose proof (Byte.to_nat_bounded
                match c with 0 => r | 1 => g | _ => b end). lia.
Qed.

Lemma np_sum_scaled (k : Q) (n : list nat) :
  (Np.np_sum (map (fun count => inject_Z (Z.of_nat count) / 8 / k) n)
   == inject_Z (Z.of_nat (list_sum n)) / 8 / k)%Q.
Proof.
  induction n as [|c n IH].
  - simpl. unfold Qdiv. ring.
  - cbn [map list_sum]. rewrite np_sum_cons, IH.
    change (list_sum (c :: n)) with (c + list_sum n).
    rewrite Nat2Z.inj_add, inject_Z_plus. unfold Qdiv. ring.
Qed.

(** The histogram of one channel: 32 non-negative bins that sum to 1/8,
    a density over bins of width 8. *)
Lemma np_histogram_density (c : nat) (img : image) :
  length (np_histogram (ar := exact) (channel c img)) = 32 /\
  Forall (fun x => (0 <= x)%Q) (np_histogram (channel c img)) /\
  (Np.np_sum (np_histogram (channel c img)) == 1 # 8)%Q.
Proof.
  destruct (channel_values c img) as [Hrange Hlen].
  unfold np_histogram. cbv zeta.
  cbn [Np.div Np.of_nat exact].
  change (inject_Z (Z.of_nat 8)) with 8%Q.
  rewrite (@bin_counts_total _ 32 Hrange), Hlen.
  split; [now rewrite !length_map, length_seq|]. split.
  - apply Forall_forall. intros x Hx. apply in_map_iff in Hx.
    destruct Hx as (count & <- & _). unfold Qdiv.
    repeat apply Qmult_le_0_compat.
    + change 0%Q with (inject_Z 0). rewrite <- Zle_Qle. lia.
    + discriminate.
    + apply Qinv_le_0_compat. change 0%Q with (inject_Z 0).
      rewrite <- Zle_Qle. lia.
  - rewrite np_sum_scaled, (@bin_counts_total _ 32 Hrange), Hlen.
    assert (Hpos : (0 < inject_Z (Z.of_nat (S (length (others img)))))%Q).
    { change 0%Q with (inject_Z 0). rewrite <- Zlt_Qlt. lia. }
    field. lra.
Qed.

Lemma histogram_of_channels (img : image) :
  histogram_of (ar := exact) img
  = np_histogram (channel 0 img) ++ np_histogram (channel 1 img)
    ++ np_histogram (channel 2 img).
Proof.
  unfold histogram_of. cbn [seq map concat]. now rewrite app_nil_r.
Qed.

Lemma histogram_of_nonneg (img : image) :
  Forall (fun x => (0 <= x)%Q) (histogram_of img).
Proof.
  rewrite histogram_of_channels.
  repeat (apply Forall_app; split); apply np_histogram_density.
Qed.

Lemma histogram_of_sum (img : image) :
  (Np.np_sum (histogram_of img) == 3 # 8)%Q.
Proof.
  rewrite histogram_of_channels, !np_sum_app.
  destruct (np_histogram_density 0 img) as (_ & _ & ->).
  destruct (np_histogram_density 1 img) as (_ & _ & ->).
  destruct (np_histogram_density 2 img) as (_ & _ & ->).
  reflexivity.
Qed.

(** One term of the chi-square sum, for two non-negative bins. *)
Lemma chi_term_bounds (a b : Q) :
  (0 <= a)%Q -> (0 <= b)%Q ->
  (0 <= bin_term a b <= a + b)%Q.
Proof.
  intros Ha Hb. unfold bin_term.
  cbn [Np.div Np.mul Np.sub Np.add Np.eqb Np.zero Np.one exact].
  pose proof (KeyframeSelectorFacts.square_nonneg (a - b)) as Hsq.
  pose proof (Qmult_le_0_compat a b Ha Hb) as Hab.
  assert (Hexp : ((a + b) * (a + b) == (a - b) * (a - b) + 4 * (a * b))%Q)
    by ring.
  destruct (Qeq_bool (a + b) 0) eqn:E.
  - apply Qeq_bool_eq in E.
    assert (Ea : (a == 0)%Q) by lra. assert (Eb : (b == 0)%Q) by lra.
    rewrite Ea, Eb. split; [|]; unfold Qdiv; ring_simplify; apply Qle_refl.
  - apply Qeq_bool_neq in E. assert (Hpos : (0 < a + b)%Q) by lra. split.
    + apply Qle_shift_div_l; [exact Hpos|lra].
    + apply Qle_shift_div_r; [exact Hpos|]. rewrite Hexp. lra.
Qed.

Lemma chi_square_sum_cons (a b : Q) (h1 h2 : hist Q) :
  chi_square_sum (a :: h1) (b :: h2)
  = (bin_term a b + chi_square_sum h1 h2)%Q.
Proof. reflexivity. Qed.

Lemma chi_square_sum_bounds (h1 : hist Q) :
  forall h2,
    Forall (fun x => (0 <= x)%Q) h1 -> Forall (fun x => (0 <= x)%Q) h2 ->
    (0 <= chi_square_sum h1 h2 <= Np.np_sum h1 + Np.np_sum h2)%Q.
Proof.
  induction h1 as [|a h1 IH]; intros h2 H1 H2.
  - pose proof (np_sum_nonneg H2).
    change (chi_square_sum [] h2) with 0%Q.
    change (Np.np_sum (@nil Q)) with 0%Q. lra.
  - destruct h2 as [|b h2].
    + pose proof (np_sum_nonneg H1).
      change (chi_square_sum (a :: h1) []) with 0%Q.
      change (Np.np_sum (@nil Q)) with 0%Q. lra.
    + inversion H1 as [|? ? Ha H1']; inversion H2 as [|? ? Hb H2']; subst.
      destruct (IH h2 H1' H2') as [Hl Hu].
      destruct (chi_term_bounds Ha Hb) as [Tl Tu].
      rewrite chi_square_sum_cons, !np_sum_cons. lra.
Qed.

Lemma chi_square_of_frames (img1 img2 : image) :
  (0 <= chi_square_sum (histogram_of (ar := exact) img1) (histogram_of img2)
   <= 3 # 4)%Q.
Proof.
  destruct (chi_square_sum_bounds (histogram_of_nonneg img1)
              (histogram_of_nonneg img2)) as [Hl Hu].
  rewrite !histogram_of_sum in Hu. lra.
Qed.

(** [_histogram] returns 96 bins, in every arithmetic; without rounding
    they are non-negative and the 32 bins of each channel sum to 1/8 (a
    density over bins of width 8, not probabilities that sum to 1). *)
Theorem histogram_is_a_density (img : image) :
  exists h,
    _histogram (ar := exact) img = Ok h /\
    length h = 96 /\
    Forall (fun x => (0 <= x)%Q) h /\
    forall c, c < 3 ->
      (Np.np_sum (firstn 32 (skipn (32 * c) h)) == 1 # 8)%Q.
Proof.
  exists (histogram_of img). split; [reflexivity|].
  split; [|split; [apply histogram_of_nonneg|]].
  - rewrite histogram_of_channels, !length_app.
    destruct (np_histogram_density 0 img) as (-> & _).
    destruct (np_histogram_density 1 img) as (-> & _).
    destruct (np_histogram_density 2 img) as (-> & _). reflexivity.
  - intros c Hc. rewrite histogram_of_channels.
    destruct (np_histogram_density 0 img) as (L0 & _ & S0).
    destruct (np_histogram_density 1 img) as (L1 & _ & S1).
    destruct (np_histogram_density 2 img) as (L2 & _ & S2).
    assert (Hcut : forall (x y : list Q),
              length x = 32 -> firstn 32 (x ++ y) = x).
    { intros x y Hx. rewrite firstn_app, Hx, Nat.sub_diag, firstn_O,
        app_nil_r. rewrite <- Hx. apply firstn_all. }
    assert (Hskip : forall (x y : list Q),
              length x = 32 -> skipn 32 (x ++ y) = y).
    { intros x y Hx. rewrite skipn_app, Hx, Nat.sub_diag, skipn_O.
      rewrite <- Hx, skipn_all. reflexivity. }
    destruct c as [|[|[|c]]]; try lia.
    + change (32 * 0) with 0. rewrite skipn_O, Hcut by assumption. exact S0.
    + change (32 * 1) with 32.
      rewrite Hskip, Hcut by assumption. exact S1.
    + change (32 * 2) with (32 + 32). rewrite <- skipn_skipn.
      rewrite Hskip by assumption. rewrite Hskip by assumption.
      rewrite <- (app_nil_r (np_histogram (channel 2 img))).
      rewrite Hcut by assumption. exact S2.
Qed.

End RgbFacts.

(** ** More on scene detection *)

Module SceneDetectorMore.
Import SceneDetector ListFacts SceneDetectorFacts Arith.

Lemma chi_square_sum_same (h : hist Q) : (chi_square_sum h h == 0)%Q.
Proof.
  induction h as [|a h IH]; [reflexivity|].
  rewrite RgbFacts.chi_square_sum_cons, IH. unfold bin_term.
  cbn [Np.div Np.mul Np.sub Np.add Np.eqb Np.zero Np.one exact].
  unfold Qdiv. ring.
Qed.

(** A frame whose histogram is that of the frame before it never starts
    a scene, as long as the threshold is positive (histograms without
    rounding). *)
Theorem unchanged_frame_is_no_boundary (Frame : Type)
    (_histogram : Frame -> result (hist Q)) (self : t Q)
    (frames : list Frame) (hists : list (hist Q)) (i : nat) :
  mapM _histogram frames = Ok hists ->
  (0 < threshold self)%Q ->
  1 <= i ->
  nth (i - 1) hists [] = nth i hists [] ->
  exists bs,
    detect_scenes _histogram self frames = Ok bs /\ ~ In i bs.
Proof.
  intros Hh Hthr Hi Hsame. destruct frames as [|f frames].
  - exists []. split; [reflexivity|intros []].
  - assert (Hne : f :: frames <> []) by discriminate.
    destruct (detect_scenes_scan _ self Hne Hh) as (Hd & Hhne & Hlen).
    exists (scan self hists). split; [exact Hd|].
    destruct (scan_spec self Hhne) as (_ & Hlt & _ & _ & Hmem).
    intros Hin. rewrite Forall_forall in Hlt.
    pose proof (Hlt i Hin) as Hrange.
    apply Hmem in Hin; [|lia]. destruct Hin as [Hchi _].
    apply Qle_bool_iff in Hchi.
    rewrite Hsame in Hchi. unfold chi_square in Hchi.
    cbn [Np.mul Np.half exact] in Hchi.
    rewrite chi_square_sum_same in Hchi. lra.
Qed.

Lemma unchanged_frame_is_no_boundary_witness :
  exists bs,
    detect_scenes Demo._histogram (init (1 # 10)%Q 1) Demo.two_colours
      = Ok bs /\
    ~ In 2 bs.
Proof.
  apply (@unchanged_frame_is_no_boundary Demo.Frame Demo._histogram
           (init (1 # 10)%Q 1) Demo.two_colours
           (repeat (Demo.channel 200 ++ Demo.channel 10 ++ Demo.channel 10) 4
            ++ repeat (Demo.channel 10 ++ Demo.channel 200 ++ Demo.channel 10) 4)
           2 eq_refl).
  - reflexivity.
  - lia.
  - reflexivity.
Defined.

Lemma spaced_reach (m : Z) (n : nat) (l : list nat) :
  forall b,
    Sorted (gap m) (b :: l) ->
    Forall (fun x => x < n) (b :: l) ->
    (Z.of_nat b + m * Z.of_nat (length l) < Z.of_nat n)%Z.
Proof.
  induction l as [|c l IH]; intros b Hs Hn.
  - inversion Hn; subst. simpl. lia.
  - inversion Hs as [|? ? Hs' Hhd]; subst. inversion Hhd as [|? ? Hg]; subst.
    inversion Hn as [|? ? _ Hn']; subst.
    specialize (IH c Hs' Hn'). unfold gap in Hg.
    cbn [length]. rewrite Nat2Z.inj_succ, Z.mul_succ_r. lia.
Qed.

(** The debounce bounds the number of scenes: [k] boundaries need more
    than [(k - 1) * min_scene_len] frames, in every arithmetic. *)
Theorem boundaries_need_frames (num : Type) (ar : Np.arith num)
    (Frame : Type)
    (_histogram : Frame -> result (hist num)) (self : t num)
    (frames : list Frame) (hists : list (hist num)) :
  frames <> [] ->
  mapM _histogram frames = Ok hists ->
  exists bs,
    detect_scenes _histogram self frames = Ok bs /\
    (min_scene_len self * (Z.of_nat (length bs) - 1)
     < Z.of_nat (length frames))%Z.
Proof.
  intros Hne Hh.
  destruct (detect_scenes_scan _ self Hne Hh) as (Hd & Hhne & Hlen).
  exists (scan self hists). split; [exact Hd|].
  destruct (scan_spec self Hhne) as (H0 & Hlt & _ & Hgap & _).
  rewrite Hlen in Hlt.
  destruct (scan self hists) as [|b l]; [discriminate|].
  injection H0 as ->.
  pose proof (spaced_reach Hgap Hlt) as H. cbn [length].
  rewrite Nat2Z.inj_succ. lia.
Qed.

Lemma boundaries_need_frames_witness :
  exists bs,
    detect_scenes Demo._histogram (init (1 # 10)%Q 3) Demo.two_colours
      = Ok bs /\
    (3 * (Z.of_nat (length bs) - 1) < 8)%Z.
Proof.
  apply (@boundaries_need_frames Q exact Demo.Frame Demo._histogram
           (init (1 # 10)%Q 3) Demo.two_colours
           (repeat (Demo.channel 200 ++ Demo.channel 10 ++ Demo.channel 10) 4
            ++ repeat (Demo.channel 10 ++ Demo.channel 200 ++ Demo.channel 10) 4)).
  - discriminate.
  - reflexivity.
Defined.

Lemma only_boundary_zero (bs : list nat) :
  hd_error bs = Some 0 -> Sorted lt bs ->
  (forall x, In x bs -> x = 0) -> bs = [0].
Proof.
  intros Hhd Hs Hall. destruct bs as [|b [|c l]]; try discriminate.
  - now injection Hhd as ->.
  - exfalso. inversion Hs as [|? ? _ Hrel]; subst.
    inversion Hrel as [|? ? Hlt]; subst.
    rewrite (Hall b) in Hlt by (now left).
    rewrite (Hall c) in Hlt by (right; now left). lia.
Qed.

Lemma mapM_rgb_histogram (num : Type) (ar : Np.arith num)
    (frames : list Rgb.image) :
  mapM (Rgb._histogram (ar := ar)) frames
  = Ok (map Rgb.histogram_of frames).
Proof.
  induction frames as [|f frames IH]; simpl; [reflexivity|].
  now rewrite IH.
Qed.

(** Without rounding, the distance of two RGB frames is at most 3/8;
    a detector with a higher threshold, the default 0.5 included, finds
    no scene change. *)
Lemma rgb_scan_single (self : t Q) (frames : list Rgb.image) :
  frames <> [] ->
  (3 # 8 < threshold self)%Q ->
  scan self (map Rgb.histogram_of frames) = [0].
Proof.
  intros Hne Hthr.
  assert (Hhne : map (Rgb.histogram_of (ar := exact)) frames <> [])
    by (destruct frames; [congruence|discriminate]).
  destruct (scan_spec self Hhne) as (H0 & Hlt & Hinc & _ & Hmem).
  apply only_boundary_zero; try assumption.
  intros x Hx. destruct x as [|x]; [reflexivity|exfalso].
  rewrite Forall_forall in Hlt. pose proof (Hlt _ Hx) as Hrange.
  apply Hmem in Hx; [|lia]. destruct Hx as [Hchi _].
  apply Qle_bool_iff in Hchi.
  unfold chi_square in Hchi. cbn [Np.mul Np.half exact] in Hchi.
  destruct frames as [|d frames']; [congruence|].
  rewrite length_map in Hrange.
  rewrite !(nth_map_in Rgb.histogram_of d []) in Hchi by lia.
  pose proof (RgbFacts.chi_square_of_frames
                (nth (S x - 1) (d :: frames') d)
                (nth (S x) (d :: frames') d)) as [_ Hb].
  lra.
Qed.

End SceneDetectorMore.

(** ** The scenes of a run *)

Module ScenesFacts.
Import Pipeline Scenes ListFacts Arith.

Section Partition.
Context {num : Type} {ar : Np.arith num}.
Variable Frame : Type.

(** The slices that start at the boundaries [suffix], the last part of
    the boundary list, cover the frames from the first of them on. *)
Lemma slices_cover (frames : list Frame) (suffix : list nat) :
  forall prefix,
    suffix <> [] ->
    Sorted lt suffix ->
    Forall (fun b => b < length frames) suffix ->
    let slices :=
      map (fun entry : nat * nat =>
             let '(i, start_idx) := entry in
             slice frames start_idx
               (scene_end frames (prefix ++ suffix) i))
          (combine (seq (length prefix) (length suffix)) suffix) in
    concat slices = skipn (hd 0 suffix) frames /\
    Forall (fun scene_frames => scene_frames <> []) slices.
Proof.
  induction suffix as [|s suffix IH]; intros prefix Hne Hs Hn; [congruence|].
  inversion Hn as [|? ? Hsn Hn']; subst.
  destruct suffix as [|s' suffix].
  - cbn [length seq combine map concat hd]. unfold scene_end.
    rewrite length_app. cbn [length].
    replace (S (length prefix) <? length prefix + 1) with false
      by (symmetry; apply Nat.ltb_ge; lia).
    unfold slice. rewrite firstn_all2 by (rewrite length_skipn; lia).
    rewrite app_nil_r. split; [reflexivity|].
    constructor; [|constructor]. intros E.
    apply (f_equal (@length Frame)) in E. rewrite length_skipn in E.
    simpl in E. lia.
  - inversion Hs as [|? ? Hs' Hhd]; subst. inversion Hhd as [|? ? Hlt]; subst.
    destruct (IH (prefix ++ [s]) ltac:(discriminate) Hs' Hn')
      as [Hcat Hall].
    replace (length (prefix ++ [s])) with (S (length prefix)) in Hcat, Hall
      by (rewrite length_app; simpl; lia).
    rewrite <- app_assoc in Hcat, Hall.
    cbn [app hd] in Hcat, Hall.
    change (length (s :: s' :: suffix)) with (S (length (s' :: suffix))).
    cbn [seq combine map concat hd].
    assert (Hend : scene_end frames (prefix ++ s :: s' :: suffix)
                     (length prefix) = s').
    { unfold scene_end. rewrite length_app. cbn [length].
      replace (S (length prefix) <? length prefix + S (S (length suffix)))
        with true by (symmetry; apply Nat.ltb_lt; lia).
      rewrite app_nth2 by lia.
      replace (S (length prefix) - length prefix) with 1 by lia.
      reflexivity. }
    rewrite Hend. split.
    + rewrite Hcat. unfold slice.
      replace s' with ((s' - s) + s) at 2 by lia.
      rewrite <- skipn_skipn. apply firstn_skipn.
    + constructor; [|exact Hall]. unfold slice. intros E.
      apply (f_equal (@length Frame)) in E.
      rewrite length_firstn, length_skipn in E. simpl in E. lia.
Qed.

(** The scenes of the boundaries [scan] records. *)
Lemma scan_slices (self : SceneDetector.t num) (frames : list Frame)
    (hists : list (SceneDetector.hist num)) :
  hists <> [] -> length hists = length frames ->
  concat (scene_slices frames (SceneDetector.scan self hists)) = frames /\
  Forall (fun scene_frames => scene_frames <> [])
    (scene_slices frames (SceneDetector.scan self hists)).
Proof.
  intros Hhne Hlen.
  destruct (SceneDetectorFacts.scan_spec self Hhne)
    as (H0 & Hlt & Hinc & _ & _).
  rewrite Hlen in Hlt.
  assert (Hbs : SceneDetector.scan self hists <> [])
    by (intros E; rewrite E in H0; discriminate).
  destruct (@slices_cover frames (SceneDetector.scan self hists) []
              Hbs Hinc Hlt) as [Hcat Hall].
  cbn [app length] in Hcat, Hall. unfold scene_slices, enumerate.
  split; [|exact Hall]. rewrite Hcat.
  destruct (SceneDetector.scan self hists); [discriminate|].
  injection H0 as ->. reflexivity.
Qed.

Section Detected.
Variable _histogram : Frame -> result (SceneDetector.hist num).

(** The scenes of a detected boundary list partition the video: none is
    empty and, put end to end, they are the frames, each frame once. *)
Theorem scenes_partition_the_frames (self : SceneDetector.t num)
    (frames : list Frame) (hists : list (SceneDetector.hist num)) :
  frames <> [] ->
  mapM _histogram frames = Ok hists ->
  exists boundaries,
    SceneDetector.detect_scenes _histogram self frames = Ok boundaries /\
    concat (scene_slices frames boundaries) = frames /\
    Forall (fun scene_frames => scene_frames <> [])
      (scene_slices frames boundaries).
Proof.
  intros Hne Hh.
  destruct (SceneDetectorFacts.detect_scenes_scan _ self Hne Hh)
    as (Hd & Hhne & Hlen).
  exists (SceneDetector.scan self hists). split; [exact Hd|].
  now apply scan_slices.
Qed.

End Detected.
End Partition.

Lemma scenes_partition_the_frames_witness :
  exists boundaries,
    SceneDetector.detect_scenes Demo._histogram
      (SceneDetector.init (1 # 10)%Q 1) Demo.two_colours = Ok boundaries /\
    concat (scene_slices Demo.two_colours boundaries) = Demo.two_colours.
Proof.
  destruct (@scenes_partition_the_frames Q exact Demo.Frame Demo._histogram
              (SceneDetector.init (1 # 10)%Q 1) Demo.two_colours
              (repeat (Demo.channel 200 ++ Demo.channel 10 ++ Demo.channel 10)
                 4
               ++ repeat
                    (Demo.channel 10 ++ Demo.channel 200 ++ Demo.channel 10)
                    4))
    as (bs & Hd & Hcat & _).
  - discriminate.
  - reflexivity.
  - exists bs. auto.
Defined.

End ScenesFacts.

(** ** A run, scene by scene *)

Module RunFacts.
Import Pipeline Scenes ListFacts Arith.

Section Facts.
Context {num : Type} {ar : Np.arith num}.
Context {emb : Type} {ar_emb : Np.arith emb}.
Variable Frame : Type.
Variable Sink : Type.
Variable VideoCapture : string -> option (list Frame).
Variable _histogram : Frame -> result (SceneDetector.hist num).
Variable _compute_embeddings :
  list Frame -> result (KeyframeSelector.matrix emb).
Variable caption_batch : list Frame -> result (list string).
Variable summarize : list string -> result string.

Local Abbreviation world := (Pipeline.world Frame Sink).
Local Abbreviation callback := (Pipeline.callback Sink).
Local Abbreviation one_row_per_frame :=
  (Pipeline.one_row_per_frame _compute_embeddings).
Local Abbreviation scene' :=
  (scene (Sink := Sink) _compute_embeddings caption_batch summarize).
Local Abbreviation run' :=
  (run (Sink := Sink) VideoCapture _histogram _compute_embeddings
     caption_batch summarize).
Local Abbreviation processed' := (processed caption_batch summarize).
Local Abbreviation slice_of :=
  (fun (frames : list Frame) (boundaries : list nat) (entry : nat * nat) =>
     slice frames (snd entry) (scene_end frames boundaries (fst entry))).

(** The default selector asks for between one and five keyframes. *)
Lemma key_idxs_count (scene_frames : list Frame) :
  one_row_per_frame -> scene_frames <> [] ->
  1 <= length (match KeyframeSelector.select _compute_embeddings
                       (KeyframeSelector.mk None) scene_frames with
               | Ok sel => sel
               | Raise _ => [0]
               end) <= 5.
Proof.
  intros Hrows Hne.
  destruct (_compute_embeddings scene_frames) as [embs|e] eqn:Hemb.
  - destruct (KeyframeSelectorFacts.select_result _ (KeyframeSelector.mk None)
                Hne Hemb (Hrows _ _ Hemb)) as (sel & _ & -> & Hlen & _).
    pose proof (KeyframeSelectorFacts.default_k_bounds
                  (Z.of_nat (length scene_frames))).
    unfold KeyframeSelector.effective_k, KeyframeSelector.requested_k in Hlen.
    simpl in Hlen. lia.
  - unfold KeyframeSelector.select.
    destruct scene_frames as [|f rest]; [congruence|].
    change (length (f :: rest) =? 0) with false. cbv iota zeta.
    rewrite Hemb. simpl. lia.
Qed.

Lemma mapM_getitem_incl (scene_frames : list Frame) (key_idxs : list nat) :
  forall keyframes,
    mapM (getitem scene_frames) key_idxs = Ok keyframes ->
    incl keyframes scene_frames.
Proof.
  induction key_idxs as [|k key_idxs IH]; simpl; intros keyframes H.
  - injection H as <-. intros x [].
  - unfold getitem at 1 in H.
    destruct (nth_error scene_frames k) as [f|] eqn:E; simpl in H;
      [|discriminate].
    destruct (mapM _ key_idxs) as [rest|e]; simpl in H; [|discriminate].
    injection H as <-. intros x [<-|Hx].
    + eapply nth_error_In; eauto.
    + eapply IH; eauto.
Qed.

Lemma calls_of_app (tr1 tr2 : list (action Frame)) :
  calls_of (tr1 ++ tr2) = calls_of tr1 ++ calls_of tr2.
Proof. apply filter_app. Qed.

(** One non-empty scene, without a callback. *)
Lemma scene_none_processed (frames : list Frame) (boundaries : list nat)
    (total_scenes : nat) (scene_summaries : list string)
    (entry : nat * nat) (w : world) (l : list string) :
  one_row_per_frame ->
  slice_of frames boundaries entry <> [] ->
  fst (scene' None (KeyframeSelector.mk None) frames boundaries total_scenes
         scene_summaries entry w) = Ok l ->
  exists r new,
    processed' (slice_of frames boundaries entry) r /\
    l = scene_summaries ++ [summary_of r] /\
    trace (snd (scene' None (KeyframeSelector.mk None) frames boundaries
                  total_scenes scene_summaries entry w))
    = trace w ++ new /\
    calls_of new = scene_calls r.
Proof.
  destruct entry as [i start_idx]. cbn [fst snd]. intros Hrows Hne.
  pose proof (key_idxs_count Hrows Hne) as Hcount.
  unfold scene, bind, _cb, log, ret, lift, call_caption, call_summarize.
  simpl.
  destruct (slice frames start_idx _) as [|f rest] eqn:Es; [congruence|].
  simpl.
  destruct (mapM _ _) as [keyframes|e] eqn:Ekf; simpl; [|discriminate].
  destruct (caption_batch keyframes) as [captions|e] eqn:Ecap; simpl;
    [|discriminate].
  destruct (summarize captions) as [scene_summary|e] eqn:Esm; simpl;
    [|discriminate].
  intros H. injection H as <-.
  exists (keyframes, captions, scene_summary). eexists.
  split; [|split; [reflexivity|split]].
  - unfold processed. split; [eapply mapM_getitem_incl; eauto|].
    split; [rewrite (mapM_length _ _ Ekf); exact Hcount|]. auto.
  - rewrite <- !app_assoc. reflexivity.
  - reflexivity.
Qed.

(** The loop over scenes none of which is empty. *)
Lemma for_each_scene_processed (frames : list Frame) (boundaries : list nat)
    (total_scenes : nat) (entries : list (nat * nat)) :
  one_row_per_frame ->
  forall (scene_summaries : list string) (w : world) (l : list string),
    Forall (fun entry => slice_of frames boundaries entry <> []) entries ->
    fst (for_each (scene' None (KeyframeSelector.mk None) frames boundaries
                     total_scenes) entries scene_summaries w) = Ok l ->
    exists rs new,
      Forall2 processed' (map (slice_of frames boundaries) entries) rs /\
      l = scene_summaries ++ map summary_of rs /\
      trace (snd (for_each (scene' None (KeyframeSelector.mk None) frames
                              boundaries total_scenes)
                    entries scene_summaries w))
      = trace w ++ new /\
      calls_of new = flat_map scene_calls rs.
Proof.
  intros Hrows.
  induction entries as [|entry entries IH]; intros acc w l Hall Hl.
  - simpl in Hl. injection Hl as <-. exists [], [].
    simpl. rewrite !app_nil_r. repeat split. constructor.
  - inversion Hall as [|? ? Hne Hall']; subst.
    cbn [for_each] in *. unfold bind in *.
    pose proof (@scene_none_processed frames boundaries total_scenes acc
                  entry w) as Hscene.
    destruct (scene' None _ frames boundaries total_scenes acc entry w)
      as [[acc'|e] w1]; cbn [fst snd] in *; [|discriminate].
    destruct (Hscene acc' Hrows Hne eq_refl) as (r & new1 & Hr & -> & Ht1 & Hc1).
    destruct (IH _ w1 l Hall' Hl) as (rs & new2 & Hrs & -> & Ht2 & Hc2).
    exists (r :: rs), (new1 ++ new2). split; [|split; [|split]].
    + cbn [map]. constructor; assumption.
    + cbn [map]. now rewrite <- app_assoc.
    + now rewrite Ht2, Ht1, <- app_assoc.
    + rewrite calls_of_app, Hc1, Hc2. reflexivity.
Qed.

Lemma scene_slices_map (frames : list Frame) (boundaries : list nat) :
  scene_slices frames boundaries
  = map (slice_of frames boundaries) (enumerate boundaries).
Proof.
  unfold scene_slices. apply map_ext. now intros [i start_idx].
Qed.

(** A run without a callback on a video with frames, when it returns. *)
Lemma run_none_scenes (video_path : string) (decoded : list Frame)
    (hists : list (SceneDetector.hist num)) (w : world) (s : string) :
  VideoCapture video_path = Some decoded ->
  decoded <> [] ->
  mapM _histogram decoded = Ok hists ->
  one_row_per_frame ->
  fst (run' video_path None w) = Ok s ->
  exists boundaries rs new,
    SceneDetector.detect_scenes _histogram (SceneDetector.init Np.half 5)
      decoded = Ok boundaries /\
    Forall2 processed' (scene_slices decoded boundaries) rs /\
    summarize (map summary_of rs) = Ok s /\
    trace (snd (run' video_path None w)) = trace w ++ new /\
    calls_of new
    = flat_map scene_calls rs ++ [Summarize Frame (map summary_of rs)] /\
    progress_of new
    = [("parsing", 0%float); ("parsing", 1%float);
       ("scene_detection", 0%float); ("scene_detection", 1%float)]
      ++ flat_map (scene_progress (Nat.max 1 (length boundaries)))
           (seq 0 (length boundaries))
      ++ [("aggregation", 0%float); ("aggregation", 1%float);
          ("finished", 1%float)].
Proof.
  intros Hopen Hne Hh Hrows.
  destruct (SceneDetectorFacts.detect_scenes_scan _
              (SceneDetector.init Np.half 5) Hne Hh) as (Hd & Hhne & Hlen).
  destruct (ScenesFacts.scan_slices (SceneDetector.init Np.half 5)
              decoded Hhne Hlen) as [_ Hall].
  remember (SceneDetector.scan (SceneDetector.init Np.half 5) hists) as bs.
  unfold run, bind, try_except, lift, _cb, log, ret, VideoParser.frames,
    list_, VideoParser.frames_body. simpl.
  rewrite Hopen. simpl.
  change (Z.max 1 1) with 1%Z.
  rewrite (PipelineFacts.sample_every_frame decoded 0), Hd.
  match goal with
  | |- context [scenes _ _ _ None decoded bs ?w0] => remember w0 as w1
  end.
  assert (Htr1 : trace w1
                 = trace w
                   ++ [Progress Frame "parsing" 0%float "opening video";
                       Progress Frame "parsing" 1%float "done";
                       Progress Frame "scene_detection" 0%float
                         "collecting frames";
                       Progress Frame "scene_detection" 1%float
                         ("found " ++ str_nat (length bs) ++ " scene(s)")])
    by (subst w1; simpl; now rewrite <- !app_assoc).
  clear Heqw1. unfold scenes.
  pose proof (@for_each_scene_processed decoded bs (Nat.max 1 (length bs))
                (enumerate bs) Hrows [] w1) as Hloop.
  destruct (@PipelineFacts.scenes_progress_none _ _ Frame Sink
              _compute_embeddings caption_batch summarize
              (KeyframeSelector.mk None) decoded bs (Nat.max 1 (length bs))
              bs 0 [] w1) as (new' & Ht' & _ & Hp').
  fold (enumerate bs) in Ht', Hp'.
  destruct (for_each _ (enumerate bs) [] w1) as [[sms|e] w2];
    cbn [fst snd] in *; [|discriminate].
  assert (Hall' : Forall (fun entry => slice_of decoded bs entry <> [])
                    (enumerate bs)).
  { rewrite scene_slices_map in Hall. rewrite Forall_forall in *.
    intros entry Hentry. apply Hall.
    exact (in_map (slice_of decoded bs) _ _ Hentry). }
  destruct (Hloop sms Hall' eq_refl) as (rs & new & Hrs & -> & Ht & Hc).
  rewrite Ht in Ht'. apply app_inv_head in Ht'. subst new'.
  specialize (Hp' _ eq_refl). cbn [app].
  assert (Hrs_ne : rs <> []).
  { intros ->. inversion Hrs as [E|]. symmetry in E.
    apply map_eq_nil in E. unfold enumerate in E.
    destruct bs as [|b bs']; [|discriminate].
    destruct (SceneDetectorFacts.scan_spec (SceneDetector.init Np.half 5)
                Hhne) as (H0 & _).
    rewrite <- Heqbs in H0. discriminate. }
  unfold aggregation, bind, _cb, log, ret, lift, call_summarize. simpl.
  destruct (map summary_of rs) as [|sm sms] eqn:Esms.
  { apply map_eq_nil in Esms. congruence. }
  simpl. destruct (summarize (sm :: sms)) as [final|e] eqn:Efinal; simpl;
    [|discriminate].
  intros H. injection H as <-.
  exists bs, rs. eexists. rewrite !Esms. split; [reflexivity|].
  split; [now rewrite scene_slices_map|]. split; [exact Efinal|].
  split.
  - rewrite Ht, Htr1, <- !app_assoc. reflexivity.
  - split.
    + rewrite !calls_of_app, Hc. reflexivity.
    + rewrite !PipelineFacts.progress_of_app, Hp'. reflexivity.
Qed.

Local Abbreviation agree_run :=
  (@PipelineFacts.agree_run _ _ _ _ Frame Sink VideoCapture _histogram
     _compute_embeddings caption_batch summarize).

(** When [run] returns on a video with frames, what it returns is the
    summarizer's summary of the scene summaries, one per detected scene
    and in scene order, each the summary of the captions of between one
    and five frames of that scene. *)
Theorem run_summarises_every_scene (progress_callback : option callback)
    (video_path : string) (decoded : list Frame)
    (hists : list (SceneDetector.hist num)) (w : world) (s : string) :
  VideoCapture video_path = Some decoded ->
  decoded <> [] ->
  mapM _histogram decoded = Ok hists ->
  one_row_per_frame ->
  fst (run' video_path progress_callback w) = Ok s ->
  exists boundaries rs,
    SceneDetector.detect_scenes _histogram (SceneDetector.init Np.half 5)
      decoded = Ok boundaries /\
    Forall2 processed' (scene_slices decoded boundaries) rs /\
    summarize (map summary_of rs) = Ok s.
Proof.
  intros Hopen Hne Hh Hrows Hrun.
  destruct (agree_run progress_callback None video_path w w eq_refl)
    as [Hfst _].
  rewrite Hfst in Hrun.
  destruct (@run_none_scenes video_path decoded hists w s Hopen Hne Hh
              Hrows Hrun)
    as (bs & rs & new & Hd & Hrs & Hs & _).
  exists bs, rs. auto.
Qed.



(** *** The stages of a run *)

(** A run without a callback on a video that opens, once the boundaries
    are detected: the four events of the first two stages, then the
    scene stage, then the aggregation. *)
Lemma run_none_stages (video_path : string) (decoded : list Frame)
    (boundaries : list nat) (w : world) :
  VideoCapture video_path = Some decoded ->
  SceneDetector.detect_scenes _histogram (SceneDetector.init Np.half 5)
    decoded = Ok boundaries ->
  exists w1,
    run' video_path None w
    = bind (scenes _compute_embeddings caption_batch summarize None decoded
              boundaries)
           (aggregation summarize None) w1 /\
    progress_of (trace w1)
    = progress_of (trace w)
      ++ [("parsing", 0%float); ("parsing", 1%float);
          ("scene_detection", 0%float); ("scene_detection", 1%float)].
Proof.
  intros Hopen Hd. eexists. split.
  - unfold run, bind, try_except, lift, _cb, log, ret, VideoParser.frames,
      list_, VideoParser.frames_body. simpl.
    rewrite Hopen. simpl.
    change (Z.max 1 1) with 1%Z.
    rewrite (PipelineFacts.sample_every_frame decoded 0), Hd.
    reflexivity.
  - simpl. rewrite <- !app_assoc. rewrite PipelineFacts.progress_of_app.
    reflexivity.
Qed.

(** The aggregation reports its own stage, and [finished]. *)
Lemma aggregation_progress_none (scene_summaries : list string) (w : world) :
  exists new,
    trace (snd (aggregation summarize None scene_summaries w))
    = trace w ++ new /\
    Forall (fun ev : string * float =>
              fst ev = "aggregation" \/ fst ev = "finished")
      (progress_of new).
Proof.
  unfold aggregation, bind, _cb, log, ret, call_summarize, lift. simpl.
  destruct scene_summaries as [|x l]; simpl.
  - eexists. rewrite <- !app_assoc. split; [reflexivity|].
    repeat first [apply Forall_nil | apply Forall_cons; [simpl; auto|]].
  - destruct (summarize (x :: l)); simpl; eexists; rewrite <- ?app_assoc;
      (split; [reflexivity|]);
      repeat first [apply Forall_nil | apply Forall_cons; [simpl; auto|]].
Qed.

(** The progress events of a run, with any callback, on a video that
    opens and whose boundaries are detected: after the four events of
    the first two stages come the events of the scenes, in order and up
    to the point where the run ends, then those of the aggregation. *)
Lemma run_stage_events (progress_callback : option callback)
    (video_path : string) (decoded : list Frame) (boundaries : list nat)
    (w : world) :
  VideoCapture video_path = Some decoded ->
  SceneDetector.detect_scenes _histogram (SceneDetector.init Np.half 5)
    decoded = Ok boundaries ->
  exists scene_events later,
    progress_of (trace (snd (run' video_path progress_callback w)))
    = progress_of (trace w)
      ++ [("parsing", 0%float); ("parsing", 1%float);
          ("scene_detection", 0%float); ("scene_detection", 1%float)]
      ++ scene_events ++ later /\
    (exists rest,
       flat_map (scene_progress (Nat.max 1 (length boundaries)))
         (seq 0 (length boundaries))
       = scene_events ++ rest) /\
    (forall s, fst (run' video_path progress_callback w) = Ok s ->
       scene_events
       = flat_map (scene_progress (Nat.max 1 (length boundaries)))
           (seq 0 (length boundaries))) /\
    Forall (fun ev : string * float =>
              fst ev = "aggregation" \/ fst ev = "finished") later.
Proof.
  intros Hopen Hd.
  destruct (@PipelineFacts.agree_run _ _ _ _ Frame Sink VideoCapture
              _histogram _compute_embeddings caption_batch summarize
              progress_callback None video_path w w eq_refl) as [-> ->].
  destruct (run_none_stages w Hopen Hd) as (w1 & -> & Hw1).
  destruct (PipelineFacts.scenes_progress _compute_embeddings caption_batch
              summarize None decoded boundaries w1)
    as (new & Ht & Hpre & Hall).
  unfold bind.
  destruct (scenes _ _ _ None decoded boundaries w1) as [[l|e] w2];
    cbn [fst snd] in *.
  - destruct (aggregation_progress_none l w2) as (new2 & Ht2 & Hagg).
    exists (progress_of new), (progress_of new2).
    rewrite Ht2, Ht, !PipelineFacts.progress_of_app, Hw1, <- !app_assoc.
    split; [reflexivity|]. split; [exact Hpre|].
    split; [intros _ _; now apply (Hall l)|exact Hagg].
  - exists (progress_of new), [].
    rewrite Ht, !PipelineFacts.progress_of_app, Hw1, <- !app_assoc,
      app_nil_r.
    split; [reflexivity|]. split; [exact Hpre|].
    split; [discriminate|constructor].
Qed.

End Facts.

Lemma run_summarises_every_scene_witness :
  exists boundaries rs,
    SceneDetector.detect_scenes Demo._histogram
      (SceneDetector.init (1 # 2)%Q 5) Demo.two_colours = Ok boundaries /\
    Forall2 (processed Demo.caption_batch Demo.summarize)
      (scene_slices Demo.two_colours boundaries) rs /\
    Demo.summarize (map summary_of rs)
    = Ok "a test | a test | a test | a test | a test".
Proof.
  apply (@run_summarises_every_scene Q exact Q exact Demo.Frame nat Demo.VideoCapture
           Demo._histogram Demo._compute_embeddings Demo.caption_batch
           Demo.summarize (Some Demo.raising_callback) "demo.mp4"
           Demo.two_colours
           (repeat (Demo.channel 200 ++ Demo.channel 10 ++ Demo.channel 10) 4
            ++ repeat (Demo.channel 10 ++ Demo.channel 200 ++ Demo.channel 10)
                 4)
           Demo.w0).
  - reflexivity.
  - discriminate.
  - reflexivity.
  - exact PipelineFacts.demo_one_row_per_frame.
  - vm_compute. reflexivity.
Defined.



Section OnRgbFrames.
Context {emb : Type} {ar_emb : Np.arith emb}.
Variable Sink : Type.
Variable VideoCapture : string -> option (list Rgb.image).
Variable _compute_embeddings :
  list Rgb.image -> result (KeyframeSelector.matrix emb).
Variable caption_batch : list Rgb.image -> result (list string).
Variable summarize : list string -> result string.

(** With the histograms of the repository and the default detector the
    whole video is one scene: when [run] returns, at most five frames of
    the video were captioned, in one call, whatever its length, and the
    result is the summary of the summary of their captions. *)
Theorem run_captions_one_scene
    (progress_callback : option (Pipeline.callback Sink))
    (video_path : string) (decoded : list Rgb.image)
    (w : Pipeline.world Rgb.image Sink) (s : string) :
  VideoCapture video_path = Some decoded ->
  decoded <> [] ->
  Pipeline.one_row_per_frame _compute_embeddings ->
  fst (run VideoCapture (Rgb._histogram (ar := exact)) _compute_embeddings
         caption_batch summarize video_path progress_callback w) = Ok s ->
  exists keyframes captions scene_summary new,
    incl keyframes decoded /\
    1 <= length keyframes <= 5 /\
    caption_batch keyframes = Ok captions /\
    summarize captions = Ok scene_summary /\
    summarize [scene_summary] = Ok s /\
    trace (snd (run VideoCapture (Rgb._histogram (ar := exact))
                  _compute_embeddings caption_batch summarize video_path
                  progress_callback w))
    = trace w ++ new /\
    calls_of new = [CaptionBatch keyframes; Summarize Rgb.image captions;
                    Summarize Rgb.image [scene_summary]].
Proof.
  intros Hopen Hne Hrows Hrun.
  destruct (@PipelineFacts.agree_run Q exact emb ar_emb Rgb.image Sink
              VideoCapture Rgb._histogram _compute_embeddings caption_batch
              summarize progress_callback None video_path w w eq_refl)
    as [Hfst Htr].
  rewrite Hfst in Hrun. rewrite Htr.
  destruct (@run_none_scenes Q exact emb ar_emb Rgb.image Sink VideoCapture
              Rgb._histogram _compute_embeddings caption_batch summarize
              video_path decoded (map Rgb.histogram_of decoded) w s Hopen Hne
              (SceneDetectorMore.mapM_rgb_histogram exact decoded) Hrows
              Hrun)
    as (bs & rs & new & Hd & Hrs & Hs & Ht & Hc & _).
  destruct (SceneDetectorFacts.detect_scenes_scan _
              (SceneDetector.init (Np.half (arith := exact)) 5) Hne
              (SceneDetectorMore.mapM_rgb_histogram exact decoded))
    as (Hd' & _).
  rewrite Hd' in Hd.
  rewrite SceneDetectorMore.rgb_scan_single in Hd by (auto; reflexivity).
  injection Hd as <-.
  unfold scene_slices, enumerate, scene_end, slice in Hrs.
  cbn [length seq combine map Nat.ltb Nat.leb skipn] in Hrs.
  rewrite Nat.sub_0_r, firstn_all in Hrs.
  inversion Hrs as [|? r ? rs' Hr Hnil]; subst. inversion Hnil; subst.
  destruct r as [[keyframes captions] scene_summary].
  destruct Hr as (Hincl & Hcount & Hcap & Hsum).
  exists keyframes, captions, scene_summary, new.
  repeat (split; [assumption || lia|]). exact Hc.
Qed.

(** Without rounding, a run on RGB frames finds no scene change: the
    distance of two frames is 3/8 at most, below the threshold 0.5 of
    the default detector. *)
Lemma rgb_boundaries (decoded : list Rgb.image) :
  exists boundaries,
    SceneDetector.detect_scenes (Rgb._histogram (ar := exact))
      (SceneDetector.init Np.half 5) decoded = Ok boundaries /\
    length boundaries <= 1.
Proof.
  destruct decoded as [|f frames].
  - exists []. split; [reflexivity|simpl; lia].
  - assert (Hne : f :: frames <> []) by discriminate.
    destruct (SceneDetectorFacts.detect_scenes_scan _
                (SceneDetector.init (Np.half (arith := exact)) 5) Hne
                (SceneDetectorMore.mapM_rgb_histogram exact (f :: frames)))
      as (Hd & _).
    exists [0]. split; [|simpl; lia]. rewrite Hd. f_equal.
    apply SceneDetectorMore.rgb_scan_single; [exact Hne|reflexivity].
Qed.

End OnRgbFrames.

Lemma rgb_demo_one_row_per_frame :
  Pipeline.one_row_per_frame RgbDemo._compute_embeddings.
Proof.
  intros frames embs H. injection H as <-. apply length_map.
Qed.

Lemma run_captions_one_scene_witness :
  exists keyframes captions scene_summary,
    incl keyframes RgbDemo.cut /\
    1 <= length keyframes <= 5 /\
    RgbDemo.caption_batch keyframes = Ok captions /\
    RgbDemo.summarize captions = Ok scene_summary /\
    RgbDemo.summarize [scene_summary]
    = Ok "a frame | a frame | a frame | a frame | a frame".
Proof.
  destruct (@run_captions_one_scene Q exact nat RgbDemo.VideoCapture
              RgbDemo._compute_embeddings RgbDemo.caption_batch
              RgbDemo.summarize None "cut.mp4" RgbDemo.cut RgbDemo.w0
              "a frame | a frame | a frame | a frame | a frame")
    as (keyframes & captions & scene_summary & new & H).
  - reflexivity.
  - discriminate.
  - exact rgb_demo_one_row_per_frame.
  - vm_compute. reflexivity.
  - exists keyframes, captions, scene_summary. tauto.
Defined.

(** With up to four scenes the binary64 percents are as the
    specification has them. *)
Lemma few_scenes_percents (n i : nat) :
  n <= 4 -> i < n -> percents_in_order (Nat.max 1 n) i.
Proof.
  intros Hn Hi.
  destruct n as [|[|[|[|[|n]]]]]; try lia;
    destruct i as [|[|[|[|i]]]]; try lia;
    repeat split; vm_compute; reflexivity.
Qed.



(** The progress events of that run; they are the same when the
    histograms are computed in binary64. *)
Example run_cut_progress :
  progress_of (trace (snd (RgbDemo.run exact "cut.mp4" None)))
  = [("parsing", 0%float); ("parsing", 1%float);
     ("scene_detection", 0%float); ("scene_detection", 1%float);
     ("scene_0_start", 0%float); ("scene_0_done", 1%float);
     ("aggregation", 0%float); ("aggregation", 1%float);
     ("finished", 1%float)] /\
  progress_of (trace (snd (RgbDemo.run binary64 "cut.mp4" None)))
  = progress_of (trace (snd (RgbDemo.run exact "cut.mp4" None))).
Proof. split; vm_compute; reflexivity. Qed.

End RunFacts.

(** ** Chunks *)

Module HelpersFacts.
Import Helpers ListFacts.

Section Chunks.
Variable A : Type.

(** Filling a chunk that holds fewer than [size] items. *)
Lemma chunked_loop_fill (size : Z) (iterable : list A) :
  forall buf,
    (Z.of_nat (length buf) < size)%Z ->
    chunked_loop size buf iterable
    = if (Z.of_nat (length buf + length iterable) <? size)%Z
      then match buf ++ iterable with [] => [] | _ :: _ => [buf ++ iterable] end
      else firstn (Z.to_nat size) (buf ++ iterable)
           :: chunked_loop size [] (skipn (Z.to_nat size) (buf ++ iterable)).
Proof.
  induction iterable as [|item rest IH]; intros buf Hbuf.
  - cbn [chunked_loop length]. rewrite Nat.add_0_r, app_nil_r.
    destruct (Z.ltb_spec (Z.of_nat (length buf)) size); [reflexivity|lia].
  - cbn [chunked_loop]. cbv zeta.
    assert (Hlen : length (buf ++ [item]) = S (length buf))
      by (rewrite length_app; simpl; lia).
    assert (Happ : buf ++ item :: rest = (buf ++ [item]) ++ rest)
      by (now rewrite <- app_assoc).
    destruct (Z.geb_spec (Z.of_nat (length (buf ++ [item]))) size)
      as [Hfull|Hroom].
    + cbn [length].
      destruct (Z.ltb_spec (Z.of_nat (length buf + S (length rest))) size);
        [lia|].
      assert (Hs : Z.to_nat size = length (buf ++ [item])) by lia.
      rewrite Happ, Hs.
      rewrite firstn_app, Nat.sub_diag, firstn_O, app_nil_r, firstn_all.
      rewrite skipn_app, Nat.sub_diag, skipn_O, skipn_all. reflexivity.
    + rewrite (IH (buf ++ [item])) by lia.
      rewrite Hlen, <- Happ. cbn [length].
      replace (S (length buf) + length rest)
        with (length buf + S (length rest)) by lia.
      reflexivity.
Qed.

(** From an empty chunk: the first [size] items, then the rest. *)
Lemma chunked_unfold (size : Z) (iterable : list A) :
  (1 <= size)%Z ->
  chunked iterable size
  = match iterable with
    | [] => []
    | _ :: _ =>
        firstn (Z.to_nat size) iterable
        :: chunked (skipn (Z.to_nat size) iterable) size
    end.
Proof.
  intros Hsize. unfold chunked.
  rewrite chunked_loop_fill by (simpl; lia). cbn [app length Nat.add].
  destruct (Z.ltb_spec (Z.of_nat (length iterable)) size) as [Hshort|Hlong].
  - destruct iterable as [|item rest]; [reflexivity|].
    rewrite firstn_all2, skipn_all2 by lia. reflexivity.
  - destruct iterable as [|item rest]; [simpl in Hlong; lia|reflexivity].
Qed.

Lemma chunked_slices (size : Z) :
  (1 <= size)%Z ->
  forall (n : nat) (iterable : list A),
    length iterable <= n ->
    length (chunked iterable size)
    = (length iterable + Z.to_nat size - 1) / Z.to_nat size /\
    forall k, k < length (chunked iterable size) ->
      nth k (chunked iterable size) []
      = slice iterable (k * Z.to_nat size) (k * Z.to_nat size + Z.to_nat size).
Proof.
  intros Hsize.
  assert (Hs : 1 <= Z.to_nat size) by lia.
  induction n as [|n IH]; intros iterable Hn.
  - destruct iterable; [|simpl in Hn; lia].
    rewrite chunked_unfold by exact Hsize. cbn [length].
    split; [|intros k Hk; lia].
    symmetry. apply Nat.div_small. lia.
  - rewrite chunked_unfold by exact Hsize.
    destruct iterable as [|item rest] eqn:E.
    + cbn [length]. split; [|intros k Hk; lia].
      symmetry. apply Nat.div_small. lia.
    + rewrite <- E in *.
      assert (Hpos : 1 <= length iterable) by (subst; simpl; lia).
      destruct (IH (skipn (Z.to_nat size) iterable)) as [Hlen Hnth].
      { rewrite length_skipn. lia. }
      cbn [length]. rewrite Hlen, length_skipn. split.
      * destruct (Nat.le_gt_cases (Z.to_nat size) (length iterable))
          as [Hge|Hlt].
        -- replace (length iterable + Z.to_nat size - 1)
             with ((length iterable - Z.to_nat size + Z.to_nat size - 1)
                   + 1 * Z.to_nat size) by lia.
           rewrite Nat.div_add by lia. lia.
        -- replace (length iterable - Z.to_nat size) with 0 by lia.
           rewrite (Nat.div_small (0 + Z.to_nat size - 1)) by lia.
           apply (Nat.div_unique _ _ 1 (length iterable - 1)); lia.
      * intros [|k] Hk.
        -- cbn [nth]. unfold slice. cbn [Nat.mul Nat.add skipn].
           now rewrite Nat.sub_0_r.
        -- cbn [nth]. rewrite Hnth.
           ++ unfold slice. rewrite skipn_skipn.
              replace (k * Z.to_nat size + Z.to_nat size - k * Z.to_nat size)
                with (Z.to_nat size) by lia.
              replace (S k * Z.to_nat size + Z.to_nat size
                       - S k * Z.to_nat size) with (Z.to_nat size) by lia.
              replace (k * Z.to_nat size + Z.to_nat size)
                with (S k * Z.to_nat size) by lia.
              reflexivity.
           ++ rewrite Hlen, length_skipn. lia.
Qed.

(** [chunked] with [size >= 1] cuts the items into
    [ceil(n / size)] consecutive slices: chunk [k] is
    [items[k*size : k*size + size]]. *)
Theorem chunked_yields_slices (iterable : list A) (size : Z) :
  (1 <= size)%Z ->
  length (chunked iterable size)
  = (length iterable + Z.to_nat size - 1) / Z.to_nat size /\
  forall k, k < length (chunked iterable size) ->
    nth k (chunked iterable size) []
    = slice iterable (k * Z.to_nat size) (k * Z.to_nat size + Z.to_nat size).
Proof.
  intros Hsize. now apply (chunked_slices Hsize (n := length iterable)).
Qed.

Lemma chunked_loop_concat (size : Z) (iterable : list A) :
  forall buf,
    concat (chunked_loop size buf iterable) = buf ++ iterable /\
    Forall (fun chunk => chunk <> []) (chunked_loop size buf iterable).
Proof.
  induction iterable as [|item rest IH]; intros buf.
  - cbn [chunked_loop]. destruct buf as [|b buf].
    + split; [reflexivity|constructor].
    + cbn [concat]. rewrite !app_nil_r. split; [reflexivity|].
      constructor; [discriminate|constructor].
  - cbn [chunked_loop]. cbv zeta.
    destruct (Z.of_nat (length (buf ++ [item])) >=? size)%Z.
    + destruct (IH []) as [Hcat Hne]. cbn [concat]. rewrite Hcat.
      split; [now rewrite <- app_assoc|].
      constructor; [|exact Hne]. destruct buf; discriminate.
    + destruct (IH (buf ++ [item])) as [Hcat Hne].
      split; [now rewrite Hcat, <- app_assoc|exact Hne].
Qed.

(** Whatever [size] is, zero and negative sizes included, [chunked]
    loses nothing and invents nothing: the chunks, put end to end, are
    the items in their order, and no chunk is empty. *)
Theorem chunked_keeps_every_item (iterable : list A) (size : Z) :
  concat (chunked iterable size) = iterable /\
  Forall (fun chunk => chunk <> []) (chunked iterable size).
Proof. apply (chunked_loop_concat size iterable []). Qed.

(** A size of one or less, zero and negative sizes included, does not
    raise: every item is yielded as a chunk of its own. *)
Theorem chunked_small_size (iterable : list A) (size : Z) :
  (size <= 1)%Z ->
  chunked iterable size = map (fun item => [item]) iterable.
Proof.
  intros Hsize. unfold chunked.
  induction iterable as [|item rest IH]; [reflexivity|].
  cbn [chunked_loop app length map]. cbv zeta.
  destruct (Z.geb_spec (Z.of_nat 1) size); [|lia].
  now rewrite IH.
Qed.

End Chunks.

Lemma chunked_yields_slices_witness :
  length (chunked [1; 2; 3; 4; 5; 6; 7] 3) = 3 /\
  nth 2 (chunked [1; 2; 3; 4; 5; 6; 7] 3) [] = [7].
Proof.
  destruct (@chunked_yields_slices nat [1; 2; 3; 4; 5; 6; 7] 3 ltac:(lia))
    as [Hlen Hnth].
  split; [exact Hlen|]. apply (Hnth 2). rewrite Hlen. simpl. lia.
Defined.

Lemma chunked_small_size_witness :
  chunked ["a"; "b"; "c"] (-2) = [["a"]; ["b"]; ["c"]].
Proof. apply (@chunked_small_size string ["a"; "b"; "c"] (-2)). lia. Defined.

End HelpersFacts.

(** ** Embeddings *)

Module ClipFacts.
Import KeyframeSelector Clip ListFacts Arith.

Section Facts.
Context {A : Type} {ar : Np.arith A}.
Variable Frame : Type.
Variable Tensor : Type.
Variable _load : result bool.
Variable is_ndarray : Frame -> bool.
Variable _oc_preprocess : Frame -> result Tensor.
Variable encode_image : list Tensor -> result (matrix A).
Variable get_image_features : list Frame -> result (matrix A).
Variable linalg_norm : vec A -> A.

Local Abbreviation _compute_embeddings' :=
  (_compute_embeddings _load is_ndarray _oc_preprocess encode_image
     get_image_features linalg_norm).

(** The batching loop is [chunked(frames, 16)]. *)
Lemma batches_chunked (frames : list Frame) :
  batches frames = Helpers.chunked frames 16.
Proof.
  destruct (@HelpersFacts.chunked_slices Frame 16 ltac:(lia)
              (length frames) frames (le_n _)) as [Hlen Hnth].
  change (Z.to_nat 16) with 16 in *.
  assert (Hb : length (batches frames) = (length frames + 16 - 1) / 16).
  { unfold batches, range. rewrite !length_map, length_seq.
    now rewrite Nat.sub_0_r. }
  apply (nth_ext _ _ [] []); [now rewrite Hb, Hlen|].
  intros k Hk. rewrite Hnth by (rewrite Hlen, <- Hb; exact Hk).
  unfold batches, range.
  rewrite Hb in Hk.
  rewrite (nth_map_in (fun i => slice frames i (i + batch_size)) 0 [])
    by (rewrite length_map, length_seq, Nat.sub_0_r; exact Hk).
  rewrite (nth_map_in (fun j => 0 + j * batch_size) 0 0)
    by (rewrite length_seq, Nat.sub_0_r; exact Hk).
  rewrite seq_nth by (rewrite Nat.sub_0_r; exact Hk).
  reflexivity.
Qed.

Lemma concat_batches (frames : list Frame) :
  concat (batches frames) = frames.
Proof.
  rewrite batches_chunked.
  apply (HelpersFacts.chunked_loop_concat 16 frames []).
Qed.

(** Every batch handed to the model holds between 1 and 16 frames, and
    the batches, put end to end, are the frames in their order. *)
Theorem batches_cover_the_frames (frames : list Frame) :
  concat (batches frames) = frames /\
  Forall (fun batch => 1 <= length batch <= 16) (batches frames).
Proof.
  split; [apply concat_batches|].
  rewrite batches_chunked.
  destruct (HelpersFacts.chunked_loop_concat 16 frames []) as [_ Hne].
  fold (Helpers.chunked frames 16) in Hne.
  destruct (@HelpersFacts.chunked_slices Frame 16 ltac:(lia)
              (length frames) frames (le_n _)) as [_ Hnth].
  change (Z.to_nat 16) with 16 in Hnth.
  apply Forall_forall. intros batch Hin.
  rewrite Forall_forall in Hne. pose proof (Hne _ Hin) as Hbatch.
  destruct (In_nth _ _ [] Hin) as (k & Hk & <-).
  split.
  - destruct (nth k (Helpers.chunked frames 16) []); [congruence|simpl; lia].
  - rewrite (Hnth k Hk). unfold slice. rewrite length_firstn. lia.
Qed.

Lemma mapM_rows (batch_list : list (list Frame)) :
  (forall batch feats,
     get_image_features batch = Ok feats -> length feats = length batch) ->
  forall batch_embeddings,
    mapM get_image_features batch_list = Ok batch_embeddings ->
    length (concat batch_embeddings) = length (concat batch_list).
Proof.
  intros Hrows.
  induction batch_list as [|batch batch_list IH]; simpl;
    intros batch_embeddings H.
  - now injection H as <-.
  - destruct (get_image_features batch) as [feats|e] eqn:E; simpl in H;
      [|discriminate].
    destruct (mapM get_image_features batch_list) as [rest|e]; simpl in H;
      [|discriminate].
    injection H as <-. simpl. rewrite !length_app.
    now rewrite (Hrows _ _ E), (IH rest).
Qed.

Lemma length_l2_normalize (embs : matrix A) :
  length (l2_normalize linalg_norm embs) = length embs.
Proof. apply length_map. Qed.

(** When the models return one feature row per image they are given,
    [_compute_embeddings] returns one row per frame, on either path. *)
Theorem compute_embeddings_one_row_per_frame :
  (forall batch feats,
     get_image_features batch = Ok feats -> length feats = length batch) ->
  (forall tensors feats,
     encode_image tensors = Ok feats -> length feats = length tensors) ->
  Pipeline.one_row_per_frame _compute_embeddings'.
Proof.
  intros Hfeat Henc frames embs. unfold _compute_embeddings.
  destruct _load as [[|]|e]; simpl; [| |discriminate].
  - destruct (mapM _ frames) as [tensors|e] eqn:Et; simpl; [|discriminate].
    destruct (encode_image tensors) as [feats|e] eqn:Ef; simpl;
      [|discriminate].
    intros H. injection H as <-.
    now rewrite length_l2_normalize, (Henc _ _ Ef), (mapM_length _ _ Et).
  - destruct (mapM _ (batches frames)) as [batch_embeddings|e] eqn:Eb;
      simpl; [|discriminate].
    unfold np_vstack.
    destruct batch_embeddings as [|first rest]; simpl; [discriminate|].
    destruct (forallb _ rest); simpl; [|discriminate].
    intros H. injection H as <-.
    rewrite length_l2_normalize.
    change (first ++ concat rest) with (concat (first :: rest)).
    rewrite (mapM_rows _ Hfeat Eb).
    now rewrite concat_batches.
Qed.

Lemma mapM_preprocess_raises (frames : list Frame) :
  Exists (fun f => is_ndarray f = true) frames ->
  exists e,
    mapM (preprocess_frame is_ndarray _oc_preprocess) frames = Raise e /\
    ((forall f, In f frames -> exists tensor, _oc_preprocess f = Ok tensor) ->
     e = NameError "name 'Image' is not defined").
Proof.
  induction frames as [|f rest IH]; intros Hex; [inversion Hex|].
  cbn [mapM]. unfold preprocess_frame at 1.
  destruct (is_ndarray f) eqn:Hf.
  - eexists. split; [reflexivity|auto].
  - destruct (_oc_preprocess f) as [tensor|e] eqn:Hp.
    + destruct IH as (e & -> & He).
      { inversion Hex; subst; [congruence|assumption]. }
      exists e. split; [reflexivity|].
      intros Hall. apply He. intros g Hg. apply Hall. now right.
    + exists e. split; [reflexivity|].
      intros Hall. destruct (Hall f (or_introl eq_refl)) as [tensor Ht].
      congruence.
Qed.

(** With open_clip, a frame that is a numpy array is never embedded:
    [_compute_embeddings] raises, and what it raises is the [NameError]
    of the missing import of [Image] when the preprocessing itself does
    not fail. *)
Theorem open_clip_rejects_arrays (frames : list Frame) :
  _load = Ok true ->
  Exists (fun f => is_ndarray f = true) frames ->
  exists e,
    _compute_embeddings' frames = Raise e /\
    ((forall f, In f frames -> exists tensor, _oc_preprocess f = Ok tensor) ->
     e = NameError "name 'Image' is not defined").
Proof.
  intros Hload Hex. unfold _compute_embeddings. rewrite Hload.
  destruct (mapM_preprocess_raises Hex) as (e & He & Hname).
  exists e. simpl. rewrite He. simpl. auto.
Qed.

End Facts.

Lemma open_clip_rejects_arrays_witness :
  exists e,
    _compute_embeddings (Ok true) Nat.even (fun f => Ok f)
      (fun tensors : list nat => Ok (map (fun _ => [1%Q]) tensors))
      (fun batch : list nat => Ok (map (fun _ => [1%Q]) batch))
      (fun _ => 1%Q) [1; 2; 3] = Raise e.
Proof.
  destruct (@open_clip_rejects_arrays Q exact nat nat (Ok true) Nat.even
              (fun f => Ok f)
              (fun tensors : list nat => Ok (map (fun _ => [1%Q]) tensors))
              (fun batch : list nat => Ok (map (fun _ => [1%Q]) batch))
              (fun _ => 1%Q) [1; 2; 3] eq_refl) as (e & He & _).
  - right. left. reflexivity.
  - exists e. exact He.
Defined.

Lemma compute_embeddings_one_row_per_frame_witness :
  exists embs,
    _compute_embeddings (Ok false) (fun _ : nat => false)
      (fun f => Ok f)
      (fun tensors : list nat => Ok (map (fun _ => [1%Q]) tensors))
      (fun batch : list nat => Ok (map (fun _ => [3%Q; 4%Q]) batch))
      (fun _ => 5%Q) (seq 0 40) = Ok embs /\
    length embs = 40.
Proof.
  eexists. split; [reflexivity|].
  apply (@compute_embeddings_one_row_per_frame Q exact nat nat (Ok false)
           (fun _ => false) (fun f => Ok f)
           (fun tensors => Ok (map (fun _ => [1%Q]) tensors))
           (fun batch => Ok (map (fun _ => [3%Q; 4%Q]) batch))
           (fun _ => 5%Q)
           (fun batch feats H =>
              eq_trans (f_equal (@length _) (eq_sym (f_equal
                (fun r => match r with Ok m => m | Raise _ => [] end) H)))
                (length_map _ batch))
           (fun tensors feats H =>
              eq_trans (f_equal (@length _) (eq_sym (f_equal
                (fun r => match r with Ok m => m | Raise _ => [] end) H)))
                (length_map _ tensors))
           (seq 0 40)).
  reflexivity.
Defined.

End ClipFacts.

(** ** The command line *)

Module CliFacts.
Import Pipeline Cli Arith.

Section Facts.
Context {num : Type} {ar : Np.arith num}.
Context {emb : Type} {ar_emb : Np.arith emb}.
Variable Frame : Type.
Variable Sink : Type.
Variable VideoCapture : string -> option (list Frame).
Variable _histogram : Frame -> result (SceneDetector.hist num).
Variable _compute_embeddings :
  list Frame -> result (KeyframeSelector.matrix emb).
Variable caption_batch : list Frame -> result (list string).
Variable summarize : list string -> result string.
Variable subprocess_run : result completed_process.
Variable launch : result unit.
Variable strip : string -> string.

Local Abbreviation main' :=
  (main (Sink := Sink) VideoCapture _histogram _compute_embeddings
     caption_batch summarize subprocess_run launch strip).

(** With [--gui], [main] returns whatever the Tk check and the GUI do:
    no exception leaves it, it does not run its own pipeline, and
    [--input] is ignored. *)
Theorem main_gui_returns (a : args) (st : state Frame Sink) :
  gui a = true ->
  fst (main' a st) = Returned /\
  pipeline_world (snd (main' a st)) = pipeline_world st /\
  snd (main' a st) = snd (main' (mk_args None true) st).
Proof.
  intros Hgui. unfold main. rewrite Hgui. cbn [gui fst snd].
  split; [reflexivity|]. split; [|reflexivity].
  unfold gui_branch.
  destruct subprocess_run as [proc|e]; [|reflexivity].
  destruct (negb (returncode proc =? 0)%Z).
  - destruct (negb (String.eqb (stdout proc) ""));
      destruct (negb (String.eqb (stderr proc) "")); reflexivity.
  - destruct launch; reflexivity.
Qed.

(** Without [--gui], on a path that cannot be opened as a video, the
    [IOError] of the frame generator leaves [main]: nothing is printed,
    not even the error string of the pipeline. *)
Theorem main_unopenable_video_raises (a : args) (video_path : string)
    (st : state Frame Sink) :
  gui a = false ->
  input a = Some video_path ->
  video_path <> "" ->
  VideoCapture video_path = None ->
  fst (main' a st)
  = Raised (IOError ("Failed to open video source: " ++ video_path)) /\
  printed (snd (main' a st)) = printed st.
Proof.
  intros Hgui Hinput Hpath Hopen. unfold main, truthy.
  rewrite Hgui, Hinput.
  destruct (String.eqb_spec video_path ""); [congruence|]. cbn [negb].
  unfold run, bind, try_except, lift, _cb, log, ret, VideoParser.frames,
    list_, VideoParser.frames_body. simpl.
  rewrite Hopen. simpl. split; reflexivity.
Qed.

End Facts.

Lemma main_gui_returns_witness :
  fst (main Demo.VideoCapture Demo._histogram Demo._compute_embeddings
         Demo.caption_batch Demo.summarize
         (Ok (mk_completed 1 "" "tk init failed")) (Ok tt) (fun s => s)
         (mk_args (Some "demo.mp4") true) (mk_state Demo.w0 []))
  = Returned.
Proof.
  apply (@main_gui_returns Q exact Q exact Demo.Frame nat Demo.VideoCapture Demo._histogram
           Demo._compute_embeddings Demo.caption_batch Demo.summarize
           (Ok (mk_completed 1 "" "tk init failed")) (Ok tt) (fun s => s)
           (mk_args (Some "demo.mp4") true) (mk_state Demo.w0 []) eq_refl).
Defined.

Lemma main_unopenable_video_raises_witness :
  fst (main Demo.VideoCapture Demo._histogram Demo._compute_embeddings
         Demo.caption_batch Demo.summarize
         (Ok (mk_completed 0 "OK" "")) (Ok tt) (fun s => s)
         (mk_args (Some "notes.txt") false) (mk_state Demo.w0 []))
  = Raised (IOError "Failed to open video source: notes.txt").
Proof.
  apply (@main_unopenable_video_raises Q exact Q exact Demo.Frame nat Demo.VideoCapture
           Demo._histogram Demo._compute_embeddings Demo.caption_batch
           Demo.summarize (Ok (mk_completed 0 "OK" "")) (Ok tt) (fun s => s)
           (mk_args (Some "notes.txt") false) "notes.txt"
           (mk_state Demo.w0 []) eq_refl eq_refl).
  - discriminate.
  - reflexivity.
Defined.

End CliFacts.

(** ** The worker thread of the GUI *)

Module GuiFacts.
Import Pipeline Gui Arith.

Section Facts.
Context {num : Type} {ar : Np.arith num}.
Context {emb : Type} {ar_emb : Np.arith emb}.
Variable Frame : Type.
Variable VideoCapture : string -> option (list Frame).
Variable _histogram : Frame -> result (SceneDetector.hist num).
Variable _compute_embeddings :
  list Frame -> result (KeyframeSelector.matrix emb).
Variable caption_batch : list Frame -> result (list string).
Variable summarize : list string -> result string.
Variable after : list ui_call -> ui_call -> result unit * list ui_call.

(** Scheduling a call on the main loop succeeds and appends it to the
    queue. *)
Hypothesis after_enqueues :
  forall queue call, after queue call = (Ok tt, queue ++ [call]).

Local Abbreviation M := (Pipeline.M Frame (list ui_call)).
Local Abbreviation tracks := (@Gui.tracks Frame _).
Local Abbreviation cb := (Some (progress_cb after)).

Lemma ui_of_app (tr1 tr2 : list (action Frame)) :
  ui_of (tr1 ++ tr2) = ui_of tr1 ++ ui_of tr2.
Proof. apply flat_map_app. Qed.

Lemma tracks_ret A (a : A) : tracks (ret a).
Proof. intros w. exists []. simpl. now rewrite !app_nil_r. Qed.

Lemma tracks_lift A (r : result A) : tracks (lift r).
Proof. intros w. exists []. simpl. now rewrite !app_nil_r. Qed.

Lemma tracks_bind A B (c : M A) (k : A -> M B) :
  tracks c -> (forall a, tracks (k a)) -> tracks (bind c k).
Proof.
  intros Hc Hk w. unfold bind. destruct (Hc w) as (new1 & Ht1 & Hs1).
  destruct (c w) as [[a|e] w1]; cbn [fst snd] in *.
  - destruct (Hk a w1) as (new2 & Ht2 & Hs2). exists (new1 ++ new2).
    rewrite Ht2, Hs2, Ht1, Hs1, ui_of_app, <- !app_assoc. auto.
  - exists new1. auto.
Qed.

Lemma tracks_try_except A B (c : M A) (h : exn -> M B) (k : A -> M B) :
  tracks c -> (forall e, tracks (h e)) -> (forall a, tracks (k a)) ->
  tracks (try_except c h k).
Proof.
  intros Hc Hh Hk w. unfold try_except.
  destruct (Hc w) as (new1 & Ht1 & Hs1).
  destruct (c w) as [[a|e] w1]; cbn [fst snd] in *.
  - destruct (Hk a w1) as (new2 & Ht2 & Hs2). exists (new1 ++ new2).
    rewrite Ht2, Hs2, Ht1, Hs1, ui_of_app, <- !app_assoc. auto.
  - destruct (Hh e w1) as (new2 & Ht2 & Hs2). exists (new1 ++ new2).
    rewrite Ht2, Hs2, Ht1, Hs1, ui_of_app, <- !app_assoc. auto.
Qed.

Lemma tracks_cb (stage : string) (percent : float) (message : string) :
  tracks (_cb cb stage percent message).
Proof.
  intros w. exists [Progress Frame stage percent message].
  unfold _cb, bind, log, try_except, call_sink, progress_cb, ret.
  cbn [fst snd sink trace]. rewrite after_enqueues. simpl. auto.
Qed.

Lemma tracks_call_caption (images : list Frame) :
  tracks (call_caption caption_batch images).
Proof.
  intros w. exists [CaptionBatch images].
  unfold call_caption, bind, log, lift. simpl. now rewrite app_nil_r.
Qed.

Lemma tracks_call_summarize (texts : list string) :
  tracks (call_summarize (Frame := Frame) summarize texts).
Proof.
  intros w. exists [Summarize Frame texts].
  unfold call_summarize, bind, log, lift. simpl. now rewrite app_nil_r.
Qed.

Lemma tracks_for_each A B (body : B -> A -> M B) (l : list A) :
  (forall acc x, tracks (body acc x)) ->
  forall acc, tracks (for_each body l acc).
Proof.
  intros Hbody. induction l as [|x l IH]; intros acc; simpl.
  - apply tracks_ret.
  - apply tracks_bind; [apply Hbody|exact IH].
Qed.

Lemma tracks_scene (selector : KeyframeSelector.t) (frames : list Frame)
    (boundaries : list nat) (total_scenes : nat)
    (scene_summaries : list string) (entry : nat * nat) :
  tracks (scene _compute_embeddings caption_batch summarize cb selector
            frames boundaries total_scenes scene_summaries entry).
Proof.
  destruct entry as [i start_idx]. unfold scene.
  apply tracks_bind; [apply tracks_cb|intros _].
  destruct (slice frames start_idx _) as [|f rest].
  - apply tracks_bind; [apply tracks_cb|intros _; apply tracks_ret].
  - apply tracks_bind; [apply tracks_lift|intros keyframes].
    apply tracks_bind; [apply tracks_call_caption|intros captions].
    apply tracks_bind; [apply tracks_call_summarize|intros scene_summary].
    apply tracks_bind; [apply tracks_cb|intros _; apply tracks_ret].
Qed.

Lemma tracks_aggregation (scene_summaries : list string) :
  tracks (aggregation (Frame := Frame) summarize cb scene_summaries).
Proof.
  unfold aggregation. apply tracks_bind; [apply tracks_cb|intros _].
  destruct scene_summaries as [|s rest].
  - apply tracks_bind; [apply tracks_cb|intros _; apply tracks_ret].
  - apply tracks_bind; [apply tracks_call_summarize|intros final].
    apply tracks_bind; [apply tracks_cb|intros _].
    apply tracks_bind; [apply tracks_cb|intros _; apply tracks_ret].
Qed.

Lemma tracks_run (path : string) :
  tracks (run VideoCapture _histogram _compute_embeddings caption_batch
            summarize path cb).
Proof.
  unfold run. apply tracks_bind; [apply tracks_cb|intros _].
  apply tracks_try_except; [apply tracks_lift| |].
  - intros e. apply tracks_bind; [apply tracks_cb|intros _; apply tracks_ret].
  - intros frames_iterator.
    apply tracks_bind; [apply tracks_cb|intros _].
    apply tracks_bind; [apply tracks_cb|intros _].
    apply tracks_bind; [apply tracks_lift|intros frames].
    apply tracks_try_except; [apply tracks_lift| |].
    + intros e.
      apply tracks_bind; [apply tracks_cb|intros _; apply tracks_ret].
    + intros boundaries.
      apply tracks_bind; [apply tracks_cb|intros _].
      apply tracks_bind; [|intros; apply tracks_aggregation].
      unfold scenes. apply tracks_for_each. intros acc x.
      apply tracks_scene.
Qed.

(** The worker thread hands to the main loop every progress event of
    the run, in order and with its message, and then, once, the outcome:
    the string [run] returned, or the text of the exception that left
    it.  No exception leaves the thread. *)
Theorem worker_reports_to_main_loop (path : string)
    (w : world Frame (list ui_call)) :
  exists new,
    fst (worker VideoCapture _histogram _compute_embeddings caption_batch
           summarize after path w) = Ok tt /\
    trace (snd (run VideoCapture _histogram _compute_embeddings
                  caption_batch summarize path cb w)) = trace w ++ new /\
    sink (snd (worker VideoCapture _histogram _compute_embeddings
                 caption_batch summarize after path w))
    = sink w ++ ui_of new
      ++ [Done match fst (run VideoCapture _histogram _compute_embeddings
                            caption_batch summarize path cb w) with
               | Ok res => res
               | Raise e => "[Error running pipeline] " ++ str_exn e
               end%string].
Proof.
  destruct (tracks_run path w) as (new & Ht & Hs).
  exists new. unfold worker.
  destruct (run _ _ _ _ _ path cb w) as [r w1]; cbn [fst snd] in *.
  rewrite after_enqueues. cbn [fst snd sink trace].
  rewrite Hs, <- app_assoc. auto.
Qed.

End Facts.

Lemma worker_reports_to_main_loop_witness :
  sink (snd (worker Demo.VideoCapture Demo._histogram
               Demo._compute_embeddings Demo.caption_batch Demo.summarize
               (fun queue call => (Ok tt, queue ++ [call])) "notes.txt"
               (mk_world [] [])))
  = [UpdateProgress "parsing" 0 "opening video";
     UpdateProgress "parsing" 1 "done";
     UpdateProgress "scene_detection" 0 "collecting frames";
     Done "[Error running pipeline] Failed to open video source: notes.txt"].
Proof.
  destruct (@worker_reports_to_main_loop Q exact Q exact Demo.Frame
              Demo.VideoCapture
              Demo._histogram Demo._compute_embeddings Demo.caption_batch
              Demo.summarize (fun queue call => (Ok tt, queue ++ [call]))
              (fun _ _ => eq_refl) "notes.txt" (mk_world [] []))
    as (new & _ & Ht & Hs).
  rewrite Hs. vm_compute in Ht. subst new. reflexivity.
Defined.

End GuiFacts.

(** ** The calls of a run *)

Module CallsFacts.
Import Pipeline Calls ListFacts Arith.

Section Facts.
Context {num : Type} {ar : Np.arith num}.
Context {emb : Type} {ar_emb : Np.arith emb}.
Variable Frame : Type.
Variable Sink : Type.
Variable VideoCapture : string -> option (list Frame).
Variable _histogram : Frame -> result (SceneDetector.hist num).
Variable _compute_embeddings :
  list Frame -> result (KeyframeSelector.matrix emb).
Variable caption : Frame -> result string.
Variable summarize : list string -> result string.

Local Abbreviation M := (Pipeline.M Frame Sink).
Local Abbreviation callback := (Pipeline.callback Sink).
Local Abbreviation within_bounds := (@Calls.within_bounds Frame Sink _).
Local Abbreviation caption_batch := (VisionCaptioner.caption_batch caption).

Lemma within_bounds_ret A (a : A) : within_bounds (ret a).
Proof. intros w. exists []. simpl. now rewrite app_nil_r. Qed.

Lemma within_bounds_lift A (r : result A) : within_bounds (lift r).
Proof. intros w. exists []. simpl. now rewrite app_nil_r. Qed.

(** The continuation only matters on the values the first part can
    return. *)
Lemma within_bounds_bind A B (c : M A) (k : A -> M B) :
  within_bounds c ->
  (forall a, (exists w, fst (c w) = Ok a) -> within_bounds (k a)) ->
  within_bounds (bind c k).
Proof.
  intros Hc Hk w. unfold bind. destruct (Hc w) as (new1 & Ht1 & Hok1).
  destruct (c w) as [[a|e] w1] eqn:E; cbn [fst snd] in *.
  - destruct (Hk a) with (w := w1) as (new2 & Ht2 & Hok2).
    { exists w. now rewrite E. }
    exists (new1 ++ new2). rewrite Ht2, Ht1, <- app_assoc.
    split; [reflexivity|]. apply Forall_app. auto.
  - exists new1. auto.
Qed.

Lemma within_bounds_try_except A B (c : M A) (h : exn -> M B)
    (k : A -> M B) :
  within_bounds c -> (forall e, within_bounds (h e)) ->
  (forall a, within_bounds (k a)) ->
  within_bounds (try_except c h k).
Proof.
  intros Hc Hh Hk w. unfold try_except.
  destruct (Hc w) as (new1 & Ht1 & Hok1).
  destruct (c w) as [[a|e] w1]; cbn [fst snd] in *.
  - destruct (Hk a w1) as (new2 & Ht2 & Hok2). exists (new1 ++ new2).
    rewrite Ht2, Ht1, <- app_assoc.
    split; [reflexivity|]. apply Forall_app. auto.
  - destruct (Hh e w1) as (new2 & Ht2 & Hok2). exists (new1 ++ new2).
    rewrite Ht2, Ht1, <- app_assoc.
    split; [reflexivity|]. apply Forall_app. auto.
Qed.

Lemma within_bounds_cb (progress_callback : option callback)
    (stage : string) (percent : float) (message : string) :
  within_bounds (_cb progress_callback stage percent message).
Proof.
  intros w. exists [Progress Frame stage percent message].
  split; [apply PipelineFacts.cb_spec|].
  constructor; [exact I|constructor].
Qed.

Lemma within_bounds_call_caption (images : list Frame) :
  1 <= length images <= 5 ->
  within_bounds (call_caption caption_batch images).
Proof.
  intros Hlen w. exists [CaptionBatch images].
  unfold call_caption, bind, log, lift. simpl.
  split; [reflexivity|]. constructor; [exact Hlen|constructor].
Qed.

Lemma within_bounds_call_summarize (texts : list string) :
  texts <> [] ->
  within_bounds (call_summarize (Frame := Frame) summarize texts).
Proof.
  intros Hne w. exists [Summarize Frame texts].
  unfold call_summarize, bind, log, lift. simpl.
  split; [reflexivity|]. constructor; [exact Hne|constructor].
Qed.

Lemma within_bounds_for_each A B (body : B -> A -> M B) (l : list A) :
  (forall acc x, within_bounds (body acc x)) ->
  forall acc, within_bounds (for_each body l acc).
Proof.
  intros Hbody. induction l as [|x l IH]; intros acc; simpl.
  - apply within_bounds_ret.
  - apply within_bounds_bind; [apply Hbody|intros; apply IH].
Qed.

Section Rows.
Hypothesis Hrows : Pipeline.one_row_per_frame _compute_embeddings.

Lemma within_bounds_scene (progress_callback : option callback)
    (frames : list Frame) (boundaries : list nat) (total_scenes : nat)
    (scene_summaries : list string) (entry : nat * nat) :
  within_bounds (scene _compute_embeddings caption_batch summarize
                   progress_callback (KeyframeSelector.mk None) frames
                   boundaries total_scenes scene_summaries entry).
Proof.
  destruct entry as [i start_idx]. unfold scene.
  apply within_bounds_bind; [apply within_bounds_cb|intros _ _].
  destruct (slice frames start_idx _) as [|f rest] eqn:Es.
  - apply within_bounds_bind; [apply within_bounds_cb|intros _ _].
    apply within_bounds_ret.
  - assert (Hne : f :: rest <> []) by discriminate.
    pose proof (@RunFacts.key_idxs_count _ _ Frame _compute_embeddings
                  (f :: rest) Hrows Hne) as Hcount.
    apply within_bounds_bind; [apply within_bounds_lift|].
    intros keyframes [w Hkeys]. unfold lift in Hkeys. cbn [fst] in Hkeys.
    apply mapM_length in Hkeys.
    apply within_bounds_bind;
      [apply within_bounds_call_caption; rewrite Hkeys; exact Hcount|].
    intros captions [w' Hcap].
    unfold call_caption, bind, log, lift in Hcap. cbn [fst] in Hcap.
    apply mapM_length in Hcap.
    apply within_bounds_bind.
    + apply within_bounds_call_summarize. intros ->. simpl in Hcap. lia.
    + intros scene_summary _.
      apply within_bounds_bind; [apply within_bounds_cb|intros _ _].
      apply within_bounds_ret.
Qed.

Lemma within_bounds_aggregation (progress_callback : option callback)
    (scene_summaries : list string) :
  within_bounds (aggregation (Frame := Frame) summarize progress_callback
                   scene_summaries).
Proof.
  unfold aggregation.
  apply within_bounds_bind; [apply within_bounds_cb|intros _ _].
  destruct scene_summaries as [|s rest].
  - apply within_bounds_bind; [apply within_bounds_cb|intros _ _].
    apply within_bounds_ret.
  - apply within_bounds_bind;
      [apply within_bounds_call_summarize; discriminate|intros final _].
    apply within_bounds_bind; [apply within_bounds_cb|intros _ _].
    apply within_bounds_bind; [apply within_bounds_cb|intros _ _].
    apply within_bounds_ret.
Qed.

(** Whatever the video, the callback and the outcome, a run never hands
    the captioner an empty batch or more than five images, and never
    hands the summarizer an empty list of texts. *)
Theorem run_calls_within_bounds (progress_callback : option callback)
    (video_path : string) (w : world Frame Sink) :
  exists new,
    trace (snd (run VideoCapture _histogram _compute_embeddings
                  caption_batch summarize video_path progress_callback w))
    = trace w ++ new /\
    Forall (@call_ok Frame) new.
Proof.
  revert w. change (within_bounds
    (run VideoCapture _histogram _compute_embeddings caption_batch
       summarize video_path progress_callback)).
  unfold run.
  apply within_bounds_bind; [apply within_bounds_cb|intros _ _].
  apply within_bounds_try_except; [apply within_bounds_lift| |].
  - intros e.
    apply within_bounds_bind; [apply within_bounds_cb|intros _ _].
    apply within_bounds_ret.
  - intros frames_iterator.
    apply within_bounds_bind; [apply within_bounds_cb|intros _ _].
    apply within_bounds_bind; [apply within_bounds_cb|intros _ _].
    apply within_bounds_bind; [apply within_bounds_lift|intros frames _].
    apply within_bounds_try_except; [apply within_bounds_lift| |].
    + intros e.
      apply within_bounds_bind; [apply within_bounds_cb|intros _ _].
      apply within_bounds_ret.
    + intros boundaries.
      apply within_bounds_bind; [apply within_bounds_cb|intros _ _].
      apply within_bounds_bind;
        [|intros; apply within_bounds_aggregation].
      unfold scenes. apply within_bounds_for_each. intros acc x.
      apply within_bounds_scene.
Qed.

End Rows.

End Facts.

Lemma run_calls_within_bounds_witness :
  exists new,
    trace (snd (run Demo.VideoCapture Demo._histogram
                  Demo._compute_embeddings
                  (VisionCaptioner.caption_batch (fun _ => Ok "a test"))
                  Demo.summarize "demo.mp4" (Some Demo.raising_callback)
                  Demo.w0))
    = trace Demo.w0 ++ new /\
    Forall (@call_ok Demo.Frame) new.
Proof.
  apply (@run_calls_within_bounds Q exact Q exact Demo.Frame nat Demo.VideoCapture
           Demo._histogram Demo._compute_embeddings (fun _ => Ok "a test")
           Demo.summarize PipelineFacts.demo_one_row_per_frame
           (Some Demo.raising_callback) "demo.mp4" Demo.w0).
Defined.

End CallsFacts.

(** ** Loading the embedding model *)

Module ClipLoaderFacts.
Import ClipLoader.

Section Facts.
Variable Model : Type.
Variable Processor : Type.
Variable OcModel : Type.
Variable Preprocess : Type.
Variable cuda_is_available : bool.
Variable mps_is_available : bool.
Variable environ_token : option string.
Variable create_model_and_transforms : string -> result (OcModel * Preprocess).
Variable oc_eval : OcModel -> result unit.
Variable oc_to : OcModel -> torch_device -> result unit.
Variable import_transformers : result unit.
Variable processor_from_pretrained : string -> option string -> result Processor.
Variable model_from_pretrained : string -> option string -> result Model.
Variable model_to : Model -> torch_device -> result unit.

Local Abbreviation t := (ClipLoader.t Model Processor OcModel Preprocess).
Local Abbreviation _load' :=
  (_load create_model_and_transforms oc_eval oc_to import_transformers
     processor_from_pretrained model_from_pretrained model_to).
Local Abbreviation load_transformers' :=
  (load_transformers import_transformers processor_from_pretrained
     model_from_pretrained model_to).
Local Abbreviation init' :=
  (@init Model Processor OcModel Preprocess cuda_is_available
     mps_is_available environ_token).

Lemma move_to_device_returns (self : t) (m : Model) (self' : t) :
  _model self = Some m ->
  move_to_device model_to self m = (Ok tt, self') ->
  _model self' = Some m /\ _processor self' = _processor self /\
  _using_open_clip self' = _using_open_clip self.
Proof.
  intros Hm. unfold move_to_device.
  destruct (model_to m (device self)); [intros H; injection H as <-; auto|].
  cbn [device set_device].
  destruct (model_to m cpu); [|discriminate].
  intros H. injection H as <-. auto.
Qed.

Lemma load_fallback_returns (self : t) (e : exn) (self' : t) :
  load_fallback processor_from_pretrained model_from_pretrained model_to
    self e = (Ok tt, self') ->
  is_some (_model self') = true /\ is_some (_processor self') = true /\
  _using_open_clip self' = _using_open_clip self.
Proof.
  unfold load_fallback. cbv zeta.
  destruct (processor_from_pretrained _ None) as [p'|e']; [|discriminate].
  destruct (model_from_pretrained _ None) as [m'|e'']; [|discriminate].
  intros H. apply move_to_device_returns in H; [|reflexivity].
  destruct H as (-> & -> & ->). auto.
Qed.

(** The transformers path, when it returns, leaves a model and a
    processor. *)
Lemma load_transformers_returns (self self' : t) :
  load_transformers' self = (Ok tt, self') ->
  is_some (_model self') = true /\ is_some (_processor self') = true /\
  _using_open_clip self' = _using_open_clip self.
Proof.
  unfold load_transformers.
  destruct import_transformers; [|discriminate].
  destruct (processor_from_pretrained (model_name self) _) as [p|e];
    [|apply load_fallback_returns].
  cbv zeta.
  destruct (model_from_pretrained _ _) as [m|e].
  - intros H. apply move_to_device_returns in H; [|reflexivity].
    destruct H as (-> & -> & ->). auto.
  - intros H. apply load_fallback_returns in H. exact H.
Qed.

Lemma open_clip_failed_returns (self : t) (e : exn) (self' : t) :
  open_clip_failed import_transformers processor_from_pretrained
    model_from_pretrained model_to self e = (Ok tt, self') ->
  usable self' = true.
Proof.
  unfold open_clip_failed. intros H.
  apply load_transformers_returns in H. destruct H as (Hm & Hp & Hu).
  unfold usable. rewrite Hu. cbn [_using_open_clip set_using_open_clip].
  now rewrite Hm, Hp.
Qed.

(** A new selector whose first [_load] returns has what
    [_compute_embeddings] needs, and every later [_load] leaves it as it
    is, without touching the libraries. *)
Theorem first_load_makes_usable (name : string)
    (dev : option torch_device) (n : option Z) (tok : option string)
    (flag : bool) (self' : t) :
  _load' (init' name dev n tok flag) = (Ok tt, self') ->
  usable self' = true /\ _load' self' = (Ok tt, self').
Proof.
  intros Hload.
  assert (Husable : usable self' = true).
  { revert Hload. unfold _load at 1. cbn [init _model _oc_model is_some orb].
    assert (Hfresh : _using_open_clip (init' name dev n tok flag) = false)
      by reflexivity.
    revert Hfresh. generalize (init' name dev n tok flag). intros self Hfresh.
    destruct (use_open_clip self).
    - destruct (create_model_and_transforms _) as [[m p]|e];
        [|apply open_clip_failed_returns].
      destruct (oc_eval m); [|apply open_clip_failed_returns].
      destruct (oc_to m _).
      + intros H. injection H as <-. reflexivity.
      + destruct (oc_to m cpu); [|apply open_clip_failed_returns].
        intros H. injection H as <-. reflexivity.
    - intros H. apply load_transformers_returns in H.
      destruct H as (Hm & Hp & Hu). unfold usable.
      now rewrite Hu, Hfresh, Hm, Hp. }
  split; [exact Husable|].
  unfold _load. unfold usable in Husable.
  destruct (_using_open_clip self');
    apply andb_prop in Husable; destruct Husable as [H1 _];
    rewrite H1; [now rewrite orb_true_r|reflexivity].
Qed.

Lemma move_to_device_keeps (self : t) (m : Model) (r : result unit)
    (self' : t) :
  move_to_device model_to self m = (r, self') ->
  _oc_model self' = _oc_model self /\
  _using_open_clip self' = _using_open_clip self.
Proof.
  unfold move_to_device.
  destruct (model_to m (device self)); [intros H; injection H as <- <-; auto|].
  cbn [device set_device].
  destruct (model_to m cpu); intros H; injection H as <- <-; auto.
Qed.

Lemma load_fallback_keeps (self : t) (e : exn) (r : result unit)
    (self' : t) :
  load_fallback processor_from_pretrained model_from_pretrained model_to
    self e = (r, self') ->
  _oc_model self' = _oc_model self /\
  _using_open_clip self' = _using_open_clip self.
Proof.
  unfold load_fallback. cbv zeta.
  destruct (processor_from_pretrained _ None) as [p'|e'];
    [|intros H; injection H as <- <-; auto].
  destruct (model_from_pretrained _ None) as [m'|e''];
    [|intros H; injection H as <- <-; auto].
  intros H. apply move_to_device_keeps in H. exact H.
Qed.

(** The transformers path never touches the open_clip fields. *)
Lemma load_transformers_keeps (self : t) (r : result unit) (self' : t) :
  load_transformers' self = (r, self') ->
  _oc_model self' = _oc_model self /\
  _using_open_clip self' = _using_open_clip self.
Proof.
  unfold load_transformers.
  destruct import_transformers; [|intros H; injection H as <- <-; auto].
  destruct (processor_from_pretrained (model_name self) _) as [p|e];
    [|apply load_fallback_keeps].
  cbv zeta.
  destruct (model_from_pretrained _ _) as [m|e].
  - intros H. apply move_to_device_keeps in H. exact H.
  - intros H. apply load_fallback_keeps in H. exact H.
Qed.

Lemma open_clip_failed_keeps (self : t) (e : exn) (r : result unit)
    (self' : t) :
  open_clip_failed import_transformers processor_from_pretrained
    model_from_pretrained model_to self e = (r, self') ->
  _oc_model self' = _oc_model self /\ _using_open_clip self' = false.
Proof.
  unfold open_clip_failed. intros H.
  apply load_transformers_keeps in H. exact H.
Qed.

(** A first [_load] that creates the open_clip model and then raises
    without a transformers model is never retried: the next [_load]
    returns at once, and the selector stays without the objects that
    [_compute_embeddings] uses. *)
Theorem failed_load_is_not_retried (name : string)
    (dev : option torch_device) (n : option Z) (tok : option string)
    (flag : bool) (m : OcModel) (p : Preprocess) (e : exn) (self' : t) :
  use_open_clip (init' name dev n tok flag) = true ->
  create_model_and_transforms name = Ok (m, p) ->
  _load' (init' name dev n tok flag) = (Raise e, self') ->
  _model self' = None ->
  _load' self' = (Ok tt, self') /\ usable self' = false.
Proof.
  intros Huse Hcreate Hload Hmodel.
  assert (Hkept : _oc_model self' = Some m /\ _using_open_clip self' = false).
  { revert Hload. unfold _load.
    cbn [init _model _oc_model is_some orb]. rewrite Huse.
    change (model_name (init' name dev n tok flag)) with name.
    rewrite Hcreate.
    destruct (oc_eval m).
    - destruct (oc_to m _); [discriminate|].
      destruct (oc_to m cpu); [discriminate|].
      intros H. apply open_clip_failed_keeps in H. exact H.
    - intros H. apply open_clip_failed_keeps in H. exact H. }
  destruct Hkept as [Hoc Husing]. split.
  - unfold _load. rewrite Hoc. cbn [is_some]. now rewrite orb_true_r.
  - unfold usable. now rewrite Husing, Hmodel.
Qed.

End Facts.

Lemma first_load_makes_usable_witness :
  usable (snd (_load (fun _ => Raise (Exception "ImportError" "No module named 'open_clip'"))
                 (fun _ : unit => Ok tt) (fun _ _ => Ok tt) (Ok tt)
                 (fun name _ =>
                    if String.eqb name "openai/clip-vit-large-patch14"
                    then Ok tt else Raise (Exception "OSError" "gated"))
                 (fun _ _ => Ok tt) (fun _ _ => Ok tt)
                 (@init unit unit unit unit false false None
                    "hf-hub:laion/CLIP-ViT-B-32" None None None false)))
  = true.
Proof.
  apply (@first_load_makes_usable unit unit unit unit false false None
           (fun _ => Raise (Exception "ImportError" "No module named 'open_clip'"))
           (fun _ => Ok tt) (fun _ _ => Ok tt) (Ok tt)
           (fun name _ =>
              if String.eqb name "openai/clip-vit-large-patch14"
              then Ok tt else Raise (Exception "OSError" "gated"))
           (fun _ _ => Ok tt) (fun _ _ => Ok tt)
           "hf-hub:laion/CLIP-ViT-B-32" None None None false).
  reflexivity.
Defined.

Lemma failed_load_is_not_retried_witness :
  exists self' : ClipLoader.t unit unit unit unit,
    _load (fun _ => Ok (tt, tt))
      (fun _ => Raise (Exception "RuntimeError" "eval failed"))
      (fun _ _ => Ok tt)
      (Raise (Exception "ImportError" "No module named 'transformers'"))
      (fun _ _ => Ok tt) (fun _ _ => Ok tt) (fun _ _ => Ok tt) self'
    = (Ok tt, self') /\
    usable self' = false.
Proof.
  eexists.
  apply (@failed_load_is_not_retried unit unit unit unit false false None
           (fun _ => Ok (tt, tt))
           (fun _ => Raise (Exception "RuntimeError" "eval failed"))
           (fun _ _ => Ok tt)
           (Raise (Exception "ImportError" "No module named 'transformers'"))
           (fun _ _ => Ok tt) (fun _ _ => Ok tt) (fun _ _ => Ok tt)
           "hf-hub:laion/CLIP-ViT-B-32" None None None false tt tt
           (Exception "ImportError" "No module named 'transformers'") _).
  - reflexivity.
  - reflexivity.
  - reflexivity.
  - reflexivity.
Defined.

End ClipLoaderFacts.

(** ** The summarizer *)

Module SummarizerFacts.
Import ClipLoader Summarizer.

Section Facts.
Variable Pipe : Type.
Variable cuda_is_available : bool.
Variable mps_is_available : bool.
Variable import_transformers : result unit.
Variable pipeline : string -> Z -> result Pipe.
Variable call : Pipe -> string -> Z -> result output.

Local Abbreviation world := (Summarizer.world Pipe).
Local Abbreviation _load' := (_load import_transformers pipeline).
Local Abbreviation summarize' := (summarize import_transformers pipeline call).
Local Abbreviation summarize_all' :=
  (summarize_all import_transformers pipeline call).

Local Abbreviation loaded_once := (@Summarizer.loaded_once Pipe).

Lemma created_app (log1 log2 : list event) :
  created (log1 ++ log2) = created log1 + created log2.
Proof. unfold created. now rewrite filter_app, length_app. Qed.

Lemma load_keeps_loaded_once (w : world) :
  loaded_once w -> loaded_once (snd (_load' w)).
Proof.
  destruct w as [self log]. unfold loaded_once, _load. cbn [fst snd].
  destruct (_pipeline self) eqn:Hp; cbn [is_some fst snd].
  - now rewrite Hp.
  - intros Hlog. destruct import_transformers; cbn [fst snd].
    + destruct (pipeline (model_name self) _); cbn [fst snd _pipeline].
      * rewrite created_app, Hlog. reflexivity.
      * destruct (pipeline (model_name self) (-1)%Z);
          cbn [fst snd _pipeline is_some];
          rewrite !created_app, Hlog; reflexivity.
    + now rewrite Hp.
Qed.

Lemma summarize_world (texts : list string) (w : world) :
  snd (summarize' texts w) = w \/
  snd (summarize' texts w) = snd (_load' w).
Proof.
  unfold summarize. destruct texts as [|text texts]; [now left|right].
  destruct (_load' w) as [[u|e] w']; [|reflexivity]. cbn [snd].
  destruct (_pipeline (fst w')) as [p|]; [|reflexivity].
  destruct (call p _ _) as [[[|first rest]|]|e]; reflexivity.
Qed.

Lemma summarize_all_loaded_once (inputs : list (list string)) :
  forall w, loaded_once w -> loaded_once (summarize_all' inputs w).
Proof.
  induction inputs as [|texts inputs IH]; intros w Hw; [exact Hw|].
  cbn [summarize_all]. apply IH.
  destruct (summarize_world texts w) as [-> | ->];
    [exact Hw|now apply load_keeps_loaded_once].
Qed.

(** Lazy loading: however many lists a summarizer is given, and
    whatever fails on the way, it creates at most one pipeline. *)
Theorem summarizer_loads_at_most_once (name : string)
    (dev : option torch_device) (max_len : Z)
    (inputs : list (list string)) :
  created (snd (summarize_all' inputs
                  (@init Pipe cuda_is_available mps_is_available name dev
                     max_len, [])))
  <= 1.
Proof.
  pose proof (@summarize_all_loaded_once inputs
                (@init Pipe cuda_is_available mps_is_available name dev
                   max_len, []) eq_refl) as H.
  unfold loaded_once in H. rewrite H.
  destruct (is_some _); lia.
Qed.

(** What [summarize] returns: the empty string for no text, without
    loading anything; otherwise the [summary_text] of the first item of
    the output, and the empty string when the output is not a list, is
    an empty list, or the item has no such key. *)
Theorem summarize_returns (texts : list string) (w : world) (s : string) :
  fst (summarize' texts w) = Ok s ->
  (texts = [] /\ s = "" /\ snd (summarize' texts w) = w) \/
  (texts <> [] /\
   exists p out,
     _pipeline (fst (snd (summarize' texts w))) = Some p /\
     call p (String.concat newline texts)
       (max_length (fst (snd (summarize' texts w)))) = Ok out /\
     s = match out with
         | PyList (first :: _) => get first "summary_text" ""
         | _ => ""
         end).
Proof.
  unfold summarize. destruct texts as [|text texts].
  - intros H. injection H as <-. left. auto.
  - intros H. right. split; [discriminate|].
    destruct (_load' w) as [[u|e] w']; [|discriminate]. cbn [fst snd] in *.
    destruct (_pipeline (fst w')) as [p|] eqn:Hp; [|discriminate].
    destruct (call p _ _) as [out|e] eqn:Hcall; [|discriminate].
    exists p, out. cbn [fst snd].
    destruct out as [[|first rest]|]; cbn [fst snd] in *;
      injection H as <-; rewrite Hp; auto.
Qed.

End Facts.

Lemma summarize_returns_witness :
  fst (summarize (Ok tt) (fun _ _ => Ok tt)
         (fun _ joined _ => Ok (PyList [[("summary_text", joined)]]))
         ["a dog"; "a cat"]
         (@init unit false false "facebook/bart-large-cnn" None 128, []))
  = Ok (String.concat newline ["a dog"; "a cat"]).
Proof.
  destruct (@summarize_returns unit (Ok tt) (fun _ _ => Ok tt)
              (fun _ joined _ => Ok (PyList [[("summary_text", joined)]]))
              ["a dog"; "a cat"]
              (@init unit false false "facebook/bart-large-cnn" None 128,
               [])
              (String.concat newline ["a dog"; "a cat"]) eq_refl)
    as [(H & _)|_]; [discriminate|reflexivity].
Defined.

End SummarizerFacts.
